(** * ai-code-connect: the interactive session of [src/sdk-session.ts]

    A shallow embedding of the attach/detach pipeline of [SDKSession]:
    the stdin filter and detach classifier ([onStdinData]), the detach
    itself ([performDetach]), the manager registry ([getOrCreateManager]),
    the bounded conversation history and the re-attach replay
    ([enterInteractiveMode]).

    JavaScript strings are lists of UTF-16 code units, a [Buffer] is a list
    of bytes, [Map<string, _>] is a [gmap string _], and objects that are
    shared by reference (the PTY managers) live in a store indexed by their
    reference. *)

From Stdlib Require Import ZArith NArith Lia.
From Stdlib Require Import Strings.String Strings.Ascii Strings.Byte.
From stdpp Require Import base option list gmap strings.

Local Open Scope N_scope.

(** ** JavaScript strings and buffers *)

Module Js.

(** A string is a sequence of UTF-16 code units; [length] counts them,
    as [String.prototype.length] does. *)
Definition codeunit := N.
Definition jsstring := list N.

(** A [Buffer] is a sequence of bytes; [data[i]] is [Byte.to_N] of the
    i-th byte. *)
Definition Buffer := list Byte.byte.

(** An ASCII literal of the source, as code units. *)
Definition lit (s : string) : jsstring :=
  map N_of_ascii (list_ascii_of_string s).

(** The bytes of an ASCII-only string (every unit below 128). *)
Definition bytesOf (s : jsstring) : Buffer :=
  omap Byte.of_N s.

Definition ESC : N := 0x1b.

(** [s.startsWith(lit)] at the head of [s]; the characters of [s] are
    read through [ch], so that the same scan runs on plain strings
    ([ch] the identity) and on strings whose characters carry a mark. *)
Fixpoint startsWith {A} (ch : A -> N) (l : jsstring) (s : list A) : bool :=
  match l, s with
  | [], _ => true
  | c :: l', x :: s' => (ch x =? c) && startsWith ch l' s'
  | _ :: _, [] => false
  end.

(** [s.includes(seq)] *)
Fixpoint includes (seq s : jsstring) : bool :=
  startsWith id seq s ||
  match s with
  | [] => false
  | _ :: t => includes seq t
  end.

End Js.
Export Js.

(** ** [Buffer.prototype.toString()]: UTF-8 decoding

    The decoder of the runtime, as the WHATWG encoding standard describes
    it: an ill-formed sequence yields U+FFFD and the offending byte is
    read again as the start of a new character.  No byte-order mark is
    removed. *)

Module Utf8.

Definition REPLACEMENT : N := 0xFFFD.

(** A code point as one code unit or as a surrogate pair. *)
Definition emit (cp : N) : jsstring :=
  if cp <? 0x10000 then [cp]
  else [0xD800 + (cp - 0x10000) / 0x400; 0xDC00 + (cp - 0x10000) mod 0x400].

(** [needed] is the number of continuation bytes still expected, [cp]
    the code point collected so far, [lower..upper] the range allowed
    for the next continuation byte. *)
Fixpoint decode (needed : nat) (cp lower upper : N) (bs : list N)
  : jsstring :=
  match bs with
  | [] => match needed with O => [] | S _ => [REPLACEMENT] end
  | b :: rest =>
      let lead :=
        if b <=? 0x7F then b :: decode 0 0 0x80 0xBF rest
        else if (0xC2 <=? b) && (b <=? 0xDF)
          then decode 1 (N.land b 0x1F) 0x80 0xBF rest
        else if (0xE0 <=? b) && (b <=? 0xEF)
          then decode 2 (N.land b 0xF)
                 (if b =? 0xE0 then 0xA0 else 0x80)
                 (if b =? 0xED then 0x9F else 0xBF) rest
        else if (0xF0 <=? b) && (b <=? 0xF4)
          then decode 3 (N.land b 0x7)
                 (if b =? 0xF0 then 0x90 else 0x80)
                 (if b =? 0xF4 then 0x8F else 0xBF) rest
        else REPLACEMENT :: decode 0 0 0x80 0xBF rest in
      match needed with
      | O => lead
      | S k =>
          if (lower <=? b) && (b <=? upper) then
            let cp' := N.lor (N.shiftl cp 6) (N.land b 0x3F) in
            match k with
            | O => emit cp' ++ decode 0 0 0x80 0xBF rest
            | S _ => decode k cp' 0x80 0xBF rest
            end
          else REPLACEMENT :: lead
      end
  end.

Definition toString (data : Buffer) : jsstring :=
  decode 0 0 0x80 0xBF (map Byte.to_N data).

End Utf8.
Export Utf8.

(** ** The sequences the session recognises (lines 31-60 of the source) *)

Definition CTRL_BRACKET : N := 0x1d.
Definition CTRL_BACKSLASH : N := 0x1c.
Definition CTRL_CARET : N := 0x1e.
Definition CTRL_UNDERSCORE : N := 0x1f.
Definition ESCAPE : N := 0x1b.

(** The literals are kept as the source writes them and evaluated to
    their code units once. *)
Definition CSI_U_DETACH_SEQS : list jsstring := Eval vm_compute in
  [ ESC :: lit "[93;5u";     (* Ctrl+] *)
    ESC :: lit "[92;5u";     (* Ctrl+\ *)
    ESC :: lit "[54;5u";     (* Ctrl+^ / Ctrl+6 *)
    ESC :: lit "[45;5u";     (* Ctrl+_ / Ctrl+- *)
    ESC :: lit "[54;6u";     (* Ctrl+Shift+6 *)
    ESC :: lit "[45;6u" ].   (* Ctrl+Shift+- *)

Definition FOCUS_IN_SEQ : jsstring := Eval vm_compute in ESC :: lit "[I".
Definition FOCUS_OUT_SEQ : jsstring := Eval vm_compute in ESC :: lit "[O".

(** The fixed heads of the three regular expressions of lines 1141-1143. *)
Definition CSI_QUERY : jsstring := Eval vm_compute in ESC :: lit "[?".
Definition CSI_SECONDARY : jsstring := Eval vm_compute in ESC :: lit "[>".
Definition CSI : jsstring := Eval vm_compute in ESC :: lit "[".

(** What the session writes to the terminal. *)
Definition CLEAR_LINE : jsstring := Eval vm_compute in ESC :: lit "[2K" ++ [0x0d].
Definition FOCUS_REPORTING_OFF : jsstring := Eval vm_compute in ESC :: lit "[?1004l".
Definition BRACKETED_PASTE_OFF : jsstring := Eval vm_compute in ESC :: lit "[?2004l".
Definition KEYBOARD_RESET : jsstring := Eval vm_compute in ESC :: lit "[>0u".
Definition SHOW_CURSOR : jsstring := Eval vm_compute in ESC :: lit "[?25h".
Definition CLEAR_SCREEN : jsstring := Eval vm_compute in
  ESC :: lit "[2J" ++ ESC :: lit "[H".
Definition NEWLINE : jsstring := [0x0a].

Definition MAX_HISTORY_SIZE : nat := 1000.

(** ** Removing sequences from a string

    [str.split(SEQ).join('')] and [str.replace(/re/g, '')] both scan the
    string from the left and delete every match they meet, resuming after
    the deleted text; the result is not scanned again. *)

Module Strip.
Section Scan.
Context {A : Type} (ch : A -> N).

(** A matcher answers with the length of the match at the head of the
    string, if there is one. *)
Definition matcher := list A -> option nat.

Definition matchLiteral (l : jsstring) : matcher := fun s =>
  if startsWith ch l s then Some (length l) else None.

(** The character class [[\d;]]. *)
Definition isParam (c : N) : bool :=
  ((0x30 <=? c) && (c <=? 0x39)) || (c =? 0x3b).

(** The greedy [[\d;]*] followed by one character of the class [final]:
    the star takes every parameter character, and giving some back
    cannot help since [final] holds no parameter character. *)
Fixpoint paramsThen (final : N -> bool) (s : list A) : option nat :=
  match s with
  | [] => None
  | x :: t =>
      if isParam (ch x) then S <$> paramsThen final t
      else if final (ch x) then Some 1%nat
      else None
  end.

(** [intro [\d;]* final] *)
Definition matchCsi (intro : jsstring) (final : N -> bool) : matcher :=
  fun s =>
    if startsWith ch intro s
    then (fun n => length intro + n)%nat <$>
           paramsThen final (drop (length intro) s)
    else None.

(** Delete every match, left to right; [skip] characters of a match
    found earlier are still to be dropped. *)
Fixpoint removeAll (m : matcher) (skip : nat) (s : list A) : list A :=
  match s with
  | [] => []
  | x :: t =>
      match skip with
      | S k => removeAll m k t
      | O =>
          match m s with
          | Some (S n) => removeAll m n t
          | _ => x :: removeAll m 0 t
          end
      end
  end.

Definition isChar (c : N) : N -> bool := fun x => x =? c.
Definition isUorC : N -> bool := fun x => (x =? 0x75) || (x =? 0x63).

(** [/\x1b\[\?[\d;]*[uc]/], [/\x1b\[>[\d;]*c/] and [/\x1b\[[\d;]*u/] *)
Definition reQuery : matcher := matchCsi CSI_QUERY isUorC.
Definition reSecondary : matcher := matchCsi CSI_SECONDARY (isChar 0x63).
Definition reCsiU : matcher := matchCsi CSI (isChar 0x75).

(** [s.split(FOCUS_IN_SEQ).join('').split(FOCUS_OUT_SEQ).join('')] *)
Definition stripFocus (s : list A) : list A :=
  removeAll (matchLiteral FOCUS_OUT_SEQ) 0
    (removeAll (matchLiteral FOCUS_IN_SEQ) 0 s).

(** The three [replace] calls of lines 1140-1143, in their order. *)
Definition stripResponses (s : list A) : list A :=
  removeAll reCsiU 0 (removeAll reSecondary 0 (removeAll reQuery 0 s)).

Definition stripInput (s : list A) : list A :=
  stripResponses (stripFocus s).

End Scan.
End Strip.
Export Strip.

(** *** Shapes of matches

    Used to state what the scans keep and what they delete. *)

Section Shapes.
Context {A : Type} (ch : A -> N).

Definition printable (x : A) : Prop := 0x20 <= ch x.

(** Every match is an escape followed by printable characters. *)
Definition escapeHeaded (m : list A -> option nat) : Prop :=
  forall s n, m s = Some n ->
    exists x t k, s = x :: t /\ ch x = ESC /\ n = S k /\
                  (k <= length t)%nat /\ Forall printable (take k t).

(** One scan, and the five scans of [stripInput] in their order. *)
Definition scan (s : list A) (m : list A -> option nat) : list A :=
  removeAll m 0 s.

Definition passes : list (list A -> option nat) :=
  [ matchLiteral ch FOCUS_IN_SEQ; matchLiteral ch FOCUS_OUT_SEQ;
    reQuery ch; reSecondary ch; reCsiU ch ].

End Shapes.

(** The sequences the filter is there for: the two focus reports and the
    three kinds of terminal response the regular expressions describe. *)
Inductive Report : jsstring → Prop :=
  | report_focus_in : Report FOCUS_IN_SEQ
  | report_focus_out : Report FOCUS_OUT_SEQ
  | report_query ps f :
      forallb isParam ps = true → isUorC f = true →
      Report (CSI_QUERY ++ ps ++ [f])
  | report_secondary ps :
      forallb isParam ps = true →
      Report (CSI_SECONDARY ++ ps ++ [0x63])
  | report_csi_u ps :
      forallb isParam ps = true →
      Report (CSI ++ ps ++ [0x75]).

(** A string whose characters carry a mark, to follow single characters
    through the scans. *)
Definition marked (b : bool) (s : jsstring) : list (bool * N) :=
  pair b <$> s.

(** ** The session's data *)

Inductive Role := user | assistant.

Record Message := {
  tool : string;
  role : Role;
  content : jsstring;
}.

(** The part of a tool adapter the session uses ([adapters/base.ts] is an
    external collaborator).  [adapter.send] is asynchronous and external:
    its outcome is given to [sendToTool] as an argument. *)
Record Adapter := {
  name : string;
  displayName : string;
  cleanResponse : jsstring -> jsstring;
}.

Inductive Error :=
  | UnknownTool (t : string)
  | SpawnError
  | SendError
  | PtyNotAvailable.

Inductive Result (A : Type) :=
  | Ok (a : A)
  | Throw (e : Error).
Arguments Ok {A} a.
Arguments Throw {A} e.

(** ** PersistentPtyManager *)

Module Pty.

(** Modelled from the spec: the states of a session (section 3);
    [persistent-pty.ts], which declares [PtyState] and the class
    [PersistentPtyManager], is not among the sources. *)
Inductive PtyState := SPAWNING | READY | ATTACHED | DETACHED | PROCESSING | DEAD.

(** Modelled from the spec: a manager owns one subprocess: its state,
    whether a caller is bridging the terminal to it, and the output it has
    accumulated (section 3); [ptyInput] is the input stream of the
    subprocess, kept as the list of what was written to it. *)
Record Manager := {
  toolId : string;
  state : PtyState;
  attached : bool;
  outputBuffer : jsstring;
  ptyInput : list jsstring;
}.

(** Modelled from the spec: a session is created in [SPAWNING], not
    attached, with an empty buffer. *)
Definition newManager (t : string) : Manager :=
  {| toolId := t; state := SPAWNING; attached := false;
     outputBuffer := []; ptyInput := [] |}.

(** Modelled from the spec: the accessors [isDead()], [isUserAttached()],
    [getState()] and [getOutputBuffer()] the session calls. *)
Definition isDead (m : Manager) : bool :=
  match state m with DEAD => true | _ => false end.

Definition isUserAttached (m : Manager) : bool := attached m.
Definition getState (m : Manager) : PtyState := state m.
Definition getOutputBuffer (m : Manager) : jsstring := outputBuffer m.

(** Modelled from the spec: [getPty()] gives the process handle, which is
    released on [DEAD]. *)
Definition hasPty (m : Manager) : bool := negb (isDead m).

(** Modelled from the spec: [attach()] marks the caller as bridging; once
    [DEAD] no further transition occurs. *)
Definition attach (m : Manager) : Manager :=
  if isDead m then m
  else {| toolId := toolId m; state := ATTACHED; attached := true;
          outputBuffer := outputBuffer m; ptyInput := ptyInput m |}.

(** Modelled from the spec: [detach()] ends the bridging ([attached] is
    true only while a caller bridges); the state becomes [DETACHED]
    unless the subprocess is [DEAD]. *)
Definition detach (m : Manager) : Manager :=
  {| toolId := toolId m;
     state := if isDead m then DEAD else DETACHED;
     attached := false;
     outputBuffer := outputBuffer m; ptyInput := ptyInput m |}.

(** Modelled from the spec: [write(str)] sends [str] to the subprocess; a
    write to a [DEAD] session is a no-op. *)
Definition write (str : jsstring) (m : Manager) : Manager :=
  if isDead m then m
  else {| toolId := toolId m; state := state m; attached := attached m;
          outputBuffer := outputBuffer m;
          ptyInput := ptyInput m ++ [str] |}.

(** Modelled from the spec: the exit of the subprocess leads to [DEAD]
    from any state. *)
Definition exited (m : Manager) : Manager :=
  {| toolId := toolId m; state := DEAD; attached := attached m;
     outputBuffer := outputBuffer m; ptyInput := ptyInput m |}.

(** Modelled from the spec: [kill()] terminates the subprocess. *)
Definition kill (m : Manager) : Manager := exited m.

(** Modelled from the spec: [spawn(cwd, waitForReady)] launches the
    subprocess; it returns in [SPAWNING], or in [READY] when the caller
    waited for the prompt; a failed launch leaves no live process. *)
Definition spawn (waitForReady ok : bool) (m : Manager) : Manager :=
  {| toolId := toolId m;
     state := if ok then (if waitForReady then READY else SPAWNING) else DEAD;
     attached := attached m;
     outputBuffer := outputBuffer m; ptyInput := ptyInput m |}.

(** Modelled from the spec: every chunk the subprocess prints is appended
    to the buffer, whose oldest content is dropped beyond [cap]; the cap
    is a constant of the missing file and is taken as a parameter. *)
Definition onData (cap : nat) (chunk : jsstring) (m : Manager) : Manager :=
  if isDead m then m
  else
    let b := outputBuffer m ++ chunk in
    {| toolId := toolId m; state := state m; attached := attached m;
       outputBuffer := drop (length b - cap) b; ptyInput := ptyInput m |}.

End Pty.
Export Pty.

(** ** The terminal and the session object *)

(** What the session prints with [console.log]; the wording and colours of
    the messages are left out. *)
Inductive Notice :=
  | NExited (t : string) (code : Z)
  | NBusy
  | NRendered (response : jsstring)
  | NError (e : Error)
  | NReattaching (t : string)
  | NFirstLaunch (t : string)
  | NDetachHint
  | NSending
  | NDetached (t : string)
  | NReattachHint
  | NStopping (t : string)
  | NCleared
  | NSwitched (t : string)
  | NDebug (data : Buffer).

Inductive Out :=
  | Wrote (s : jsstring)        (* process.stdout.write(s) *)
  | Logged (n : Notice)         (* console.log, console.error *)
  | Animated (t : string)       (* animateRainbow, the spinner *)
  | Echoed (chunk : jsstring).  (* output of the attached subprocess *)

Record Terminal := {
  isTTY : bool;
  rawMode : bool;              (* as the session's own setRawMode calls leave it *)
  stdinListening : bool;       (* the 'data' listener of runInteractiveSession *)
  resizeListening : bool;
  debugEnv : bool;             (* process.env.AIC_DEBUG === '1' *)
  stdout : list Out;           (* oldest first *)
}.

(** The fields of [SDKSession]; [store] holds the manager objects, and
    [ptyManagers] maps a tool to the reference of its manager, so that a
    manager a closure still holds and the one in the map are one object. *)
Record World := {
  registry : gmap string Adapter;
  activeTool : string;
  conversationHistory : list Message;
  ptyManagers : gmap string nat;
  store : list Manager;
  requestInProgress : bool;
  rl : bool;                   (* [this.rl !== null] *)
  launched : list (string * bool);  (* subprocess launches, oldest first *)
  term : Terminal;
}.

Definition setHistory (h : list Message) (w : World) : World :=
  {| registry := registry w; activeTool := activeTool w;
     conversationHistory := h; ptyManagers := ptyManagers w;
     store := store w; requestInProgress := requestInProgress w;
     rl := rl w; launched := launched w; term := term w |}.

Definition setActiveTool (t : string) (w : World) : World :=
  {| registry := registry w; activeTool := t;
     conversationHistory := conversationHistory w; ptyManagers := ptyManagers w;
     store := store w; requestInProgress := requestInProgress w;
     rl := rl w; launched := launched w; term := term w |}.

Definition setManagers (pm : gmap string nat) (w : World) : World :=
  {| registry := registry w; activeTool := activeTool w;
     conversationHistory := conversationHistory w; ptyManagers := pm;
     store := store w; requestInProgress := requestInProgress w;
     rl := rl w; launched := launched w; term := term w |}.

Definition setStore (st : list Manager) (w : World) : World :=
  {| registry := registry w; activeTool := activeTool w;
     conversationHistory := conversationHistory w; ptyManagers := ptyManagers w;
     store := st; requestInProgress := requestInProgress w;
     rl := rl w; launched := launched w; term := term w |}.

Definition setRequestInProgress (b : bool) (w : World) : World :=
  {| registry := registry w; activeTool := activeTool w;
     conversationHistory := conversationHistory w; ptyManagers := ptyManagers w;
     store := store w; requestInProgress := b;
     rl := rl w; launched := launched w; term := term w |}.

Definition setRl (b : bool) (w : World) : World :=
  {| registry := registry w; activeTool := activeTool w;
     conversationHistory := conversationHistory w; ptyManagers := ptyManagers w;
     store := store w; requestInProgress := requestInProgress w;
     rl := b; launched := launched w; term := term w |}.

Definition setLaunched (l : list (string * bool)) (w : World) : World :=
  {| registry := registry w; activeTool := activeTool w;
     conversationHistory := conversationHistory w; ptyManagers := ptyManagers w;
     store := store w; requestInProgress := requestInProgress w;
     rl := rl w; launched := l; term := term w |}.

Definition setTerm (t : Terminal) (w : World) : World :=
  {| registry := registry w; activeTool := activeTool w;
     conversationHistory := conversationHistory w; ptyManagers := ptyManagers w;
     store := store w; requestInProgress := requestInProgress w;
     rl := rl w; launched := launched w; term := t |}.

Definition setRawMode (b : bool) (t : Terminal) : Terminal :=
  {| isTTY := isTTY t; rawMode := b; stdinListening := stdinListening t;
     resizeListening := resizeListening t; debugEnv := debugEnv t;
     stdout := stdout t |}.

Definition setStdinListening (b : bool) (t : Terminal) : Terminal :=
  {| isTTY := isTTY t; rawMode := rawMode t; stdinListening := b;
     resizeListening := resizeListening t; debugEnv := debugEnv t;
     stdout := stdout t |}.

Definition setResizeListening (b : bool) (t : Terminal) : Terminal :=
  {| isTTY := isTTY t; rawMode := rawMode t; stdinListening := stdinListening t;
     resizeListening := b; debugEnv := debugEnv t; stdout := stdout t |}.

Definition setStdout (o : list Out) (t : Terminal) : Terminal :=
  {| isTTY := isTTY t; rawMode := rawMode t; stdinListening := stdinListening t;
     resizeListening := resizeListening t; debugEnv := debugEnv t;
     stdout := o |}.

(** [process.stdout.write] and [console.log] *)
Definition stdoutWrite (o : list Out) (w : World) : World :=
  setTerm (setStdout (stdout (term w) ++ o) (term w)) w.

(** A method call on the manager object behind reference [r]. *)
Definition onManager (r : nat) (f : Manager -> Manager) (w : World) : World :=
  setStore (alter f r (store w)) w.

(** [manager.getOutputBuffer()] through a reference. *)
Definition bufferOf (r : nat) (w : World) : jsstring :=
  from_option getOutputBuffer [] (store w !! r).

(** What has been written to the input of the subprocess behind [r]. *)
Definition inputOf (r : nat) (w : World) : list jsstring :=
  from_option ptyInput [] (store w !! r).

(** [manager.isDead()] through a reference. *)
Definition deadRef (r : nat) (w : World) : bool :=
  from_option isDead true (store w !! r).

Definition attachedRef (r : nat) (w : World) : bool :=
  from_option isUserAttached false (store w !! r).

(** ** The conversation history *)

(** [while (this.conversationHistory.length > MAX_HISTORY_SIZE)
       this.conversationHistory.shift();] *)
Fixpoint enforceHistoryLimit (h : list Message) : list Message :=
  match h with
  | [] => []
  | _ :: t =>
      if (MAX_HISTORY_SIZE <? length h)%nat then enforceHistoryLimit t else h
  end.

(** [this.conversationHistory.push(m)] followed by the loop above. *)
Definition record (m : Message) (w : World) : World :=
  setHistory (enforceHistoryLimit (conversationHistory w ++ [m])) w.

(** [this.conversationHistory.pop()] *)
Definition pop (w : World) : World :=
  setHistory (take (length (conversationHistory w) - 1) (conversationHistory w)) w.

(** ** [getOrCreateManager] (lines 383-419) *)

(** [manager] of line 384 when it is set and not dead. *)
Definition liveManager (t : string) (w : World) : option nat :=
  match ptyManagers w !! t with
  | Some r => if deadRef r w then None else Some r
  | None => None
  end.

(** [spawnOk] tells whether the launch of the subprocess succeeds, should
    one be attempted: [manager.spawn] then returns, or throws. *)
Definition getOrCreateManager (t : string) (waitForReady spawnOk : bool)
    (w : World) : Result nat * World :=
  match liveManager t w with
  | Some r => (Ok r, w)
  | None =>
      match registry w !! t with
      | None => (Throw (UnknownTool t), w)
      | Some adapter =>
          let r := length (store w) in
          let w := setStore (store w ++ [newManager (name adapter)]) w in
          let w := setManagers (<[t := r]> (ptyManagers w)) w in
          let w := setLaunched (launched w ++ [(name adapter, waitForReady)]) w in
          let w := onManager r (spawn waitForReady spawnOk) w in
          if spawnOk then (Ok r, w) else (Throw SpawnError, w)
      end
  end.

(** ** [sendToTool] (lines 828-909) *)

(** Lines 860-864: a live manager of the active tool is killed silently
    and leaves the map. *)
Definition killExisting (w : World) : World :=
  match liveManager (activeTool w) w with
  | Some r =>
      setManagers (delete (activeTool w) (ptyManagers w)) (onManager r kill w)
  | None => w
  end.

(** [sent] is the outcome of [adapter.send]: the response, or a failure. *)
Definition sendToTool (message : jsstring) (sent : option jsstring)
    (w : World) : World :=
  if requestInProgress w then stdoutWrite [Logged NBusy] w
  else
    let w := setRequestInProgress true w in
    let w := record {| tool := activeTool w; role := user; content := message |} w in
    let w := stdoutWrite [Animated "thinking"] w in
    let w := killExisting w in
    let w :=
      match registry w !! activeTool w with
      | None => pop (stdoutWrite [Logged (NError (UnknownTool (activeTool w)))] w)
      | Some adapter =>
          match sent with
          | None => pop (stdoutWrite [Logged (NError SendError)] w)
          | Some response =>
              let w := if (0 <? length response)%nat
                       then stdoutWrite [Logged (NRendered response)] w else w in
              record {| tool := activeTool w; role := assistant;
                        content := response |} w
          end
      end in
    setRequestInProgress false w.

(** ** The interactive session (lines 1050-1219) *)

(** The variables the callbacks of [runInteractiveSession] close over. *)
Record Closure := {
  manager : nat;               (* reference of the attached manager *)
  toolName : string;
  detached : bool;
  lastEscapeTime : Z;
  debugKeys : bool;
  cleanedUp : bool;
  resolved : bool;             (* the promise of the session is resolved *)
}.

Definition setDetached (c : Closure) : Closure :=
  {| manager := manager c; toolName := toolName c; detached := true;
     lastEscapeTime := lastEscapeTime c; debugKeys := debugKeys c;
     cleanedUp := cleanedUp c; resolved := resolved c |}.

Definition setLastEscapeTime (t : Z) (c : Closure) : Closure :=
  {| manager := manager c; toolName := toolName c; detached := detached c;
     lastEscapeTime := t; debugKeys := debugKeys c;
     cleanedUp := cleanedUp c; resolved := resolved c |}.

Definition setCleanedUp (c : Closure) : Closure :=
  {| manager := manager c; toolName := toolName c; detached := detached c;
     lastEscapeTime := lastEscapeTime c; debugKeys := debugKeys c;
     cleanedUp := true; resolved := resolved c |}.

Definition setResolved (c : Closure) : Closure :=
  {| manager := manager c; toolName := toolName c; detached := detached c;
     lastEscapeTime := lastEscapeTime c; debugKeys := debugKeys c;
     cleanedUp := cleanedUp c; resolved := true |}.

(** [cleanup] (lines 1198-1217): listeners off, terminal modes restored in
    this order, raw mode left, readline set up again. *)
Definition cleanup (c : Closure) (w : World) : Closure * World :=
  if cleanedUp c then (c, w)
  else
    let c := setCleanedUp c in
    let w := setTerm (setStdinListening false (term w)) w in
    let w := setTerm (setResizeListening false (term w)) w in
    let w := stdoutWrite [ Wrote CLEAR_LINE;
                     Wrote FOCUS_REPORTING_OFF;
                     Wrote BRACKETED_PASTE_OFF;
                     Wrote KEYBOARD_RESET;
                     Wrote SHOW_CURSOR ] w in
    let w := if isTTY (term w) then setTerm (setRawMode false (term w)) w else w in
    let w := setRl true w in
    (c, w).

(** Lines 1096-1115: the captured buffer goes to the history when the
    adapter makes something of more than 20 characters of it. *)
Definition captureResponse (outputBuffer : jsstring) (w : World) : World :=
  if (0 <? length outputBuffer)%nat then
    match registry w !! activeTool w with
    | Some adapter =>
        let cleanedResponse := cleanResponse adapter outputBuffer in
        if (20 <? length cleanedResponse)%nat
        then record {| tool := activeTool w; role := assistant;
                       content := cleanedResponse |} w
        else w
    | None => w
    end
  else w.

(** [performDetach] (lines 1082-1121) *)
Definition performDetach (c : Closure) (w : World) : Closure * World :=
  if detached c then (c, w)
  else
    let c := setDetached c in
    let w := setTerm (setStdinListening false (term w)) w in
    let outputBuffer := bufferOf (manager c) w in
    let w := onManager (manager c) detach w in
    let '(c, w) := cleanup c w in
    let w := captureResponse outputBuffer w in
    let w := stdoutWrite [ Wrote CLEAR_LINE;
                     Logged (NDetached (toolName c));
                     Logged NReattachHint ] w in
    (setResolved c, w).

Definition isDetachKey (byte : N) : bool :=
  (byte =? CTRL_BRACKET) || (byte =? CTRL_BACKSLASH) ||
  (byte =? CTRL_CARET) || (byte =? CTRL_UNDERSCORE).

(** Lines 1169-1174: [data[i]] and [data[i + 1]] both escape, for some i. *)
Fixpoint hasDoubleEscape (data : list N) : bool :=
  match data with
  | a :: (b :: _) as t =>
      ((a =? ESCAPE) && (b =? ESCAPE)) || hasDoubleEscape t
  | _ => false
  end.

Definition isSingleEscape (data : list N) : bool :=
  match data with
  | [a] => a =? ESCAPE
  | _ => false
  end.

Definition debugTrace (data : Buffer) (c : Closure) (w : World) : World :=
  if debugKeys c then stdoutWrite [Logged (NDebug data)] w else w.

(** [onStdinData] (lines 1123-1192); [now] is what [Date.now()] returns
    when the chunk is handled. *)
Definition onStdinData (now : Z) (data : Buffer) (c : Closure) (w : World)
    : Closure * World :=
  let str := toString data in
  let bytes := map Byte.to_N data in
  let w := debugTrace data c w in
  if bool_decide (str = FOCUS_IN_SEQ) || bool_decide (str = FOCUS_OUT_SEQ)
  then (c, w)
  else
    let str := stripFocus id str in
    let str := stripResponses id str in
    if (length str =? 0)%nat then (c, w)
    else if existsb (fun seq => bool_decide (str = seq) || includes seq str)
              CSI_U_DETACH_SEQS
    then performDetach c w
    else if existsb isDetachKey bytes then performDetach c w
    else if (2 <=? length data)%nat && hasDoubleEscape bytes
    then performDetach c w
    else if isSingleEscape bytes then
      if (now - lastEscapeTime c <? 500)%Z then performDetach c w
      else
        let c := setLastEscapeTime now c in
        (c, onManager (manager c) (write str) w)
    else
      let c := setLastEscapeTime 0 c in
      (c, onManager (manager c) (write str) w).

(** [runInteractiveSession], up to the point where it waits for input. *)
Definition runInteractiveSession (r : nat) (tn : string) (w : World)
    : Result Closure * World :=
  if negb (from_option hasPty false (store w !! r))
  then (Throw PtyNotAvailable, w)
  else
    let w := setTerm (setResizeListening true (term w)) w in
    let w := if isTTY (term w) then setTerm (setRawMode true (term w)) w else w in
    let c := {| manager := r; toolName := tn; detached := false;
                lastEscapeTime := 0; debugKeys := debugEnv (term w);
                cleanedUp := false; resolved := false |} in
    let w := setTerm (setStdinListening true (term w)) w in
    (Ok c, w).

(** ** [enterInteractiveMode] (lines 916-954)

    The function waits twice: for [getOrCreateManager] and for the
    animation.  What it has computed before the animation is kept in
    [Pending]; subprocess output can arrive while it waits. *)

Record Pending := {
  pManager : nat;
  pToolName : string;
  isFirstLaunch : bool;
  isReattach : bool;
}.

Definition toolNameOf (w : World) : string :=
  from_option displayName (activeTool w) (registry w !! activeTool w).

Definition enterInteractiveMode_begin (spawnOk : bool) (w : World)
    : Result Pending * World :=
  let tn := toolNameOf w in
  let existingManager := ptyManagers w !! activeTool w in
  let first := from_option (fun r => deadRef r w) true existingManager in
  match getOrCreateManager (activeTool w) false spawnOk w with
  | (Throw e, w) => (Throw e, w)
  | (Ok r, w) =>
      let re := negb (attachedRef r w) && negb (deadRef r w) in
      let w := setRl false w in
      let w := stdoutWrite [Animated "Entering Interactive Mode"] w in
      (Ok {| pManager := r; pToolName := tn;
             isFirstLaunch := first; isReattach := re |}, w)
  end.

Definition enterInteractiveMode_resume (p : Pending) (w : World)
    : Result Closure * World :=
  let manager := pManager p in
  let w := stdoutWrite [Wrote NEWLINE] w in
  let w :=
    if isReattach p && (0 <? length (bufferOf manager w))%nat then
      let w := stdoutWrite [Logged (NReattaching (pToolName p))] w in
      let w := stdoutWrite [Wrote CLEAR_SCREEN] w in
      let buffer := bufferOf manager w in
      let filteredBuffer := stripFocus id buffer in
      stdoutWrite [Wrote filteredBuffer] w
    else if isFirstLaunch p then stdoutWrite [Logged (NFirstLaunch (pToolName p))] w
    else w in
  let w := stdoutWrite [Logged NDetachHint] w in
  let w := onManager manager attach w in
  runInteractiveSession manager (pToolName p) w.

(** [enterInteractiveModeWithCommand] and [enterInteractiveModeWithPrompt]
    (lines 960-1045) attach at once; the text they type into the
    subprocess later is written by timers and is left out. *)
Definition enterInteractiveModeWith (spawnOk : bool) (w : World)
    : Result Closure * World :=
  let tn := toolNameOf w in
  match getOrCreateManager (activeTool w) false spawnOk w with
  | (Throw e, w) => (Throw e, w)
  | (Ok r, w) =>
      let w := setRl false w in
      let w := stdoutWrite [Logged NSending] w in
      let w := onManager r attach w in
      runInteractiveSession r tn w
  end.

(** [cleanup] of the session (lines 1367-1376): every live manager is
    killed and the map is emptied.  [map_fold] visits the tools in the
    order of their names, the loop of the code in the order they were
    put into the map: the same managers are killed, the notices can come
    in another order. *)
Definition killAll (w : World) : World :=
  let w :=
    map_fold (fun t r w =>
                if negb (deadRef r w)
                then onManager r kill (stdoutWrite [Logged (NStopping t)] w)
                else w)
             w (ptyManagers w) in
  setManagers ∅ w.

(** ** The event loop

    One loop serves the prompt, the terminal input and the subprocesses.
    The prompt loop handles one line at a time and waits for it to finish
    ([await] in [promptLoop]); an error no handler catches ends the loop. *)

Inductive Mode :=
  | Prompt                       (* [readInput] waits for a line *)
  | Entering (p : Pending)       (* [enterInteractiveMode] waits for the animation *)
  | Interactive (c : Closure)    (* [runInteractiveSession] is not resolved *)
  | Halted.

Record System := {
  world : World;
  mode : Mode;
}.

Inductive Command :=
  | CmdSend (message : jsstring) (sent : option jsstring)
  | CmdInteractive (spawnOk : bool)        (* /i, /claude -i, /gemini -i *)
  | CmdInteractiveWith (spawnOk : bool)    (* //command, /forwardi *)
  | CmdSwitch (t : string)                 (* /claude, /gemini, the switch of /forward *)
  | CmdClear.                              (* /clear *)

Inductive Event :=
  | Line (cmd : Command)
  | AnimationDone
  | StdinData (now : Z) (data : Buffer)
  | PtyData (r : nat) (chunk : jsstring)
  | PtyExit (r : nat) (code : Z).

(** Modelled from the spec: output of a subprocess is buffered in any
    state and shown on the terminal while its manager is attached. *)
Definition ptyData (cap : nat) (r : nat) (chunk : jsstring) (w : World) : World :=
  let w := if attachedRef r w && negb (deadRef r w)
           then stdoutWrite [Echoed chunk] w else w in
  onManager r (onData cap chunk) w.

(** Modelled from the spec: on exit the manager is [DEAD] and [onExit]
    (lines 404-406) prints the notice. *)
Definition ptyExit (r : nat) (code : Z) (w : World) : World :=
  if deadRef r w then w
  else
    let t := from_option toolId ""%string (store w !! r) in
    onManager r exited (stdoutWrite [Logged (NExited t code)] w).

Definition handle (cmd : Command) (w : World) : System :=
  match cmd with
  | CmdSend message sent =>
      {| world := sendToTool message sent w; mode := Prompt |}
  | CmdInteractive spawnOk =>
      match enterInteractiveMode_begin spawnOk w with
      | (Ok p, w) => {| world := w; mode := Entering p |}
      | (Throw _, w) => {| world := w; mode := Halted |}
      end
  | CmdInteractiveWith spawnOk =>
      match enterInteractiveModeWith spawnOk w with
      | (Ok c, w) => {| world := w; mode := Interactive c |}
      | (Throw _, w) => {| world := w; mode := Halted |}
      end
  | CmdSwitch t =>
      {| world := stdoutWrite [Logged (NSwitched t)] (setActiveTool t w); mode := Prompt |}
  | CmdClear =>
      {| world := stdoutWrite [Logged NCleared] (setHistory [] (killAll w)); mode := Prompt |}
  end.

Definition step (cap : nat) (s : System) (e : Event) : System :=
  match e, mode s with
  | Line cmd, Prompt => handle cmd (world s)
  | AnimationDone, Entering p =>
      match enterInteractiveMode_resume p (world s) with
      | (Ok c, w) => {| world := w; mode := Interactive c |}
      | (Throw _, w) => {| world := w; mode := Halted |}
      end
  | StdinData now data, Interactive c =>
      let '(c, w) := onStdinData now data c (world s) in
      {| world := w; mode := if resolved c then Prompt else Interactive c |}
  | PtyData r chunk, m => {| world := ptyData cap r chunk (world s); mode := m |}
  | PtyExit r code, m => {| world := ptyExit r code (world s); mode := m |}
  | _, _ => s
  end.

Definition run (cap : nat) (s : System) (events : list Event) : System :=
  fold_left (step cap) events s.

(** The session as [start] leaves it: nothing spawned, the prompt open. *)
Definition initial (reg : gmap string Adapter) (t : string) (tty dbg : bool)
    : System :=
  {| world :=
       {| registry := reg; activeTool := t; conversationHistory := [];
          ptyManagers := ∅; store := []; requestInProgress := false;
          rl := true; launched := [];
          term := {| isTTY := tty; rawMode := false; stdinListening := false;
                     resizeListening := false; debugEnv := dbg;
                     stdout := [] |} |};
     mode := Prompt |}.

(** ** Invariants of the event loop *)

(** [manager.isUserAttached()] of the object behind [r], read from the
    store. *)
Definition attachedIn (st : list Manager) (r : nat) : bool :=
  from_option attached false (st !! r).

(** What most operations do to the managers: the registry of adapters is
    not touched, a tool enters the map only if it has an adapter, and no
    [attached] flag changes. *)
Record Frame (w w' : World) : Prop := {
  frame_registry : registry w' = registry w;
  frame_managers : ∀ t r, ptyManagers w' !! t = Some r →
                          ptyManagers w !! t = Some r ∨
                          is_Some (registry w !! t);
  frame_attached : ∀ r, attachedIn (store w') r = attachedIn (store w) r;
}.

Definition noneAttached (w : World) : Prop :=
  ∀ r, attachedRef r w = false.

Definition onlyAttached (r0 : nat) (w : World) : Prop :=
  ∀ r, attachedRef r w = true → r = r0.

(** While the prompt has control no manager is attached; during an
    interactive session only the manager of the session may be. *)
Definition Inv (reg : gmap string Adapter) (s : System) : Prop :=
  registry (world s) = reg ∧
  (∀ t r, ptyManagers (world s) !! t = Some r → is_Some (reg !! t)) ∧
  match mode s with
  | Interactive c =>
      detached c = false ∧ resolved c = false ∧
      onlyAttached (manager c) (world s)
  | _ => noneAttached (world s)
  end.

(** The adapters are those the session was started with, and every tool
    in the map of managers has one. *)
Definition Known (reg : gmap string Adapter) (w : World) : Prop :=
  registry w = reg ∧
  ∀ t r, ptyManagers w !! t = Some r → is_Some (reg !! t).

(** An operation that leaves the raw-mode flag and the kind of terminal
    alone. *)
Definition SameRaw (w w' : World) : Prop :=
  rawMode (term w') = rawMode (term w) ∧ isTTY (term w') = isTTY (term w).

(** The session's own calls have raw mode on exactly during an
    interactive session on a TTY. *)
Definition RawInv (s : System) : Prop :=
  match mode s with
  | Interactive c =>
      detached c = false ∧ resolved c = false ∧ cleanedUp c = false ∧
      rawMode (term (world s)) = isTTY (term (world s))
  | _ => rawMode (term (world s)) = false
  end.

(** ** A session for the examples *)

(** A session attached to one tool, as [/i] leaves it. *)
Definition demoAdapter : Adapter :=
  {| name := "claude"; displayName := "Claude Code"; cleanResponse := id |}.

Definition attachedSystem : System :=
  run 4096 (initial {[ "claude"%string := demoAdapter ]} "claude" true false)
    [Line (CmdInteractive true); AnimationDone].

Definition attachedWorld : World := world attachedSystem.

Definition attachedClosure : Closure :=
  match mode attachedSystem with
  | Interactive c => c
  | _ => {| manager := 0; toolName := ""; detached := true;
            lastEscapeTime := 0; debugKeys := false; cleanedUp := true;
            resolved := true |}
  end.

(** The chunk of a single escape key press. *)
Definition escapeChunk : Buffer := [Byte.x1b].

(** [a], Ctrl+] and [b] in one chunk. *)
Definition ctrlBracketChunk : Buffer := [Byte.x61; Byte.x1d; Byte.x62].

(** A device-attributes response [ESC [ ? 1 ; 2 c] between [ab] and [cd]. *)
Definition daPre : Buffer := [Byte.x61; Byte.x62].
Definition daResponse : Buffer :=
  [Byte.x1b; Byte.x5b; Byte.x3f; Byte.x31; Byte.x3b; Byte.x32; Byte.x63].
Definition daPost : Buffer := [Byte.x63; Byte.x64].

(** The session above after the subprocess has printed the alphabet, still
    attached, and after a detach that follows. *)
Definition alphabet : jsstring := lit "abcdefghijklmnopqrstuvwxyz".

Definition busySystem : System :=
  run 4096 attachedSystem [PtyData 0 alphabet].

Definition detachedSystem : System :=
  run 4096 busySystem [StdinData 0 ctrlBracketChunk].

(** ** What a detach is

    The closure is marked detached and its promise resolved, nobody
    bridges the manager any more, and nothing was written to a
    subprocess. *)
Definition Detaches (c : Closure) (w : World) (res : Closure * World) : Prop :=
  detached res.1 = true ∧ resolved res.1 = true ∧
  attachedRef (manager c) res.2 = false ∧
  ∀ r, inputOf r res.2 = inputOf r w.

(** Raw mode is left if the terminal is a TTY (it was entered only then),
    and the session no longer listens to the terminal. *)
Definition TerminalRestored (w w' : World) : Prop :=
  rawMode (term w') = (if isTTY (term w) then false else rawMode (term w)) ∧
  stdinListening (term w') = false ∧
  resizeListening (term w') = false.

(** * More of the session: the prompt, the layout, the spinner *)

(** ** The decoder on text without control characters *)

(** What the decoder has collected of an unfinished character: the code
    point it is building cannot end below U+0040. *)
Definition pendingHigh (needed : nat) (cp lower upper : N) : Prop :=
  needed = 0%nat ∨
  (upper <= 0xBF ∧ (cp ≠ 0 ∨ ((2 ≤ needed)%nat ∧ 0x90 <= lower))).


(** ** Who owns the terminal *)

(** The part of the session that decides who reads the keyboard: the
    kind of terminal, raw mode, the two listeners of the interactive
    session and the readline interface. *)
Definition control (w : World) : bool * bool * bool * bool * bool :=
  (isTTY (term w), rawMode (term w), stdinListening (term w),
   resizeListening (term w), rl w).

(** At the prompt the session's own calls have left raw mode, its
    listeners are removed and readline is open;
    while [enterInteractiveMode] waits
    readline is already closed; during an interactive session the
    listeners are installed, readline is closed and raw mode is on if the
    terminal has one. *)
Definition TermInv (tty : bool) (s : System) : Prop :=
  let w := world s in
  match mode s with
  | Prompt => control w = (tty, false, false, false, true)
  | Entering _ => control w = (tty, false, false, false, false)
  | Interactive c =>
      detached c = false ∧ resolved c = false ∧ cleanedUp c = false ∧
      control w = (tty, tty, true, true, false)
  | Halted => True
  end.

(** ** Subprocesses are not lost *)

(** Every manager whose subprocess is alive is the one the map holds for
    some tool, so that [cleanup] reaches it. *)
Definition NoLeak (w : World) : Prop :=
  ∀ r, deadRef r w = false → ∃ t, ptyManagers w !! t = Some r.

(** An operation that leaves the map alone and revives nothing. *)
Definition Keeps (w w' : World) : Prop :=
  ptyManagers w' = ptyManagers w ∧
  ∀ r, deadRef r w' = false → deadRef r w = false.

(** ** Colours and layout (lines 80-237) *)

(** [colors.reset], [colors.gray] and the six [RAINBOW_COLORS]. *)
Definition RESET : jsstring := Eval vm_compute in ESC :: lit "[0m".
Definition GRAY : jsstring := Eval vm_compute in ESC :: lit "[90m".
Definition RAINBOW_COLORS : list jsstring := Eval vm_compute in
  [ ESC :: lit "[91m";    (* bright red *)
    ESC :: lit "[93m";    (* bright yellow *)
    ESC :: lit "[92m";    (* bright green *)
    ESC :: lit "[96m";    (* bright cyan *)
    ESC :: lit "[94m";    (* bright blue *)
    ESC :: lit "[95m" ].  (* bright magenta *)

(** What a string concatenation makes of [undefined]. *)
Definition UNDEFINED : jsstring := Eval vm_compute in lit "undefined".

(** [RAINBOW_COLORS[colorIndex]]; an index outside the array reads
    [undefined]. *)
Definition rainbowColor (colorIndex : Z) : jsstring :=
  if (colorIndex <? 0)%Z then UNDEFINED
  else nth (Z.to_nat colorIndex) RAINBOW_COLORS UNDEFINED.

(** The loop of [rainbowText] from index [i] on; [%] is the remainder
    that takes the sign of the dividend. *)
Fixpoint rainbowFrom (i offset : Z) (text : jsstring) : jsstring :=
  match text with
  | [] => []
  | x :: t =>
      rainbowColor (Z.rem (i + offset) (Z.of_nat (length RAINBOW_COLORS)))
        ++ x :: rainbowFrom (i + 1) offset t
  end.

(** [rainbowText] (lines 123-130); [offset] is an integer, as at every
    call, and [i + offset] is exact here, as it is in the code below
    2^53. *)
Definition rainbowText (text : jsstring) (offset : Z) : jsstring :=
  rainbowFrom 0 offset text ++ RESET.

(** [/\x1b\[[0-9;]*m/]: a colour or style sequence. *)
Definition reSgr {A} (ch : A → N) : list A → option nat :=
  matchCsi ch CSI (isChar 0x6d).

Definition stripSgr (str : jsstring) : jsstring :=
  removeAll (reSgr id) 0 str.

(** [stripAnsiLength] (lines 231-233) *)
Definition stripAnsiLength (str : jsstring) : nat :=
  length (stripSgr str).

(** [colorize] (lines 235-237) *)
Definition colorize (text color : jsstring) : jsstring :=
  color ++ text ++ RESET.

(** [process.stdout.columns || 80] (lines 159-161); [columns] is
    [undefined] when the output is not a terminal. *)
Definition getTerminalWidth (columns : option Z) : Z :=
  match columns with
  | Some c => if (c =? 0)%Z then 80 else c
  | None => 80
  end.

(** [str.repeat(count)]; a negative count throws a [RangeError]. *)
Definition strRepeat (str : jsstring) (count : Z) : option jsstring :=
  if (count <? 0)%Z then None
  else Some (concat (replicate (Z.to_nat count) str)).

(** [fullWidthLine] (lines 164-167) *)
Definition fullWidthLine (char color : jsstring) (columns : option Z)
    : option jsstring :=
  line ← strRepeat char (getTerminalWidth columns);
  Some (color ++ line ++ RESET).

(** [array.join(sep)] on strings *)
Fixpoint join (sep : jsstring) (l : list jsstring) : jsstring :=
  match l with
  | [] => []
  | x :: t =>
      match t with
      | [] => x
      | _ :: _ => x ++ sep ++ join sep t
      end
  end.

Definition SPACE : N := 0x20.

(** One line of the box: the content between two bars, padded with
    blanks to the inner width. *)
Definition boxLine (width : Z) (line : jsstring) : jsstring :=
  let padding := (width - 4 - Z.of_nat (stripAnsiLength line))%Z in
  GRAY ++ [0x2502] ++ RESET ++ [SPACE] ++ line ++
  replicate (Z.to_nat (Z.max 0 padding)) SPACE ++ [SPACE] ++
  GRAY ++ [0x2502] ++ RESET.

(** The lines [drawBox] joins: the top, one line for each element of
    [content], the bottom. *)
Definition drawBoxLines (content : list jsstring) (width : Z)
    : option (list jsstring) :=
  bar ← strRepeat [0x2500] (width - 2);
  let top := GRAY ++ [0x256d] ++ bar ++ [0x256e] ++ RESET in
  let bottom := GRAY ++ [0x2570] ++ bar ++ [0x256f] ++ RESET in
  Some ([top] ++ map (boxLine width) content ++ [bottom]).

(** [drawBox] (lines 221-229) *)
Definition drawBox (content : list jsstring) (width : Z) : option jsstring :=
  join NEWLINE <$> drawBoxLines content width.

(** A colour or style sequence: [ESC [], parameters, [m]. *)
Definition isSgr (color : jsstring) : Prop :=
  ∃ ps, forallb isParam ps = true ∧ color = CSI ++ ps ++ [0x6d].

(** A character that ends an unfinished sequence: not [[], not a
    parameter, not [m]. *)
Definition breaks (c : N) : Prop :=
  c ≠ 0x5b ∧ isParam c = false ∧ c ≠ 0x6d.

(** ** The spinner (lines 239-342) *)

Module Spinner.

(** The fields of the class; [intervalId] tells whether the interval is
    set.  The message is part of the wording and is left out. *)
Record t := {
  frameIndex : nat;
  startTime : Z;
  warningShown : bool;
  lastWarningTime : Z;
  statusLine : jsstring;
  hasStatusLine : bool;
  intervalId : bool;
}.

Definition SPINNER_FRAMES : nat := 10.      (* SPINNER_FRAMES.length *)
Definition WARNING_THRESHOLD_MS : Z := 60000.
Definition WARNING_REPEAT_MS : Z := 30000.

(** What the spinner puts on the screen. *)
Inductive Shown :=
  | SFrame (frame : nat) (elapsedSec : Z)   (* the spinner line *)
  | SStatus (text : jsstring)               (* the status line below it *)
  | SWarning (elapsedSec : Z)               (* showTimeoutWarning *)
  | SCleared (statusToo : bool).            (* stop *)

(** [str.slice(0, end)]; a negative [end] counts from the end. *)
Definition sliceTo (str : jsstring) (e : Z) : jsstring :=
  let len := Z.of_nat (length str) in
  let to := if (e <? 0)%Z then Z.max (len + e) 0 else Z.min e len in
  take (Z.to_nat to) str.

(** Lines 281-284 *)
Definition truncatedStatus (statusLine : jsstring) (termWidth : Z)
    : jsstring :=
  if (termWidth - 5 <? Z.of_nat (length statusLine))%Z
  then sliceTo statusLine (termWidth - 8) ++ lit "..."
  else statusLine.

(** [start] (lines 255-300), up to the first run of the interval. *)
Definition start (now : Z) (sp : t) : t * list Shown :=
  ({| frameIndex := 0; startTime := now; warningShown := false;
      lastWarningTime := 0; statusLine := []; hasStatusLine := false;
      intervalId := true |},
   [SFrame 0 0]).

(** The callback of the interval (lines 267-299); [now] is what
    [Date.now()] returns, [columns] is [process.stdout.columns]. *)
Definition tick (now : Z) (columns : option Z) (sp : t) : t * list Shown :=
  let frameIndex := ((frameIndex sp + 1) mod SPINNER_FRAMES)%nat in
  let elapsed := (now - startTime sp)%Z in
  let elapsedSec := (elapsed / 1000)%Z in
  let out := [SFrame frameIndex elapsedSec] in
  let '(out, hasStatusLine) :=
    if (0 <? length (statusLine sp))%nat
    then (out ++ [SStatus (truncatedStatus (statusLine sp)
                             (getTerminalWidth columns))], true)
    else (out, hasStatusLine sp) in
  let '(out, warningShown, lastWarningTime) :=
    if (WARNING_THRESHOLD_MS <=? elapsed)%Z &&
       (negb (warningShown sp) ||
        (WARNING_REPEAT_MS <=? elapsed - lastWarningTime sp)%Z)
    then (out ++ [SWarning elapsedSec], true, elapsed)
    else (out, warningShown sp, lastWarningTime sp) in
  ({| frameIndex := frameIndex; startTime := startTime sp;
      warningShown := warningShown; lastWarningTime := lastWarningTime;
      statusLine := statusLine sp; hasStatusLine := hasStatusLine;
      intervalId := intervalId sp |},
   out).

(** [stop] (lines 326-337) *)
Definition stop (sp : t) : t * list Shown :=
  if intervalId sp
  then ({| frameIndex := frameIndex sp; startTime := startTime sp;
           warningShown := warningShown sp;
           lastWarningTime := lastWarningTime sp;
           statusLine := statusLine sp; hasStatusLine := hasStatusLine sp;
           intervalId := false |},
        [SCleared (hasStatusLine sp)])
  else (sp, []).

(** What happens to a spinner between [start] and [stop]: the interval
    fires, or [setStatus] stores a new status line ([line] is the line it
    has made of the output with [stripAnsi] of [utils.js]). *)
Inductive Signal :=
  | Tick (now : Z) (columns : option Z)
  | NewStatus (line : jsstring).

Definition react (e : Signal) (sp : t) : t * list Shown :=
  match e with
  | Tick now columns => tick now columns sp
  | NewStatus line =>
      ({| frameIndex := frameIndex sp; startTime := startTime sp;
          warningShown := warningShown sp;
          lastWarningTime := lastWarningTime sp;
          statusLine := line; hasStatusLine := hasStatusLine sp;
          intervalId := intervalId sp |}, [])
  end.

Fixpoint shows (events : list Signal) (sp : t) : list Shown :=
  match events with
  | [] => []
  | e :: events => let '(sp, out) := react e sp in out ++ shows events sp
  end.

(** The seconds the warnings on the screen show, and the frames. *)
Definition warningOf (s : Shown) : option Z :=
  match s with SWarning sec => Some sec | _ => None end.

Definition frameOf (s : Shown) : option nat :=
  match s with SFrame f _ => Some f | _ => None end.

(** Each number is at least [gap] above the one before it. *)
Fixpoint spaced (gap : Z) (l : list Z) : Prop :=
  match l with
  | a :: t =>
      match t with
      | b :: _ => (a + gap ≤ b)%Z ∧ spaced gap t
      | [] => True
      end
  | [] => True
  end.

End Spinner.

(** ** Tab completion (lines 570-582) *)

Definition SLASH : N := 0x2f.

(** [commands] of line 571 *)
Definition COMMANDS : list jsstring := Eval vm_compute in
  lit <$> [ "/claude"; "/gemini"; "/i"; "/forward"; "/fwd"; "/forwardi";
            "/fwdi"; "/history"; "/status"; "/default"; "/help"; "/clear";
            "/quit"; "/cya" ]%string.

(** [completer]: the candidates and the line they are for. *)
Definition completer (line : jsstring) : list jsstring * jsstring :=
  if startsWith id [SLASH] line then
    let hits := List.filter (fun c => startsWith id line c) COMMANDS in
    (if (0 <? length hits)%nat then hits else COMMANDS, line)
  else ([], line).

(** ** Reading a line (lines 658-696) *)

(** White space and line terminators, as [trim] and [\s] take them. *)
Definition isWhiteSpace (c : N) : bool :=
  ((0x09 <=? c) && (c <=? 0x0d)) || (c =? 0x20) || (c =? 0xa0) ||
  (c =? 0x1680) || ((0x2000 <=? c) && (c <=? 0x200a)) ||
  (c =? 0x2028) || (c =? 0x2029) || (c =? 0x202f) || (c =? 0x205f) ||
  (c =? 0x3000) || (c =? 0xfeff).

Fixpoint trimStart (s : jsstring) : jsstring :=
  match s with
  | [] => []
  | x :: t => if isWhiteSpace x then trimStart t else s
  end.

(** [str.trim()] *)
Definition trim (s : jsstring) : jsstring :=
  reverse (trimStart (reverse (trimStart s))).

(** A focus report as a terminal echoes it: a caret, two brackets and
    the letter. *)
Definition CARET_FOCUS_IN : jsstring := Eval vm_compute in lit "^[[I".
Definition CARET_FOCUS_OUT : jsstring := Eval vm_compute in lit "^[[O".

Definition isLetter (c : N) : bool :=
  ((0x41 <=? c) && (c <=? 0x5a)) || ((0x61 <=? c) && (c <=? 0x7a)).

Definition isDigit (c : N) : bool := (0x30 <=? c) && (c <=? 0x39).

(** [/\x1b\[[\d;]*[a-zA-Z]/] *)
Definition reCsiLetter {A} (ch : A → N) : list A → option nat :=
  matchCsi ch CSI isLetter.

(** [[\d;]+c$]: parameters, at least one, and a [c] that ends the
    string. *)
Fixpoint paramsC (s : jsstring) : bool :=
  match s with
  | [] => false
  | x :: t =>
      isParam x &&
      match t with
      | [] => false
      | y :: t' =>
          match t' with
          | [] => y =? 0x63
          | _ :: _ => paramsC t
          end
      end
  end.

(** [.replace(/;[\d;]+c$/, '')]: the string is cut at the first
    semicolon from which it goes on with parameters and a last [c]. *)
Fixpoint stripDaSuffix (s : jsstring) : jsstring :=
  match s with
  | [] => []
  | x :: t => if (x =? 0x3b) && paramsC t then [] else x :: stripDaSuffix t
  end.

(** [\d*u[\d;]+c$] *)
Fixpoint digitsUParamsC (s : jsstring) : bool :=
  match s with
  | [] => false
  | x :: t => if x =? 0x75 then paramsC t else isDigit x && digitsUParamsC t
  end.

(** [/^\d*u?[\d;]+c$/]: without the [u] the digits are parameters too. *)
Definition isResponseTail (s : jsstring) : bool :=
  paramsC s || digitsUParamsC s.

(** The cleaning of [lineHandler] (lines 666-681) *)
Definition cleanLine (line : jsstring) : jsstring :=
  let cleaned := removeAll (matchLiteral id FOCUS_IN_SEQ) 0 line in
  let cleaned := removeAll (matchLiteral id FOCUS_OUT_SEQ) 0 cleaned in
  let cleaned := removeAll (matchLiteral id CARET_FOCUS_IN) 0 cleaned in
  let cleaned := removeAll (matchLiteral id CARET_FOCUS_OUT) 0 cleaned in
  let cleaned := removeAll (reCsiLetter id) 0 cleaned in
  let cleaned := stripDaSuffix cleaned in
  let cleaned := if isResponseTail cleaned then [] else cleaned in
  trim cleaned.

(** [lineHandler]: the input it resolves [readInput] with, or [None]
    when it shows the prompt again and goes on waiting. *)
Definition lineHandler (line : jsstring) : option jsstring :=
  let cleaned := cleanLine line in
  if (0 <? length line)%nat && (length cleaned =? 0)%nat
  then None else Some cleaned.

(** A matcher all of whose matches begin with [h]. *)
Definition headedBy (h : N) (m : jsstring → option nat) : Prop :=
  ∀ s n, m s = Some n → ∃ t, s = h :: t.

(** What a terminal leaves in a line on its own account: blanks, control
    sequences that end in a letter (the focus reports are two of them)
    and echoed focus reports. *)
Inductive Token :=
  | TBlank (c : N)
  | TCsi (ps : list N) (final : N)
  | TCaretIn
  | TCaretOut.

Definition tokenOk (k : Token) : Prop :=
  match k with
  | TBlank c => isWhiteSpace c = true
  | TCsi ps final => forallb isParam ps = true ∧ isLetter final = true
  | _ => True
  end.

Definition render (k : Token) : jsstring :=
  match k with
  | TBlank c => [c]
  | TCsi ps final => CSI ++ ps ++ [final]
  | TCaretIn => CARET_FOCUS_IN
  | TCaretOut => CARET_FOCUS_OUT
  end.

Definition isBlank (k : Token) : bool :=
  match k with TBlank _ => true | _ => false end.

(** The tokens each of the five expressions deletes. *)
Definition isFocusIn (k : Token) : bool :=
  match k with TCsi [] f => f =? 0x49 | _ => false end.
Definition isFocusOut (k : Token) : bool :=
  match k with TCsi [] f => f =? 0x4f | _ => false end.
Definition isCaretIn (k : Token) : bool :=
  match k with TCaretIn => true | _ => false end.
Definition isCaretOut (k : Token) : bool :=
  match k with TCaretOut => true | _ => false end.
Definition isCsi (k : Token) : bool :=
  match k with TCsi _ _ => true | _ => false end.

Definition renderAll (ks : list Token) : jsstring :=
  concat (render <$> ks).

(** ** Forwarding a response (lines 179-203 and 1262-1335) *)

Definition DIM : jsstring := Eval vm_compute in ESC :: lit "[2m".
Definition GREEN : jsstring := Eval vm_compute in ESC :: lit "[32m".
Definition YELLOW : jsstring := Eval vm_compute in ESC :: lit "[33m".
Definition WHITE : jsstring := Eval vm_compute in ESC :: lit "[37m".
Definition BRIGHT_GREEN : jsstring := Eval vm_compute in ESC :: lit "[92m".
Definition BRIGHT_CYAN : jsstring := Eval vm_compute in ESC :: lit "[96m".
Definition BRIGHT_MAGENTA : jsstring := Eval vm_compute in ESC :: lit "[95m".

Record ToolConfig := {
  tcName : string;
  tcDisplayName : string;
  tcColor : jsstring;
}.

Definition AVAILABLE_TOOLS : list ToolConfig :=
  [ {| tcName := "claude"; tcDisplayName := "Claude Code";
       tcColor := BRIGHT_CYAN |};
    {| tcName := "gemini"; tcDisplayName := "Gemini CLI";
       tcColor := BRIGHT_MAGENTA |} ].

Definition getToolConfig (name : string) : option ToolConfig :=
  List.find (fun t => bool_decide (tcName t = name)) AVAILABLE_TOOLS.

(** [getToolConfig(name)?.color || colors.white]; no colour of the table
    is empty. *)
Definition getToolColor (name : string) : jsstring :=
  from_option tcColor WHITE (getToolConfig name).

(** [getToolConfig(name)?.displayName || name] *)
Definition getToolDisplayName (name : string) : string :=
  from_option tcDisplayName name (getToolConfig name).

(** [console.log(text)] with one argument: the text and a newline. *)
Definition consoleLog (text : jsstring) (w : World) : World :=
  stdoutWrite [Wrote (text ++ NEWLINE)] w.

(** [str.toLowerCase()] on the letters A to Z.  Other characters are left
    as they are: the result is only compared with the names of the tools
    and of the commands, and the one letter a character outside ASCII
    turns into (the Kelvin sign, into [k]) is in none of them. *)
Definition toLowerCase (s : jsstring) : jsstring :=
  (fun c => if (0x41 <=? c) && (c <=? 0x5a) then c + 0x20 else c) <$> s.

(** [str.split(/\s+/)]: the pieces between the runs of white space; a run
    at an end of the string leaves an empty piece there.  [cur] is the
    piece being read, [inRun] tells whether a run was just read. *)
Fixpoint splitWs (cur : jsstring) (inRun : bool) (s : jsstring)
    : list jsstring :=
  match s with
  | [] => [cur]
  | x :: t =>
      if isWhiteSpace x
      then (if inRun then splitWs [] true t else cur :: splitWs [] true t)
      else splitWs (cur ++ [x]) false t
  end.

(** [argsString.trim().split(/\s+/).filter(p => p)] *)
Definition words (argsString : jsstring) : list jsstring :=
  List.filter (fun p => (0 <? length p)%nat) (splitWs [] false (trim argsString)).

(** [[...history].reverse().find(m => m.role === 'assistant')] *)
Definition lastAssistant (h : list Message) : option Message :=
  List.find (fun m => match role m with assistant => true | user => false end)
    (rev h).

(** The prompt for the target tool (lines 1320-1324). *)
Definition forwardPrompt (sourceDisplayName : string) (content : jsstring)
    (additionalMessage : jsstring) : jsstring :=
  lit "Another AI assistant (" ++ lit sourceDisplayName ++
  lit ") provided this response. Please review and share your thoughts:" ++
  [0x0a; 0x0a] ++ lit "---" ++ [0x0a] ++ content ++ [0x0a] ++ lit "---" ++
  (if (0 <? length (trim additionalMessage))%nat
   then [0x0a; 0x0a] ++ lit "Additional context: " ++ trim additionalMessage
   else []).

Definition RULE : jsstring := replicate 50 0x2501.

(** Lines 1274-1298: the target and the message that goes with the
    response; [None] when the user has to name the target. *)
Definition forwardTarget (sourceTool : string) (argsString : jsstring)
    : option (string * jsstring) :=
  let otherTools :=
    List.filter (fun t => negb (bool_decide (t = sourceTool)))
      (tcName <$> AVAILABLE_TOOLS) in
  let parts := words argsString in
  let named :=
    match parts with
    | p :: rest =>
        (fun t => (t, join [SPACE] rest)) <$>
          List.find (fun t => bool_decide (lit t = toLowerCase p)) otherTools
    | [] => None
    end in
  match named with
  | Some r => Some r
  | None =>
      match otherTools with
      | [t] => Some (t, argsString)
      | _ => None
      end
  end.

(** [handleForward] (lines 1262-1335); [spawnOk] and [sent] are what the
    launch of a subprocess and [adapter.send] come to, if they are
    called. *)
Definition handleForward (argsString : jsstring) (interactive : bool)
    (spawnOk : bool) (sent : option jsstring) (w : World) : System :=
  match lastAssistant (conversationHistory w) with
  | None =>
      {| world := consoleLog (lit "No response to forward yet.") w;
         mode := Prompt |}
  | Some lastResponse =>
      let sourceTool := tool lastResponse in
      let otherTools :=
        List.filter (fun t => negb (bool_decide (t = sourceTool)))
          (tcName <$> AVAILABLE_TOOLS) in
      match forwardTarget sourceTool argsString with
      | None =>
          let w := consoleLog (YELLOW ++ lit "Multiple tools available." ++
                               RESET ++ lit " Please specify target:") w in
          let w := consoleLog (lit "  " ++ BRIGHT_GREEN ++ lit "/forward" ++
                               RESET ++ lit " <" ++
                               join (lit "|") (lit <$> otherTools) ++
                               lit "> [message]") w in
          {| world := w; mode := Prompt |}
      | Some (targetTool, additionalMessage) =>
          if bool_decide (targetTool = sourceTool) then
            {| world := consoleLog (lit "Cannot forward to the same tool (" ++
                                    lit sourceTool ++ lit ").") w;
               mode := Prompt |}
          else
            let w := setActiveTool targetTool w in
            let sourceDisplayName := getToolDisplayName sourceTool in
            let targetDisplayName := getToolDisplayName targetTool in
            let sourceColor := getToolColor sourceTool in
            let targetColor := getToolColor targetTool in
            let w := consoleLog [] w in
            let w := consoleLog (DIM ++ RULE ++ RESET) w in
            let w := consoleLog
                       (GREEN ++ [0x2197] ++ RESET ++ lit " Forwarding from " ++
                        sourceColor ++ lit sourceDisplayName ++ RESET ++
                        [SPACE; 0x2192; SPACE] ++
                        targetColor ++ lit targetDisplayName ++ RESET ++
                        (if interactive
                         then [SPACE] ++ DIM ++ lit "(interactive)" ++ RESET
                         else [])) w in
            let w := consoleLog (DIM ++ RULE ++ RESET) w in
            let prompt :=
              forwardPrompt sourceDisplayName (content lastResponse)
                additionalMessage in
            let w := consoleLog (targetColor ++ lit targetDisplayName ++
                                 lit " responds:" ++ RESET) w in
            if interactive then
              match enterInteractiveModeWith spawnOk w with
              | (Ok c, w) => {| world := w; mode := Interactive c |}
              | (Throw _, w) => {| world := w; mode := Halted |}
              end
            else {| world := sendToTool prompt sent w; mode := Prompt |}
      end
  end.

(** The other of the two tools. *)
Definition otherTool (t : string) : string :=
  if bool_decide (t = "claude"%string) then "gemini"%string
  else "claude"%string.

(** ** The commands of the prompt (lines 698-796) *)

(** What a line that begins with a slash asks for.  An unknown command
    is answered with a hint; the text of the hint is left out. *)
Inductive Meta :=
  | MQuit
  | MSwitch (t : string) (interactive : bool)
  | MForward (argsString : jsstring) (interactive : bool)
  | MInteractive
  | MHistory
  | MStatus
  | MClear
  | MDefault (toolArg : option jsstring)
  | MHelp
  | MUnknown.

Definition FLAG_I : jsstring := Eval vm_compute in lit "-i".

Definition isFlagI (a : jsstring) : bool := bool_decide (a = FLAG_I).

(** The [switch] of [handleMetaCommand]: [parts] is [cmd.split(/\s+/)],
    which has a first element for every [cmd]. *)
Definition metaCommand (cmd : jsstring) : Meta :=
  let parts := splitWs [] false cmd in
  let command := toLowerCase (hd [] parts) in
  let args := tail parts in
  let named (names : list string) :=
    existsb (fun n => bool_decide (command = lit n)) names in
  if named ["quit"; "exit"; "cya"]%string then MQuit
  else if named ["claude"]%string then MSwitch "claude" (existsb isFlagI args)
  else if named ["gemini"]%string then MSwitch "gemini" (existsb isFlagI args)
  else if named ["forward"; "fwd"]%string then
    MForward (join [SPACE] (List.filter (fun a => negb (isFlagI a)) args))
             (existsb isFlagI args)
  else if named ["forwardi"; "fwdi"]%string then
    MForward (join [SPACE] args) true
  else if named ["interactive"; "shell"; "i"]%string then MInteractive
  else if named ["history"]%string then MHistory
  else if named ["status"]%string then MStatus
  else if named ["clear"]%string then MClear
  else if named ["default"]%string then
    MDefault (match args with
              | a :: _ => if (0 <? length a)%nat then Some a else None
              | [] => None
              end)
  else if named ["help"; "?"]%string then MHelp
  else MUnknown.

(** A word: not empty, and without white space. *)
Definition isWord (p : jsstring) : Prop :=
  p ≠ [] ∧ Forall (fun c => isWhiteSpace c = false) p.

(** ** The map of managers *)

(** Every reference of the map points into the store, and no two tools
    share a manager. *)
Definition WellKept (w : World) : Prop :=
  (∀ t r, ptyManagers w !! t = Some r → (r < length (store w))%nat) ∧
  (∀ t1 t2 r, ptyManagers w !! t1 = Some r → ptyManagers w !! t2 = Some r →
              t1 = t2).

(** An operation that leaves the map and the size of the store alone. *)
Definition SameShape (w w' : World) : Prop :=
  ptyManagers w' = ptyManagers w ∧ length (store w') = length (store w).

(** ** More examples *)

Definition geminiAdapter : Adapter :=
  {| name := "gemini"; displayName := "Gemini CLI"; cleanResponse := id |}.

Definition bothAdapters : gmap string Adapter :=
  {[ "claude"%string := demoAdapter; "gemini"%string := geminiAdapter ]}.

(** The chunk of the keys [h] and [i]. *)
Definition hiChunk : Buffer := [Byte.x68; Byte.x69].

Definition greeting : jsstring := Eval vm_compute in lit "hello".
Definition answer : jsstring := Eval vm_compute in lit "hi there".

(** A session in which claude has answered a message. *)
Definition answeredWorld : World :=
  world (run 4096 (initial bothAdapters "claude" true false)
           [Line (CmdSend greeting (Some answer))]).

Definition answeredMessage : Message :=
  {| tool := "claude"; role := assistant; content := answer |}.

(** Claude is started and detached, then gemini is made active. *)
Definition switchedEvents : list Event :=
  [ Line (CmdInteractive true); AnimationDone;
    StdinData 0 ctrlBracketChunk; Line (CmdSwitch "gemini") ].

(** A line as it is typed, a command, the parameters left of a response,
    and a line of noise: a focus report, a blank, an echoed report and a
    cursor position report. *)
Definition typedLine : jsstring := Eval vm_compute in lit "  fix the tests  ".
Definition cyaCommand : jsstring := Eval vm_compute in lit "/cya".
Definition daParams : jsstring := Eval vm_compute in lit "1;2;52".
Definition noiseLine : list Token :=
  [ TCsi [] 0x49; TBlank 0x20; TCaretOut; TCsi [0x31; 0x3b; 0x35] 0x52 ].

Definition doubleBar : jsstring := [0x2550].
Definition statusText : jsstring :=
  Eval vm_compute in lit "Reading the files of the project".
Definition forwardCommand : jsstring :=
  Eval vm_compute in lit "forward -i gemini please check".

(** ** The manager of the session *)

(** An operation that changes neither the active tool, nor the map of
    managers, nor the list of the launches. *)
Definition SameTools (w w' : World) : Prop :=
  activeTool w' = activeTool w ∧ ptyManagers w' = ptyManagers w ∧
  launched w' = launched w.

(** An operation on the managers that leaves alone what the session reads
    of them between two interactive sessions: whether they are dead or
    attached, and what was written to them. *)
Definition SameManagers (w w' : World) : Prop :=
  ∀ r, deadRef r w' = deadRef r w ∧ attachedRef r w' = attachedRef r w ∧
       inputOf r w' = inputOf r w.

(** The manager an interactive session bridges, or is about to bridge, is
    the one the map holds for the active tool. *)
Definition Held (s : System) : Prop :=
  match mode s with
  | Interactive c =>
      ptyManagers (world s) !! activeTool (world s) = Some (manager c)
  | Entering p =>
      ptyManagers (world s) !! activeTool (world s) = Some (pManager p)
  | _ => True
  end.

(** What the subprocesses print, as events of the loop. *)
Definition printed (outs : list (nat * jsstring)) : list Event :=
  map (fun o => PtyData o.1 o.2) outs.

(** ** The buffer, cut at its escapes *)

(** What a subprocess has printed, cut at the escape characters: text
    without an escape, the two focus reports, and any other escape
    sequence, the escape with what follows it up to the next escape. *)
Inductive Piece :=
  | PText (s : jsstring)
  | PFocusIn
  | PFocusOut
  | PEscape (body : jsstring).

Definition pieceText (p : Piece) : jsstring :=
  match p with
  | PText s => s
  | PFocusIn => FOCUS_IN_SEQ
  | PFocusOut => FOCUS_OUT_SEQ
  | PEscape body => ESC :: body
  end.

Definition piecesText (ps : list Piece) : jsstring :=
  concat (pieceText <$> ps).

(** Text holds no escape.  An escape sequence that is no focus report is
    not cut short: its escape is followed by a character other than [[],
    or by [[] and a character other than [I] and [O]. *)
Definition pieceOk (p : Piece) : Prop :=
  match p with
  | PText s => ESC ∉ s
  | PEscape body =>
      (ESC ∉ body) ∧
      ∃ c rest, body = c :: rest ∧
                (c ≠ 0x5b ∨
                 ∃ d rest', rest = d :: rest' ∧ d ≠ 0x49 ∧ d ≠ 0x4f)
  | PFocusIn | PFocusOut => True
  end.

Definition isPFocusIn (p : Piece) : bool :=
  match p with PFocusIn => true | _ => false end.

Definition isPFocusOut (p : Piece) : bool :=
  match p with PFocusOut => true | _ => false end.

Definition isFocusPiece (p : Piece) : bool := isPFocusIn p || isPFocusOut p.

(** Coloured output with a focus report at either end. *)
Definition colouredPieces : list Piece :=
  [ PFocusIn; PText (lit "he"); PEscape (lit "[31m"); PText (lit "llo");
    PFocusOut ].

(** ** More chunks and sessions for the examples *)

(** An escape key press and a focus-in report in one chunk. *)
Definition escapeThenFocusIn : Buffer :=
  [Byte.x1b; Byte.x1b; Byte.x5b; Byte.x49].

(** Chunks of terminal input, each with the time it is handled at, as
    events of the loop. *)
Definition stdinEvents (chunks : list (Z * Buffer)) : list Event :=
  map (fun chunk => StdinData chunk.1 chunk.2) chunks.

(** The chunk of the key [x]. *)
Definition xChunk : Buffer := [Byte.x78].

(** A focus-out report as a chunk of its own. *)
Definition focusOutChunk : Buffer := [Byte.x1b; Byte.x5b; Byte.x4f].



(** A session at the prompt whose history is full: two old messages and
    998 more, a thousand in all. *)
Definition oldestMessage : Message :=
  {| tool := "claude"; role := user; content := lit "first" |}.

Definition secondMessage : Message :=
  {| tool := "claude"; role := assistant; content := lit "second" |}.

Definition laterMessage : Message :=
  {| tool := "claude"; role := user; content := lit "later" |}.

Definition fullWorld : World :=
  setHistory (oldestMessage :: secondMessage :: replicate 998 laterMessage)
    (world (initial {[ "claude"%string := demoAdapter ]} "claude" true false)).

(** * Proofs *)

(** ** The decoder on ASCII bytes *)

Section DecodeAscii.

Lemma decode_idle cp lo up bs :
  decode 0 cp lo up bs = decode 0 0 0x80 0xBF bs.
Proof. by destruct bs. Qed.

(** An ASCII byte ends whatever sequence was open and decodes to
    itself. *)
Lemma decode_ascii_split pre : ∀ n cp lo up a rest,
  a <= 0x7F → (n = 0%nat ∨ 0x80 <= lo) →
  decode n cp lo up (pre ++ a :: rest)
  = decode n cp lo up pre ++ a :: decode 0 0 0x80 0xBF rest.
Proof.
  induction pre as [|b pre IH]; intros n cp lo up a rest Ha Hn.
  - cbn [app decode].
    assert (Hle : (a <=? 0x7F) = true) by (apply N.leb_le; lia).
    rewrite Hle. destruct n as [|k]; [done|].
    destruct Hn as [Hn|Hn]; [done|].
    replace (lo <=? a) with false by (symmetry; apply N.leb_gt; lia).
    done.
  - cbn [app decode].
    assert (Hlead : ∀ k c l u, (k = 0%nat ∨ 0x80 <= l) →
              decode k c l u (pre ++ a :: rest)
              = decode k c l u pre ++ a :: decode 0 0 0x80 0xBF rest)
      by (intros; by apply IH).
    rewrite !Hlead by
      (first [ by left | right; repeat case_match; lia ]).
    repeat case_match; try done; rewrite <- ?app_assoc; try done.
    apply Hlead; right; lia.
Qed.

Lemma decode_ascii_run s : ∀ cp lo up post,
  Forall (λ a, a <= 0x7F) s →
  decode 0 cp lo up (s ++ post) = s ++ decode 0 0 0x80 0xBF post.
Proof.
  induction s as [|a s IH]; intros cp lo up post Hs.
  - apply decode_idle.
  - inversion_clear Hs as [|? ? Ha Hs'].
    cbn [app decode]. replace (a <=? 0x7F) with true
      by (symmetry; apply N.leb_le; lia).
    by rewrite IH.
Qed.

(** Text of ASCII bytes keeps its place in the decoded string. *)
Lemma toString_ascii_middle (pre seq post : Buffer) :
  seq ≠ [] →
  Forall (λ b, Byte.to_N b <= 0x7F) seq →
  toString (pre ++ seq ++ post)
  = toString pre ++ map Byte.to_N seq ++ toString post.
Proof.
  intros Hne Hs. destruct seq as [|b seq]; [done|].
  inversion_clear Hs as [|? ? Hb Hs'].
  unfold toString. rewrite !map_app. cbn [map app].
  rewrite decode_ascii_split by (first [done | by left]).
  f_equal. f_equal. rewrite decode_ascii_run; [done|].
  by apply Forall_fmap.
Qed.

End DecodeAscii.

(** ** Scanning facts *)

Section ScanFacts.
Context {A : Type} (ch : A → N).
Implicit Types (m : list A → option nat) (s t : list A).

Lemma removeAll_skip m s : ∀ k,
  removeAll m k s = removeAll m 0 (drop k s).
Proof.
  induction s as [|x t IH]; intros [|k]; try done.
  cbn [removeAll drop]. apply IH.
Qed.

Lemma removeAll_Forall (P : A → Prop) m s : ∀ k,
  Forall P s → Forall P (removeAll m k s).
Proof.
  induction s as [|x t IH]; intros k Hs; [done|].
  inversion_clear Hs. cbn [removeAll].
  destruct k; [|by apply IH].
  destruct (m (x :: t)) as [[|n]|]; try (constructor; [done|]); by apply IH.
Qed.

Section Headed.
Context (m : list A → option nat) (Hm : escapeHeaded ch m).

(** A match that starts before an escape ends before it. *)
Lemma removeAll_before_escape (P : A → Prop) e rest pre : ∀ k,
  ch e = ESC → (k ≤ length pre)%nat → Forall P pre →
  ∃ X, Forall P X ∧
       removeAll m k (pre ++ e :: rest) = X ++ removeAll m 0 (e :: rest).
Proof.
  induction pre as [|x t IH]; intros k He Hk Hpre.
  - exists []. split; [done|]. cbn in Hk. by replace k with 0%nat by lia.
  - inversion_clear Hpre as [|? ? Hx Ht]. cbn [app removeAll].
    destruct k as [|k].
    + destruct (m (x :: t ++ e :: rest)) as [[|n]|] eqn:Hmatch.
      * destruct (IH 0%nat) as (X & HX & ->); [done|lia|done|].
        exists (x :: X). split; [by constructor|done].
      * destruct (Hm _ _ Hmatch) as (x' & t' & k' & Hs & _ & Hn & Hlen & Hpr).
        simplify_eq.
        assert (k' ≤ length t)%nat as Hle.
        { destruct (decide (k' ≤ length t)%nat) as [|Hgt]; [done|exfalso].
          rewrite take_app_ge in Hpr by lia.
          apply Forall_app in Hpr as [_ Hpr].
          destruct (k' - length t)%nat eqn:Hd; [lia|].
          cbn in Hpr. inversion_clear Hpr as [|? ? He' _].
          unfold printable in He'. rewrite He in He'. unfold ESC in He'. lia. }
        by apply IH.
      * destruct (IH 0%nat) as (X & HX & ->); [done|lia|done|].
        exists (x :: X). split; [by constructor|done].
    + apply IH; [done|cbn in Hk; lia|done].
Qed.

(** No match starts inside text without escapes. *)
Lemma removeAll_over_plain o rest :
  Forall (λ y, ch y ≠ ESC) o →
  removeAll m 0 (o ++ rest) = o ++ removeAll m 0 rest.
Proof.
  induction 1 as [|y o Hy _ IH]; [done|].
  cbn [app removeAll].
  destruct (m (y :: o ++ rest)) as [n|] eqn:Hmatch.
  - destruct (Hm _ _ Hmatch) as (? & ? & ? & ? & ? & _). by simplify_eq.
  - by rewrite IH.
Qed.

(** A control character other than the escape is never deleted. *)
Lemma removeAll_keeps x s : ∀ k,
  x ∈ drop k s → ch x < 0x20 → ch x ≠ ESC → x ∈ removeAll m k s.
Proof.
  induction s as [|y t IH]; intros k Hin Hctl Hesc.
  - by rewrite drop_nil in Hin.
  - cbn [removeAll]. destruct k as [|k]; [|by apply IH].
    rewrite drop_0 in Hin.
    destruct (m (y :: t)) as [[|n]|] eqn:Hmatch.
    + apply elem_of_cons in Hin as [->|Hin]; [left|right].
      apply IH; by rewrite ?drop_0.
    + destruct (Hm _ _ Hmatch) as (x' & t' & k' & Hs & Hx' & Hn & Hlen & Hpr).
      simplify_eq. apply IH; [|done..].
      apply elem_of_cons in Hin as [->|Hin]; [done|].
      rewrite <- (take_drop k' t') in Hin.
      apply elem_of_app in Hin as [Hin|Hin]; [exfalso|done].
      rewrite Forall_forall in Hpr. specialize (Hpr _ Hin).
      unfold printable in Hpr. lia.
    + apply elem_of_cons in Hin as [->|Hin]; [left|right].
      apply IH; by rewrite ?drop_0.
Qed.

(** A sequence the matcher does not take passes the scan whole... *)
Lemma removeAll_pass (P : A → Prop) pre e o post :
  ch e = ESC → Forall (printable ch) o →
  m (e :: o ++ post) = None →
  Forall P pre → Forall P post →
  ∃ X Y, Forall P X ∧ Forall P Y ∧
         removeAll m 0 (pre ++ (e :: o) ++ post) = X ++ (e :: o) ++ Y.
Proof.
  intros He Ho Hnone Hpre Hpost.
  destruct (removeAll_before_escape P e (o ++ post) pre 0%nat)
    as (X & HX & HeqX); [done|lia|done|].
  exists X, (removeAll m 0 post). split; [done|].
  split; [by apply removeAll_Forall|].
  cbn [app]. rewrite HeqX. cbn [removeAll]. rewrite Hnone.
  rewrite removeAll_over_plain; [done|].
  eapply Forall_impl; [exact Ho|].
  intros y Hy. unfold printable in Hy. unfold ESC. lia.
Qed.

(** ... and one it takes is deleted whole, with nothing else of what
    follows it. *)
Lemma removeAll_delete (P : A → Prop) pre e o post :
  ch e = ESC →
  m (e :: o ++ post) = Some (S (length o)) →
  Forall P pre → Forall P post →
  ∃ X, Forall P X ∧ removeAll m 0 (pre ++ (e :: o) ++ post) = X.
Proof.
  intros He Hsome Hpre Hpost.
  destruct (removeAll_before_escape P e (o ++ post) pre 0%nat)
    as (X & HX & HeqX); [done|lia|done|].
  exists (X ++ removeAll m 0 post). split.
  - apply Forall_app. split; [done|by apply removeAll_Forall].
  - cbn [app]. rewrite HeqX. cbn [removeAll]. rewrite Hsome.
    by rewrite removeAll_skip, drop_app_length.
Qed.

End Headed.

(** *** The matchers read characters through [ch] only *)

Lemma startsWith_fmap l s :
  startsWith ch l s = startsWith id l (ch <$> s).
Proof.
  revert s. induction l as [|c l IH]; intros [|x s]; try done.
  cbn. by rewrite IH.
Qed.

Lemma paramsThen_fmap final s :
  paramsThen ch final s = paramsThen id final (ch <$> s).
Proof.
  induction s as [|x s IH]; [done|]. cbn. by rewrite IH.
Qed.

Lemma matchLiteral_fmap l s :
  matchLiteral ch l s = matchLiteral id l (ch <$> s).
Proof. unfold matchLiteral. by rewrite startsWith_fmap. Qed.

Lemma matchCsi_fmap intro final s :
  matchCsi ch intro final s = matchCsi id intro final (ch <$> s).
Proof.
  unfold matchCsi.
  by rewrite startsWith_fmap, paramsThen_fmap, fmap_drop.
Qed.

Lemma removeAll_fmap (m : list A → option nat) (m' : list N → option nat) :
  (∀ s, m s = m' (ch <$> s)) →
  ∀ s k, ch <$> removeAll m k s = removeAll m' k (ch <$> s).
Proof.
  intros Hmm. induction s as [|x s IH]; intros k; [done|].
  cbn [removeAll fmap list_fmap]. destruct k as [|k]; [|apply IH].
  specialize (Hmm (x :: s)). cbn [fmap list_fmap] in Hmm. rewrite <- Hmm.
  destruct (m (x :: s)) as [[|n]|]; cbn; by rewrite ?IH.
Qed.

Lemma stripFocus_fmap s :
  ch <$> stripFocus ch s = stripFocus id (ch <$> s).
Proof.
  unfold stripFocus.
  rewrite !(removeAll_fmap _ _ (matchLiteral_fmap _)). done.
Qed.

Lemma stripInput_fmap s :
  ch <$> stripInput ch s = stripInput id (ch <$> s).
Proof.
  unfold stripInput, stripResponses, reCsiU, reSecondary, reQuery.
  rewrite !(removeAll_fmap _ _ (matchCsi_fmap _ _)).
  by rewrite stripFocus_fmap.
Qed.

(** *** The five matchers are escape-headed *)

Lemma startsWith_take l s :
  startsWith ch l s = true →
  (length l ≤ length s)%nat ∧ ch <$> take (length l) s = l.
Proof.
  revert s. induction l as [|c l IH]; intros [|x s] H; try done.
  - split; [cbn; lia|done].
  - cbn in H. apply andb_true_iff in H as [Hc H].
    apply N.eqb_eq in Hc. destruct (IH _ H) as [Hlen Heq].
    split; [cbn; lia|]. cbn. by rewrite Hc, Heq.
Qed.

Lemma paramsThen_printable final s n :
  (∀ c, final c = true → 0x20 <= c) →
  paramsThen ch final s = Some n →
  (n ≤ length s)%nat ∧ Forall (printable ch) (take n s).
Proof.
  intros Hfinal. revert n. induction s as [|x s IH]; intros n H; [done|].
  cbn in H. destruct (isParam (ch x)) eqn:Hp.
  - destruct (paramsThen ch final s) as [k|]; [|done].
    cbn in H. simplify_eq. destruct (IH k eq_refl) as [Hlen Hpr].
    split; [cbn; lia|]. cbn. constructor; [|done].
    unfold printable. unfold isParam in Hp.
    apply orb_true_iff in Hp as [Hp|Hp].
    + apply andb_true_iff in Hp as [Hp _]. apply N.leb_le in Hp. lia.
    + apply N.eqb_eq in Hp. lia.
  - destruct (final (ch x)) eqn:Hf; [|done]. simplify_eq.
    split; [cbn; lia|]. cbn. rewrite take_0.
    constructor; [|done]. by apply Hfinal.
Qed.

Lemma printable_fmap s :
  Forall (λ c, 0x20 <= c) (ch <$> s) → Forall (printable ch) s.
Proof.
  induction s as [|x s IH]; [done|].
  cbn. inversion_clear 1. constructor; [done|by apply IH].
Qed.

Lemma matchLiteral_headed l :
  Forall (λ c, 0x20 <= c) l → escapeHeaded ch (matchLiteral ch (ESC :: l)).
Proof.
  intros HI s n H. unfold matchLiteral in H.
  destruct (startsWith ch (ESC :: l) s) eqn:Hs; [|done]. simplify_eq.
  destruct s as [|x t]; [done|].
  cbn in Hs. apply andb_true_iff in Hs as [Hx Hs]. apply N.eqb_eq in Hx.
  destruct (startsWith_take _ _ Hs) as [Hlen Heq].
  exists x, t, (length l). repeat split; try done.
  apply printable_fmap. by rewrite Heq.
Qed.

Lemma matchCsi_headed intro final :
  Forall (λ c, 0x20 <= c) intro →
  (∀ c, final c = true → 0x20 <= c) →
  escapeHeaded ch (matchCsi ch (ESC :: intro) final).
Proof.
  intros HI Hf s n H. unfold matchCsi in H.
  destruct (startsWith ch (ESC :: intro) s) eqn:Hs; [|done].
  destruct s as [|x t]; [done|].
  cbn [length drop] in H.
  destruct (paramsThen ch final (drop (length intro) t)) as [k|] eqn:Hk;
    [|done].
  cbn in H. simplify_eq.
  cbn in Hs. apply andb_true_iff in Hs as [Hx Hs]. apply N.eqb_eq in Hx.
  destruct (startsWith_take _ _ Hs) as [Hlen Heq].
  destruct (paramsThen_printable _ _ _ Hf Hk) as [Hklen Hkpr].
  rewrite length_drop in Hklen.
  exists x, t, (length intro + k)%nat. repeat split; try done; [lia|].
  rewrite <- (take_drop (length intro) t) at 1.
  rewrite take_app_ge by (rewrite length_take; lia).
  rewrite length_take, Nat.min_l by lia.
  replace (length intro + k - length intro)%nat with k by lia.
  apply Forall_app. split; [|done].
  apply printable_fmap. by rewrite Heq.
Qed.

End ScanFacts.

Section Pipeline.
Context {A : Type} (ch : A → N) (P : A → Prop).

Lemma stripInput_passes s : stripInput ch s = foldl scan s (passes ch).
Proof. reflexivity. Qed.

Lemma passes_headed : Forall (escapeHeaded ch) (passes ch).
Proof.
  unfold passes, reQuery, reSecondary, reCsiU, FOCUS_IN_SEQ, FOCUS_OUT_SEQ.
  repeat apply Forall_cons_2; try apply Forall_nil_2;
    first [ apply matchLiteral_headed | apply matchCsi_headed ];
    try (cbn; repeat constructor; lia);
    intros c; unfold isUorC, isChar; intros Hc;
    repeat (apply orb_true_iff in Hc as [Hc|Hc]);
    apply N.eqb_eq in Hc; lia.
Qed.

Lemma scans_Forall ms : ∀ s, Forall P s → Forall P (foldl scan s ms).
Proof.
  induction ms as [|m ms IH]; intros s Hs; [done|].
  cbn. apply IH. by apply removeAll_Forall.
Qed.

(** If the passes before [mj] leave the sequence alone and [mj] takes
    it, nothing of the sequence is left in the end. *)
Lemma scans_drop e o before mj after : ∀ pre post,
  ch e = ESC → Forall (printable ch) o →
  Forall (escapeHeaded ch) (before ++ mj :: after) →
  Forall (λ m, ∀ t, m (e :: o ++ t) = None) before →
  (∀ t, mj (e :: o ++ t) = Some (S (length o))) →
  Forall P pre → Forall P post →
  Forall P (foldl scan (pre ++ (e :: o) ++ post) (before ++ mj :: after)).
Proof.
  induction before as [|m before IH];
    intros pre post He Ho Hhd Hnone Hsome Hpre Hpost.
  - rewrite app_nil_l in Hhd |- *. inversion_clear Hhd as [|? ? Hmj _].
    destruct (removeAll_delete ch mj Hmj P pre e o post)
      as (X & HX & HeqX); try done.
    change (Forall P (foldl scan (removeAll mj 0 (pre ++ (e :: o) ++ post))
                        after)).
    rewrite HeqX. by apply scans_Forall.
  - rewrite <- app_comm_cons in Hhd |- *.
    inversion_clear Hhd as [|? ? Hm Hrest].
    inversion_clear Hnone as [|? ? Hmnone Hnone'].
    destruct (removeAll_pass ch m Hm P pre e o post)
      as (X & Y & HX & HY & HeqXY); try done.
    change (Forall P (foldl scan (removeAll m 0 (pre ++ (e :: o) ++ post))
                        (before ++ mj :: after))).
    rewrite HeqXY. by apply IH.
Qed.

End Pipeline.

(** *** What each matcher answers at a report *)

Section AtReport.

Lemma isParam_char c : isParam c = true → 0x30 <= c <= 0x3b.
Proof.
  unfold isParam. intros H. apply orb_true_iff in H as [H|H].
  - apply andb_true_iff in H as [H1 H2].
    apply N.leb_le in H1. apply N.leb_le in H2. lia.
  - apply N.eqb_eq in H. lia.
Qed.

Lemma paramsThen_run final ps f r :
  forallb isParam ps = true → final f = true → isParam f = false →
  paramsThen id final (ps ++ f :: r) = Some (S (length ps)).
Proof.
  intros Hps Hf Hnp. induction ps as [|p ps IH].
  - cbn. by rewrite Hnp, Hf.
  - cbn in Hps. apply andb_true_iff in Hps as [Hp Hps].
    cbn. rewrite Hp. by rewrite IH.
Qed.

(** After [ESC [], a CSI-u report goes on with a parameter or with its
    [u]; no other matcher accepts that. *)
Lemma startsWith_params c ps r :
  forallb isParam ps = true → isParam c = false → c ≠ 0x75 →
  startsWith id [c] (ps ++ 0x75 :: r) = false.
Proof.
  intros Hps Hc Hu. destruct ps as [|p ps]; cbn [app startsWith];
    rewrite andb_true_r; apply N.eqb_neq; unfold id.
  - congruence.
  - cbn in Hps. apply andb_true_iff in Hps as [Hp _].
    intros ->. congruence.
Qed.

Lemma startsWith_cons2 a b c x y s :
  startsWith id [a; b; c] (x :: y :: s)
  = (x =? a) && ((y =? b) && startsWith id [c] s).
Proof. reflexivity. Qed.

End AtReport.

(** *** No character of a report survives the stripping *)

Lemma params_printable {A} (ch : A → N) ps (l : list N) :
  forallb isParam ps = true → Forall (λ c, 0x20 <= c) l →
  Forall (λ c, 0x20 <= c) (ps ++ l).
Proof.
  intros Hps Hl. apply Forall_app. split; [|done].
  apply Forall_forall. intros c Hc%list_elem_of_In.
  rewrite forallb_forall in Hps. specialize (Hps _ Hc).
  apply isParam_char in Hps. lia.
Qed.

Lemma isUorC_char f : isUorC f = true → f = 0x75 ∨ f = 0x63.
Proof.
  unfold isUorC. intros Hf.
  apply orb_true_iff in Hf as [Hf|Hf]; apply N.eqb_eq in Hf; auto.
Qed.

Ltac not_focus He Ho :=
  cbn [fmap list_fmap]; rewrite ?He, ?Ho;
  unfold FOCUS_IN_SEQ, FOCUS_OUT_SEQ;
  let H := fresh in intros [H|H]; injection H as H; try done.

(** The head of a report is an escape, the rest is printable, and the
    passes before the one that takes it answer [None]. *)
Lemma report_cases {A} (ch : A → N) (occ : list A) :
  Report (ch <$> occ) →
  ∃ e o before mj after,
    occ = e :: o ∧ ch e = ESC ∧ Forall (printable ch) o ∧
    passes ch = before ++ mj :: after ∧
    Forall (λ m, ∀ t, m (e :: o ++ t) = None) before ∧
    (∀ t, mj (e :: o ++ t) = Some (S (length o))) ∧
    ((ch <$> occ) = FOCUS_IN_SEQ ∨ (ch <$> occ) = FOCUS_OUT_SEQ →
     (length before < 2)%nat).
Proof.
  intros HR.
  inversion HR as [Heq|Heq|ps f Hps Hf Heq|ps Hps Heq|ps Hps Heq];
    destruct occ as [|e o]; try done;
    cbn [fmap list_fmap app FOCUS_IN_SEQ FOCUS_OUT_SEQ CSI_QUERY
         CSI_SECONDARY CSI] in Heq;
    injection Heq as He Ho; symmetry in He; symmetry in Ho;
    assert (Hlen : length o = length (ch <$> o)) by (by rewrite length_fmap);
    (assert (Hpr : Forall (printable ch) o);
     [ apply printable_fmap; rewrite Ho;
       repeat (constructor; [lia|]);
       try apply (params_printable ch); try done;
       repeat constructor; try lia;
       destruct (isUorC_char _ Hf); lia | ]).
  - (* focus-in *)
    exists e, o, [], (matchLiteral ch FOCUS_IN_SEQ), (tail (passes ch)).
    repeat split; try done; [|cbn; lia]. intros t.
    rewrite matchLiteral_fmap. cbn [fmap list_fmap]. rewrite fmap_app.
    rewrite Ho, He, Hlen, Ho. reflexivity.
  - (* focus-out *)
    exists e, o, [matchLiteral ch FOCUS_IN_SEQ],
           (matchLiteral ch FOCUS_OUT_SEQ), (drop 2 (passes ch)).
    repeat split; try done; [| |cbn; lia].
    + repeat apply Forall_cons_2; try apply Forall_nil_2. intros t.
      rewrite matchLiteral_fmap. cbn [fmap list_fmap]. rewrite fmap_app.
      rewrite Ho, He. reflexivity.
    + intros t.
      rewrite matchLiteral_fmap. cbn [fmap list_fmap]. rewrite fmap_app.
      rewrite Ho, He, Hlen, Ho. reflexivity.
  - (* ESC [ ? ... c|u *)
    exists e, o, (take 2 (passes ch)), (reQuery ch), (drop 3 (passes ch)).
    repeat split; try done; [| |not_focus He Ho].
    + repeat apply Forall_cons_2; try apply Forall_nil_2; intros t;
        rewrite matchLiteral_fmap; cbn [fmap list_fmap]; rewrite fmap_app;
        rewrite Ho, He; reflexivity.
    + intros t. unfold reQuery.
      rewrite matchCsi_fmap. cbn [fmap list_fmap]. rewrite fmap_app.
      rewrite Ho, He, Hlen, Ho. unfold matchCsi, CSI_QUERY.
      cbn [startsWith length drop app]. unfold id at 1 2 3.
      cbn [N.eqb Pos.eqb andb ESC]. rewrite <- app_assoc. cbn [app].
      rewrite ?drop_0, paramsThen_run; try done.
      * cbn [fmap option_fmap option_map]. rewrite length_app. cbn [length].
        f_equal. lia.
      * by destruct (isUorC_char _ Hf) as [-> | ->].
  - (* ESC [ > ... c *)
    exists e, o, (take 3 (passes ch)), (reSecondary ch), (drop 4 (passes ch)).
    repeat split; try done; [| |not_focus He Ho].
    + repeat apply Forall_cons_2; try apply Forall_nil_2; intros t; unfold reQuery;
        rewrite ?(matchLiteral_fmap ch), ?(matchCsi_fmap ch);
        cbn [fmap list_fmap]; rewrite fmap_app;
        rewrite Ho, He; reflexivity.
    + intros t. unfold reSecondary.
      rewrite matchCsi_fmap. cbn [fmap list_fmap]. rewrite fmap_app.
      rewrite Ho, He, Hlen, Ho. unfold matchCsi, CSI_SECONDARY.
      cbn [startsWith length drop app]. unfold id at 1 2 3.
      cbn [N.eqb Pos.eqb andb ESC]. rewrite <- app_assoc. cbn [app].
      rewrite ?drop_0, paramsThen_run; try done.
      cbn [fmap option_fmap option_map]. rewrite length_app. cbn [length].
      f_equal. lia.
  - (* ESC [ ... u *)
    exists e, o, (take 4 (passes ch)), (reCsiU ch), [].
    repeat split; try done; [| |not_focus He Ho; destruct ps as [|? []]; done].
    + repeat apply Forall_cons_2; try apply Forall_nil_2; intros t; unfold reQuery, reSecondary;
        rewrite ?(matchLiteral_fmap ch), ?(matchCsi_fmap ch);
        cbn [fmap list_fmap]; rewrite fmap_app;
        rewrite Ho, He; unfold matchLiteral, matchCsi;
        unfold FOCUS_IN_SEQ, FOCUS_OUT_SEQ, CSI_QUERY, CSI_SECONDARY;
        cbn [app]; rewrite <- app_assoc; cbn [app];
        rewrite (startsWith_cons2 _ _ _ _ _ (ps ++ 0x75 :: (ch <$> t)));
        cbn [N.eqb Pos.eqb andb ESC];
        rewrite (startsWith_params _ ps) by (first [done | lia]);
        reflexivity.
    + intros t. unfold reCsiU.
      rewrite matchCsi_fmap. cbn [fmap list_fmap]. rewrite fmap_app.
      rewrite Ho, He, Hlen, Ho. unfold matchCsi, CSI.
      cbn [startsWith length drop app]. unfold id at 1 2.
      cbn [N.eqb Pos.eqb andb ESC]. rewrite <- app_assoc. cbn [app].
      rewrite ?drop_0, paramsThen_run; try done.
      cbn [fmap option_fmap option_map]. rewrite length_app. cbn [length].
      f_equal. lia.
Qed.

Lemma stripInput_drops_report {A} (ch : A → N) (P : A → Prop)
    (pre occ post : list A) :
  Report (ch <$> occ) → Forall P pre → Forall P post →
  Forall P (stripInput ch (pre ++ occ ++ post)).
Proof.
  intros HR Hpre Hpost.
  destruct (report_cases ch occ HR)
    as (e & o & before & mj & after & -> & He & Ho & Hsplit & Hnone & Hsome & _).
  rewrite stripInput_passes, Hsplit.
  apply (scans_drop ch); try done.
  rewrite <- Hsplit. apply passes_headed.
Qed.

(** The same for the two passes of [stripFocus]. *)
Lemma stripFocus_drops_report {A} (ch : A → N) (P : A → Prop)
    (pre occ post : list A) :
  (ch <$> occ) = FOCUS_IN_SEQ ∨ (ch <$> occ) = FOCUS_OUT_SEQ →
  Forall P pre → Forall P post →
  Forall P (stripFocus ch (pre ++ occ ++ post)).
Proof.
  intros Hocc Hpre Hpost.
  assert (Report (ch <$> occ)) as HR
    by (destruct Hocc as [-> | ->]; constructor).
  destruct (report_cases ch occ HR)
    as (e & o & before & mj & after & -> & He & Ho & Hsplit & Hnone & Hsome
        & Hfocus).
  specialize (Hfocus Hocc).
  change (stripFocus ch (pre ++ (e :: o) ++ post))
    with (foldl scan (pre ++ (e :: o) ++ post) (take 2 (passes ch))).
  pose proof (passes_headed ch) as Hhd.
  apply (Forall_take _ 2%nat) in Hhd.
  rewrite Hsplit in Hhd |- *.
  rewrite take_app in Hhd |- *.
  rewrite (take_ge before) in Hhd |- * by lia.
  destruct (2 - length before)%nat as [|k] eqn:Hk; [lia|].
  cbn [take] in Hhd |- *.
  by apply (scans_drop ch).
Qed.

(** The records are opened and the flags the operations test are split
    first, so that the operations compute. *)
Ltac open_world w :=
  let tty := fresh "tty" in
  destruct w as [? ? ? ? ? ? ? ? [tty ? ? ? ? ?]]; destruct tty.

Ltac open_closure c :=
  let d := fresh "d" in let cl := fresh "cl" in let dbg := fresh "dbg" in
  destruct c as [? ? d ? dbg cl ?]; destruct d, cl, dbg.

Ltac crush_world :=
  cbn -[Nat.ltb Nat.leb enforceHistoryLimit] in *; try done;
  repeat (case_match; cbn -[Nat.ltb Nat.leb enforceHistoryLimit] in *;
          try done).

Section WorldFacts.
Implicit Types (w : World) (c : Closure) (r : nat).

Lemma attachedRef_onManager r r' f w :
  attachedRef r (onManager r' f w)
  = if decide (r' = r)
    then from_option (λ m, attached (f m)) false (store w !! r)
    else attachedRef r w.
Proof.
  unfold attachedRef, onManager, isUserAttached. cbn.
  rewrite list_lookup_alter. case_decide; [|done].
  subst. by destruct (store w !! r).
Qed.

Lemma inputOf_onManager r r' f w :
  inputOf r (onManager r' f w)
  = if decide (r' = r)
    then from_option (λ m, ptyInput (f m)) [] (store w !! r)
    else inputOf r w.
Proof.
  unfold inputOf, onManager. cbn.
  rewrite list_lookup_alter. case_decide; [|done].
  subst. by destruct (store w !! r).
Qed.

Lemma store_debugTrace data c w : store (debugTrace data c w) = store w.
Proof. by destruct c as [? ? ? ? [] ? ?]. Qed.

Lemma term_debugTrace_raw data c w :
  rawMode (term (debugTrace data c w)) = rawMode (term w) ∧
  isTTY (term (debugTrace data c w)) = isTTY (term w).
Proof. by destruct c as [? ? ? ? [] ? ?]. Qed.

Lemma performDetach_store c w :
  detached c = false →
  store (performDetach c w).2 = alter detach (manager c) (store w).
Proof.
  intros Hd. open_world w; open_closure c; unfold performDetach, captureResponse;
    crush_world.
Qed.

Lemma performDetach_closure c w :
  detached c = false →
  detached (performDetach c w).1 = true ∧
  resolved (performDetach c w).1 = true ∧
  manager (performDetach c w).1 = manager c.
Proof.
  intros Hd. open_world w; open_closure c; unfold performDetach, captureResponse;
    crush_world.
Qed.

Lemma performDetach_term c w :
  detached c = false → cleanedUp c = false →
  rawMode (term (performDetach c w).2)
    = (if isTTY (term w) then false else rawMode (term w)) ∧
  stdinListening (term (performDetach c w).2) = false ∧
  resizeListening (term (performDetach c w).2) = false.
Proof.
  intros Hd Hc. open_world w; open_closure c; unfold performDetach, captureResponse;
    crush_world.
Qed.

(** After [performDetach] nobody bridges the manager, and nothing has
    been written to any subprocess. *)
Lemma performDetach_manager c w :
  detached c = false →
  attachedRef (manager c) (performDetach c w).2 = false ∧
  ∀ r, inputOf r (performDetach c w).2 = inputOf r w.
Proof.
  intros Hd. unfold attachedRef, inputOf.
  rewrite performDetach_store by done. split.
  - rewrite list_lookup_alter_eq. by destruct (store w !! manager c).
  - intros r. rewrite list_lookup_alter. case_decide; [|done].
    subst. by destruct (store w !! manager c).
Qed.

End WorldFacts.

(** ** The detach keys *)

Section DetachKeys.

Lemma scans_keep {A} (ch : A → N) x ms : ∀ s,
  Forall (escapeHeaded ch) ms →
  x ∈ s → ch x < 0x20 → ch x ≠ ESC → x ∈ foldl (scan) s ms.
Proof.
  induction ms as [|m ms IH]; intros s Hms Hin Hctl Hesc; [done|].
  inversion_clear Hms. cbn. apply IH; try done.
  apply removeAll_keeps with (ch := ch); by rewrite ?drop_0.
Qed.

Lemma isDetachKey_char k :
  isDetachKey k = true → 0x1c <= k <= 0x1f.
Proof.
  unfold isDetachKey, CTRL_BRACKET, CTRL_BACKSLASH, CTRL_CARET,
    CTRL_UNDERSCORE.
  intros H. repeat (apply orb_true_iff in H as [H|H]);
    apply N.eqb_eq in H; lia.
Qed.

(** A detach key in the chunk is still in the text after decoding and
    stripping. *)
Lemma detach_key_survives (data : Buffer) b :
  b ∈ data → isDetachKey (Byte.to_N b) = true →
  Byte.to_N b ∈ toString data ∧
  Byte.to_N b ∈ stripInput id (toString data).
Proof.
  intros Hin Hkey. apply isDetachKey_char in Hkey.
  assert (Byte.to_N b ∈ toString data) as Hstr.
  { apply list_elem_of_split in Hin as (pre & post & ->).
    unfold toString. rewrite fmap_app. cbn [fmap list_fmap].
    rewrite decode_ascii_split by (first [lia | by left]).
    apply elem_of_app. right. left. }
  split; [done|].
  rewrite stripInput_passes.
  apply scans_keep with (ch := id); unfold id, ESC; try lia; try done.
  apply passes_headed.
Qed.

End DetachKeys.

Lemma performDetach_Detaches data c w :
  detached c = false →
  Detaches c w (performDetach c (debugTrace data c w)).
Proof.
  intros Hd. unfold Detaches.
  destruct (performDetach_closure c (debugTrace data c w) Hd) as (? & ? & _).
  destruct (performDetach_manager c (debugTrace data c w) Hd) as [? Hin].
  repeat split; try done.
  intros r. rewrite Hin. unfold inputOf. by rewrite store_debugTrace.
Qed.

Lemma performDetach_TerminalRestored data c w :
  detached c = false → cleanedUp c = false →
  TerminalRestored w (performDetach c (debugTrace data c w)).2.
Proof.
  intros Hd Hcl. unfold TerminalRestored.
  destruct (performDetach_term c (debugTrace data c w) Hd Hcl) as (-> & ? & ?).
  destruct (term_debugTrace_raw data c w) as [-> ->]. done.
Qed.

(** C1: a detach key anywhere in a chunk detaches: the manager is no
    longer attached, the terminal leaves raw mode, and nothing of the
    chunk reaches the subprocess. *)
Theorem detach_key_detaches (now : Z) (data : Buffer) (c : Closure) (w : World) :
  detached c = false → cleanedUp c = false →
  (∃ b, b ∈ data ∧ isDetachKey (Byte.to_N b) = true) →
  onStdinData now data c w = performDetach c (debugTrace data c w) ∧
  Detaches c w (onStdinData now data c w) ∧
  TerminalRestored w (onStdinData now data c w).2.
Proof.
  intros Hd Hcl (b & Hin & Hkey).
  destruct (detach_key_survives data b Hin Hkey) as [Hstr Hstrip].
  assert (onStdinData now data c w = performDetach c (debugTrace data c w))
    as Heq.
  { unfold onStdinData.
    assert (bool_decide (toString data = FOCUS_IN_SEQ) = false) as ->.
    { apply bool_decide_eq_false. intros Heq. rewrite Heq in Hstr.
      apply isDetachKey_char in Hkey. unfold FOCUS_IN_SEQ in Hstr.
      rewrite !elem_of_cons, elem_of_nil in Hstr. lia. }
    assert (bool_decide (toString data = FOCUS_OUT_SEQ) = false) as ->.
    { apply bool_decide_eq_false. intros Heq. rewrite Heq in Hstr.
      apply isDetachKey_char in Hkey. unfold FOCUS_OUT_SEQ in Hstr.
      rewrite !elem_of_cons, elem_of_nil in Hstr. lia. }
    cbn [orb]. change (stripResponses id (stripFocus id (toString data)))
      with (stripInput id (toString data)).
    destruct (stripInput id (toString data)) as [|x s] eqn:Hs;
      [by apply elem_of_nil in Hstrip|].
    cbn [length Nat.eqb].
    assert (existsb isDetachKey (map Byte.to_N data) = true) as ->.
    { apply existsb_exists. exists (Byte.to_N b). split; [|done].
      apply in_map. by apply list_elem_of_In. }
    by case_match. }
  rewrite Heq. split; [done|]. split.
  - by apply performDetach_Detaches.
  - by apply performDetach_TerminalRestored.
Qed.

(** ** The classifier *)

(** A chunk is dropped, or it detaches, or what is left of it after the
    stripping is written to the subprocess. *)
Lemma onStdinData_cases now data c w :
  let str := stripInput id (toString data) in
  let w0 := debugTrace data c w in
  onStdinData now data c w = (c, w0) ∨
  onStdinData now data c w = performDetach c w0 ∨
  (str ≠ [] ∧ ∃ t,
     onStdinData now data c w
     = (setLastEscapeTime t c, onManager (manager c) (write str) w0)).
Proof.
  unfold onStdinData.
  change (stripResponses id (stripFocus id (toString data)))
    with (stripInput id (toString data)).
  destruct (stripInput id (toString data)) as [|x s] eqn:Hs.
  - left. by repeat case_match.
  - cbn [length Nat.eqb]. repeat case_match; auto; right; right;
      (split; [done|]); eauto.
Qed.

(** C2: a chunk that is one of the CSI-u detach chords is deleted by the
    third [replace] and dropped as empty; after other text the chord is
    deleted and the text is forwarded.  No detach takes place. *)
Theorem csi_u_chords_are_stripped :
  Forall (λ seq, ∀ now c w,
            stripInput id (toString (bytesOf seq)) = [] ∧
            onStdinData now (bytesOf seq) c w
            = (c, debugTrace (bytesOf seq) c w) ∧
            onStdinData now (bytesOf (0x78 :: seq)) c w
            = (setLastEscapeTime 0 c,
               onManager (manager c) (write [0x78])
                 (debugTrace (bytesOf (0x78 :: seq)) c w)))
         CSI_U_DETACH_SEQS.
Proof.
  unfold CSI_U_DETACH_SEQS.
  repeat apply Forall_cons_2; try apply Forall_nil_2; intros now c w;
    (split; [reflexivity|split; reflexivity]).
Qed.

(** ** Reports in a chunk *)

Lemma report_ascii seq :
  Report seq → seq ≠ [] ∧ Forall (λ a, a <= 0x7F) seq.
Proof.
  assert (∀ ps (l : list N), forallb isParam ps = true →
            Forall (λ a, a <= 0x7F) l → Forall (λ a, a <= 0x7F) (ps ++ l))
    as Hparams.
  { intros ps l Hps Hl. apply Forall_app. split; [|done].
    apply Forall_forall. intros a Ha%list_elem_of_In.
    rewrite forallb_forall in Hps. specialize (Hps _ Ha).
    apply isParam_char in Hps. lia. }
  destruct 1 as [| |ps f Hps Hf|ps Hps|ps Hps]; (split; [done|]);
    cbn [app FOCUS_IN_SEQ FOCUS_OUT_SEQ CSI_QUERY CSI_SECONDARY CSI];
    repeat (apply Forall_cons_2; [lia|]); try apply Forall_nil_2;
    apply Hparams; try done; repeat constructor; try lia.
  destruct (isUorC_char _ Hf); lia.
Qed.

Lemma marked_snd b s : (snd <$> marked b s) = s.
Proof.
  unfold marked. rewrite <- list_fmap_compose.
  induction s as [|x s IH]; [done|]. cbn. by rewrite IH.
Qed.

Lemma marked_fst b s : Forall (λ x, x.1 = b) (marked b s).
Proof. unfold marked. by induction s; constructor. Qed.

(** Mark the characters of a report that the chunk holds: the stripped
    text is the same, and no marked character is in it. *)
Lemma report_in_chunk_is_dropped (pre seq post : Buffer) :
  Report (Byte.to_N <$> seq) →
  let m := stripInput snd (marked false (toString pre) ++
                           marked true (Byte.to_N <$> seq) ++
                           marked false (toString post)) in
  (snd <$> m) = stripInput id (toString (pre ++ seq ++ post)) ∧
  Forall (λ x, x.1 = false) m.
Proof.
  intros HR. cbn zeta. split.
  - rewrite stripInput_fmap, !fmap_app, !marked_snd.
    destruct (report_ascii _ HR) as [Hne Hascii].
    rewrite toString_ascii_middle; [done| |].
    + intros ->. by apply Hne.
    + apply Forall_forall. intros b Hb. rewrite Forall_forall in Hascii.
      apply Hascii. by apply list_elem_of_fmap_2.
  - apply stripInput_drops_report.
    + by rewrite marked_snd.
    + apply marked_fst.
    + apply marked_fst.
Qed.

Lemma hasDoubleEscape_length (bytes : list N) :
  hasDoubleEscape bytes = true → (2 ≤ length bytes)%nat.
Proof. destruct bytes as [|a [|b t]]; cbn; [done|done|lia]. Qed.

(** C3, as the code has it: what reaches the subprocess is the chunk
    without the reports it holds, and a chunk of which nothing is left is
    dropped before any classification.  Of a chunk of which something is
    left, the stripped text is searched for the CSI-u chords, and the raw
    bytes, reports included, for the detach keys and the escapes. *)
Theorem reports_in_chunk_not_forwarded (now : Z) (data : Buffer)
    (c : Closure) (w : World) :
  detached c = false →
  let '(c', w') := onStdinData now data c w in
  (∀ r, inputOf r w' = inputOf r w ∨
        (r = manager c ∧
         inputOf r w' = inputOf r w ++ [stripInput id (toString data)])) ∧
  (∀ pre seq post,
     data = pre ++ seq ++ post → Report (Byte.to_N <$> seq) →
     let m := stripInput snd (marked false (toString pre) ++
                              marked true (Byte.to_N <$> seq) ++
                              marked false (toString post)) in
     (snd <$> m) = stripInput id (toString data) ∧
     Forall (λ x, x.1 = false) m) ∧
  (stripInput id (toString data) = [] →
   (c', w') = (c, debugTrace data c w)) ∧
  (stripInput id (toString data) ≠ [] →
   let str := stripInput id (toString data) in
   let bytes := Byte.to_N <$> data in
   (c', w')
   = if existsb (λ seq, bool_decide (str = seq) || includes seq str)
          CSI_U_DETACH_SEQS
        || existsb isDetachKey bytes
        || hasDoubleEscape bytes
        || isSingleEscape bytes && (now - lastEscapeTime c <? 500)%Z
     then performDetach c (debugTrace data c w)
     else (setLastEscapeTime (if isSingleEscape bytes then now else 0) c,
           onManager (manager c) (write str) (debugTrace data c w))).
Proof.
  intros Hd. destruct (onStdinData now data c w) as [c' w'] eqn:Heq.
  split; [|split; [|split]].
  - intros r.
    destruct (onStdinData_cases now data c w) as [H|[H|(_ & t & H)]];
      rewrite Heq in H.
    + left. simplify_eq. unfold inputOf. by rewrite store_debugTrace.
    + left. destruct (performDetach_manager c (debugTrace data c w) Hd)
        as [_ Hin]. rewrite <- H in Hin. cbn in Hin. rewrite Hin.
      unfold inputOf. by rewrite store_debugTrace.
    + simplify_eq. rewrite inputOf_onManager.
      unfold inputOf. rewrite store_debugTrace.
      case_decide as Hr; [|by left]. subst r.
      destruct (store w !! manager c) as [m|]; [|by left].
      cbn. unfold write. destruct (isDead m); [by left|by right].
  - intros pre seq post -> HR. by apply report_in_chunk_is_dropped.
  - intros Hempty. unfold onStdinData in Heq.
    change (stripResponses id (stripFocus id (toString data)))
      with (stripInput id (toString data)) in Heq.
    rewrite Hempty in Heq. cbn [length Nat.eqb] in Heq.
    by case_match.
  - intros Hne. cbn zeta. rewrite <- Heq. unfold onStdinData.
    change (stripResponses id (stripFocus id (toString data)))
      with (stripInput id (toString data)).
    change (map Byte.to_N data) with (Byte.to_N <$> data).
    destruct (bool_decide (toString data = FOCUS_IN_SEQ)) eqn:Hin.
    { apply bool_decide_eq_true in Hin. by rewrite Hin in Hne. }
    destruct (bool_decide (toString data = FOCUS_OUT_SEQ)) eqn:Hout.
    { apply bool_decide_eq_true in Hout. by rewrite Hout in Hne. }
    cbn [orb].
    destruct (stripInput id (toString data)) as [|x s] eqn:Hs; [done|].
    cbn [length Nat.eqb].
    match goal with
    | |- context [existsb ?f CSI_U_DETACH_SEQS] =>
        destruct (existsb f CSI_U_DETACH_SEQS)
    end; [done|].
    destruct (existsb isDetachKey (Byte.to_N <$> data)); [done|].
    cbn [orb].
    assert ((2 <=? length data)%nat && hasDoubleEscape (Byte.to_N <$> data)
            = hasDoubleEscape (Byte.to_N <$> data)) as ->.
    { destruct (hasDoubleEscape (Byte.to_N <$> data)) eqn:Hesc;
        [|by rewrite andb_false_r].
      apply hasDoubleEscape_length in Hesc. rewrite length_fmap in Hesc.
      rewrite andb_true_r. by apply Nat.leb_le. }
    destruct (hasDoubleEscape (Byte.to_N <$> data)); [done|].
    cbn [orb].
    destruct (isSingleEscape (Byte.to_N <$> data)); [|done].
    cbn [andb]. by destruct (now - lastEscapeTime c <? 500)%Z.
Qed.

(** C3 as stated fails: the reports are not removed before every
    classification.  In the chunk [ESC ESC [ I] the stripping leaves the
    escape key press, but the search for two adjacent escapes reads the
    raw bytes and finds the escape of the report: the session detaches,
    while the same chunk without the report is forwarded. *)
Lemma report_escape_is_classified :
  Report (Byte.to_N <$> drop 1 escapeThenFocusIn) ∧
  stripInput id (toString escapeThenFocusIn) = toString escapeChunk ∧
  detached attachedClosure = false ∧
  detached (onStdinData 1000 escapeThenFocusIn attachedClosure
              attachedWorld).1 = true ∧
  inputOf 0 (onStdinData 1000 escapeThenFocusIn attachedClosure
               attachedWorld).2 = [] ∧
  detached (onStdinData 1000 escapeChunk attachedClosure
              attachedWorld).1 = false ∧
  inputOf 0 (onStdinData 1000 escapeChunk attachedClosure attachedWorld).2
  = [[ESC]].
Proof.
  split; [exact report_focus_in|]. vm_compute. repeat split.
Qed.

(** The deletions are single passes, and their result is not scanned
    again: in [ESC [ ESC [ I I] the report that is found is deleted, and
    what is left is written to the subprocess. *)
Lemma focus_report_reaches_subprocess :
  let data := bytesOf (CSI ++ FOCUS_IN_SEQ ++ [0x49]) in
  stripInput id (toString data) = FOCUS_IN_SEQ ∧
  inputOf 0 attachedWorld = [] ∧
  inputOf 0 (onStdinData 0 data attachedClosure attachedWorld).2
  = [FOCUS_IN_SEQ].
Proof. vm_compute. repeat split. Qed.

(** ** Escape, twice *)

Lemma onStdinData_escape now c w :
  onStdinData now escapeChunk c w
  = if (now - lastEscapeTime c <? 500)%Z
    then performDetach c (debugTrace escapeChunk c w)
    else (setLastEscapeTime now c,
          onManager (manager c) (write [ESCAPE]) (debugTrace escapeChunk c w)).
Proof. reflexivity. Qed.

(** A chunk of which the stripping leaves nothing is dropped: the closure
    and the session are as before, but for the debug output. *)
Lemma onStdinData_dropped now data c w :
  stripInput id (toString data) = [] →
  onStdinData now data c w = (c, debugTrace data c w).
Proof.
  intros Hempty. unfold onStdinData.
  change (stripResponses id (stripFocus id (toString data)))
    with (stripInput id (toString data)).
  rewrite Hempty. cbn [length Nat.eqb]. by case_match.
Qed.

(** While the session listens, dropped chunks change nothing of it, the
    time of the last escape included. *)
Lemma dropped_chunks_leave_no_trace cap c (mid : list (Z * Buffer)) :
  resolved c = false →
  Forall (λ chunk, stripInput id (toString chunk.2) = []) mid →
  ∀ s, mode s = Interactive c →
    mode (run cap s (stdinEvents mid)) = Interactive c ∧
    store (world (run cap s (stdinEvents mid))) = store (world s).
Proof.
  intros Hres. unfold run, stdinEvents.
  induction 1 as [|[t data] mid Hdata _ IH]; intros s Hmode.
  - done.
  - cbn [map fold_left].
    destruct s as [w m]. cbn [mode world] in *. subst m.
    cbn [step mode world fst snd].
    rewrite (onStdinData_dropped t data c w Hdata). rewrite Hres.
    destruct (IH {| world := debugTrace data c w; mode := Interactive c |}
                eq_refl) as [Hm Hs].
    split; [exact Hm|]. rewrite Hs. cbn [world]. apply store_debugTrace.
Qed.

(** C4, as the code has it.  Two adjacent escapes detach when something
    of the chunk is left after the stripping.  A chunk that is a lone
    escape detaches when the time kept of the last escape is less than
    500 ms back, and is forwarded as an escape otherwise.  So of two lone
    escapes with nothing but dropped chunks between them, the first being
    forwarded, the second detaches when it comes less than 500 ms after
    the first, and is forwarded too when it comes later. *)
Theorem double_escape_detaches (c : Closure) (w : World) :
  detached c = false →
  (∀ now data,
     hasDoubleEscape (Byte.to_N <$> data) = true →
     stripInput id (toString data) ≠ [] →
     onStdinData now data c w = performDetach c (debugTrace data c w) ∧
     Detaches c w (onStdinData now data c w)) ∧
  (∀ now,
     ((now - lastEscapeTime c < 500)%Z →
      Detaches c w (onStdinData now escapeChunk c w)) ∧
     ((500 <= now - lastEscapeTime c)%Z →
      onStdinData now escapeChunk c w
      = (setLastEscapeTime now c,
         onManager (manager c) (write [ESCAPE])
           (debugTrace escapeChunk c w)))) ∧
  (∀ cap t1 mid t2 c1,
     let s1 := step cap {| world := w; mode := Interactive c |}
                 (StdinData t1 escapeChunk) in
     let s2 := run cap s1 (stdinEvents mid) in
     let s3 := step cap s2 (StdinData t2 escapeChunk) in
     mode s1 = Interactive c1 →
     Forall (λ chunk, stripInput id (toString chunk.2) = []) mid →
     world s1 = onManager (manager c) (write [ESCAPE])
                  (debugTrace escapeChunk c w) ∧
     mode s2 = Interactive c1 ∧
     (∀ r, inputOf r (world s2) = inputOf r (world s1)) ∧
     ((t2 - t1 < 500)%Z →
      mode s3 = Prompt ∧
      Detaches c1 (world s2) (onStdinData t2 escapeChunk c1 (world s2))) ∧
     ((500 <= t2 - t1)%Z →
      mode s3 = Interactive (setLastEscapeTime t2 c1) ∧
      world s3 = onManager (manager c) (write [ESCAPE])
                   (debugTrace escapeChunk c1 (world s2)))).
Proof.
  intros Hd. split; [|split].
  - intros now data Hesc Hne.
    assert (onStdinData now data c w = performDetach c (debugTrace data c w))
      as Heq.
    { unfold onStdinData.
      change (stripResponses id (stripFocus id (toString data)))
        with (stripInput id (toString data)).
      destruct (bool_decide (toString data = FOCUS_IN_SEQ)) eqn:Hin.
      { apply bool_decide_eq_true in Hin. by rewrite Hin in Hne. }
      destruct (bool_decide (toString data = FOCUS_OUT_SEQ)) eqn:Hout.
      { apply bool_decide_eq_true in Hout. by rewrite Hout in Hne. }
      cbn [orb].
      destruct (stripInput id (toString data)) as [|x s]; [done|].
      cbn [length Nat.eqb].
      change (map Byte.to_N data) with (Byte.to_N <$> data). rewrite Hesc.
      apply hasDoubleEscape_length in Hesc. rewrite length_fmap in Hesc.
      replace (2 <=? length data)%nat with true
        by (symmetry; by apply Nat.leb_le).
      by repeat case_match. }
    rewrite Heq. split; [done|]. by apply performDetach_Detaches.
  - intros now. rewrite onStdinData_escape. split.
    + intros Hlt.
      replace (now - lastEscapeTime c <? 500)%Z with true
        by (symmetry; apply Z.ltb_lt; lia).
      by apply performDetach_Detaches.
    + intros Hge.
      by replace (now - lastEscapeTime c <? 500)%Z with false
        by (symmetry; apply Z.ltb_ge; lia).
  - intros cap t1 mid t2 c1. cbn zeta. cbn [step mode world].
    rewrite onStdinData_escape.
    destruct (performDetach_closure c (debugTrace escapeChunk c w) Hd)
      as (_ & Hres & _).
    destruct (t1 - lastEscapeTime c <? 500)%Z.
    { destruct (performDetach c (debugTrace escapeChunk c w)) as [c' w'].
      cbn [fst] in Hres. by rewrite Hres. }
    cbn [resolved setLastEscapeTime].
    destruct (resolved c) eqn:Hrc; [done|].
    intros [= <-] Hmid.
    set (w1 := onManager (manager c) (write [ESCAPE])
                 (debugTrace escapeChunk c w)).
    set (c1 := setLastEscapeTime t1 c).
    destruct (dropped_chunks_leave_no_trace cap c1 mid Hrc Hmid
                {| world := w1; mode := Interactive c1 |} eq_refl)
      as [Hm2 Hs2].
    destruct (run cap {| world := w1; mode := Interactive c1 |}
                (stdinEvents mid)) as [w2 m2].
    cbn [mode world] in *. subst m2.
    split; [done|]. split; [done|]. split.
    { intros r. unfold inputOf. by rewrite Hs2. }
    rewrite onStdinData_escape.
    change (lastEscapeTime c1) with t1.
    split.
    + intros Hlt.
      replace (t2 - t1 <? 500)%Z with true by (symmetry; apply Z.ltb_lt; lia).
      destruct (performDetach_closure c1 (debugTrace escapeChunk c1 w2) Hd)
        as (_ & Hres2 & _).
      pose proof (performDetach_Detaches escapeChunk c1 w2 Hd) as HD.
      destruct (performDetach c1 (debugTrace escapeChunk c1 w2)) as [c3 w3].
      cbn [fst] in Hres2. rewrite Hres2. by split.
    + intros Hge.
      replace (t2 - t1 <? 500)%Z with false by (symmetry; apply Z.ltb_ge; lia).
      cbn [resolved setLastEscapeTime]. fold c1. change (resolved c1) with (resolved c).
      by rewrite Hrc.
Qed.

(** C4 as stated fails, twice.  In [ESC ESC [ I [ O] the two escapes are
    adjacent, but the focus-in report is deleted first, what is left is a
    focus-out report, and the chunk is dropped as empty.  And of the
    chunks [ESC], [x], [ESC], handled within 200 ms, none detaches: the
    forwarded [x] has cleared the time of the first escape. *)
Lemma escapes_without_detach :
  (let data := bytesOf (ESC :: FOCUS_IN_SEQ ++ [0x5b; 0x4f]) in
   hasDoubleEscape (Byte.to_N <$> data) = true ∧
   stripInput id (toString data) = [] ∧
   onStdinData 0 data attachedClosure attachedWorld
   = (attachedClosure, attachedWorld) ∧
   detached attachedClosure = false ∧
   attachedRef 0 attachedWorld = true) ∧
  (let s := run 4096 attachedSystem
              [ StdinData 1000 escapeChunk; StdinData 1100 xChunk;
                StdinData 1200 escapeChunk ] in
   mode s = Interactive (setLastEscapeTime 1200 attachedClosure) ∧
   attachedRef 0 (world s) = true ∧
   inputOf 0 attachedWorld = [] ∧
   inputOf 0 (world s) = [[ESC]; [0x78]; [ESC]]).
Proof. vm_compute. repeat split. Qed.

Example attached_session :
  mode attachedSystem = Interactive attachedClosure ∧
  detached attachedClosure = false ∧ cleanedUp attachedClosure = false ∧
  manager attachedClosure = 0%nat ∧
  attachedRef 0 attachedWorld = true ∧ deadRef 0 attachedWorld = false ∧
  inputOf 0 attachedWorld = [].
Proof. vm_compute. repeat split. Qed.

(** ** The bounded history *)

Section History.

Lemma enforceHistoryLimit_drop h :
  enforceHistoryLimit h = drop (length h - MAX_HISTORY_SIZE) h.
Proof.
  induction h as [|m h IH]; [done|].
  cbn [enforceHistoryLimit].
  destruct (Nat.ltb_spec MAX_HISTORY_SIZE (length (m :: h))) as [Hlt|Hge].
  - rewrite IH. cbn [length] in *.
    replace (S (length h) - MAX_HISTORY_SIZE)%nat
      with (S (length h - MAX_HISTORY_SIZE)) by lia.
    done.
  - by replace (length (m :: h) - MAX_HISTORY_SIZE)%nat with 0%nat by lia.
Qed.

Lemma enforceHistoryLimit_length h :
  (length (enforceHistoryLimit h) ≤ MAX_HISTORY_SIZE)%nat.
Proof. rewrite enforceHistoryLimit_drop, length_drop. lia. Qed.

Lemma pop_length w :
  (length (conversationHistory (pop w)) ≤ length (conversationHistory w))%nat.
Proof. cbn. rewrite length_take. lia. Qed.

Lemma conversationHistory_killExisting w :
  conversationHistory (killExisting w) = conversationHistory w.
Proof. unfold killExisting. by case_match. Qed.

Lemma registry_killExisting w :
  registry (killExisting w) = registry w ∧
  activeTool (killExisting w) = activeTool w.
Proof. unfold killExisting. by case_match. Qed.

Lemma sendToTool_history message sent w :
  requestInProgress w = false →
  (length (conversationHistory (sendToTool message sent w))
     ≤ MAX_HISTORY_SIZE)%nat.
Proof.
  intros Hreq. unfold sendToTool. rewrite Hreq.
  set (w1 := killExisting _).
  assert (length (conversationHistory w1) ≤ MAX_HISTORY_SIZE)%nat as Hw1.
  { unfold w1. rewrite conversationHistory_killExisting.
    cbn. apply enforceHistoryLimit_length. }
  cbn [conversationHistory setRequestInProgress].
  destruct (registry w1 !! activeTool w1).
  - destruct sent as [response|].
    + cbn. apply enforceHistoryLimit_length.
    + etrans; [apply pop_length|done].
  - etrans; [apply pop_length|done].
Qed.

Lemma performDetach_history c w :
  detached c = false →
  conversationHistory (performDetach c w).2
  = conversationHistory (captureResponse (bufferOf (manager c) w) w).
Proof.
  intros Hd. open_world w; open_closure c;
    unfold performDetach, captureResponse, bufferOf; crush_world.
Qed.

(** Two appends, each followed by the loop, drop what one loop over both
    would. *)
Lemma enforceHistoryLimit_twice h u a :
  enforceHistoryLimit (enforceHistoryLimit (h ++ [u]) ++ [a])
  = drop (length (h ++ [u; a]) - MAX_HISTORY_SIZE) (h ++ [u; a]).
Proof.
  rewrite !enforceHistoryLimit_drop.
  set (k := (length (h ++ [u]) - MAX_HISTORY_SIZE)%nat).
  assert (k ≤ length h)%nat as Hk
    by (unfold k, MAX_HISTORY_SIZE; rewrite length_app; cbn; lia).
  rewrite (drop_app_le h) by done.
  rewrite <- (app_assoc (drop k h)). cbn [app].
  rewrite <- (drop_app_le h [u; a]) by done.
  rewrite drop_drop. f_equal.
  rewrite length_drop, !length_app. unfold k. rewrite length_app.
  cbn [length]. unfold MAX_HISTORY_SIZE. lia.
Qed.

(** The history after a request that is not refused: the message and the
    response are appended, each append followed by the loop; a failure
    takes the message back. *)
Lemma sendToTool_appends message sent w :
  requestInProgress w = false →
  let u := {| tool := activeTool w; role := user; content := message |} in
  conversationHistory (sendToTool message sent w)
  = match registry w !! activeTool w, sent with
    | Some _, Some response =>
        enforceHistoryLimit
          (enforceHistoryLimit (conversationHistory w ++ [u]) ++
           [{| tool := activeTool w; role := assistant;
               content := response |}])
    | _, _ =>
        let h1 := enforceHistoryLimit (conversationHistory w ++ [u]) in
        take (length h1 - 1) h1
    end.
Proof.
  intros Hreq. cbn zeta. unfold sendToTool. rewrite Hreq.
  set (w1 := killExisting _).
  destruct (registry_killExisting
              (stdoutWrite [Animated "thinking"]
                 (record {| tool := activeTool (setRequestInProgress true w);
                            role := user; content := message |}
                    (setRequestInProgress true w)))) as [Hr Ha].
  assert (conversationHistory w1
          = enforceHistoryLimit
              (conversationHistory w ++
               [{| tool := activeTool w; role := user; content := message |}]))
    as Hh.
  { unfold w1. by rewrite conversationHistory_killExisting. }
  fold w1 in Hr, Ha. cbn in Hr, Ha.
  cbn [conversationHistory setRequestInProgress].
  rewrite Hr, Ha.
  destruct (registry w !! activeTool w) as [adapter|].
  - destruct sent as [response|].
    + destruct (0 <? length response)%nat; cbn; by rewrite ?Ha, ?Hh.
    + cbn. by rewrite Hh.
  - cbn. by rewrite Hh.
Qed.

End History.

(** C9: every append to the history is followed by the loop that drops
    the oldest entries.  After a request, and after a detach that records
    the captured output, the history is the old one followed by the new
    messages, without the entries at its beginning that are over the
    limit; so it holds at most 1000 messages, the newest ones. *)
Theorem history_bounded (w : World) :
  let h := conversationHistory w in
  (∀ m,
     conversationHistory (record m w)
     = drop (length (h ++ [m]) - 1000) (h ++ [m]) ∧
     (length (conversationHistory (record m w)) ≤ 1000)%nat) ∧
  (∀ message sent,
     requestInProgress w = false →
     let u := {| tool := activeTool w; role := user; content := message |} in
     let after := conversationHistory (sendToTool message sent w) in
     (length after ≤ 1000)%nat ∧
     (∀ adapter response,
        registry w !! activeTool w = Some adapter → sent = Some response →
        let a := {| tool := activeTool w; role := assistant;
                    content := response |} in
        after = drop (length (h ++ [u; a]) - 1000) (h ++ [u; a])) ∧
     (registry w !! activeTool w = None ∨ sent = None →
      after = drop (length (h ++ [u]) - 1000) h)) ∧
  (∀ c,
     detached c = false →
     let after := conversationHistory (performDetach c w).2 in
     after = h ∨
     ∃ m, after = drop (length (h ++ [m]) - 1000) (h ++ [m]) ∧
          (length after ≤ 1000)%nat).
Proof.
  cbn zeta. split; [|split].
  - intros m. cbn. split.
    + apply enforceHistoryLimit_drop.
    + apply enforceHistoryLimit_length.
  - intros message sent Hreq. split; [by apply sendToTool_history|].
    rewrite (sendToTool_appends message sent w Hreq). cbn zeta. split.
    + intros adapter response -> ->. apply enforceHistoryLimit_twice.
    + intros Hfail.
      assert (∀ h1 : list Message,
                h1 = enforceHistoryLimit
                       (conversationHistory w ++
                        [{| tool := activeTool w; role := user;
                            content := message |}]) →
                take (length h1 - 1) h1
                = drop (length (conversationHistory w ++
                                [{| tool := activeTool w; role := user;
                                    content := message |}]) - 1000)
                    (conversationHistory w)) as Hpop.
      { intros h1 ->. rewrite enforceHistoryLimit_drop.
        change MAX_HISTORY_SIZE with 1000%nat.
        rewrite drop_app_le by (rewrite length_app; cbn; lia).
        rewrite length_app. cbn [length].
        by rewrite Nat.add_sub, take_app_length. }
      destruct (registry w !! activeTool w) as [adapter|];
        [destruct sent as [response|]|]; try (by apply Hpop).
      by destruct Hfail.
  - intros c Hd. rewrite performDetach_history by done.
    unfold captureResponse. repeat case_match; auto.
    right. eexists. split; [|cbn; apply enforceHistoryLimit_length].
    cbn. apply enforceHistoryLimit_drop.
Qed.

(** C10: the detach records the captured buffer exactly when the buffer is
    not empty, the active tool has an adapter and the cleaned text is
    longer than 20 characters. *)
Theorem detach_records_meaningful_output (c : Closure) (w : World) :
  detached c = false →
  let buffer := bufferOf (manager c) w in
  let after := conversationHistory (performDetach c w).2 in
  (∀ adapter,
     buffer ≠ [] →
     registry w !! activeTool w = Some adapter →
     (20 < length (cleanResponse adapter buffer))%nat →
     after = enforceHistoryLimit
               (conversationHistory w ++
                [{| tool := activeTool w; role := assistant;
                    content := cleanResponse adapter buffer |}])) ∧
  (buffer = [] ∨ registry w !! activeTool w = None ∨
   (∃ adapter, registry w !! activeTool w = Some adapter ∧
               (length (cleanResponse adapter buffer) ≤ 20)%nat) →
   after = conversationHistory w).
Proof.
  intros Hd. cbn zeta. rewrite performDetach_history by done.
  unfold captureResponse. split.
  - intros adapter Hne Hreg Hlen. rewrite Hreg.
    assert ((0 <? length (bufferOf (manager c) w))%nat = true) as ->.
    { apply Nat.ltb_lt. destruct (bufferOf (manager c) w); [done|cbn; lia]. }
    apply Nat.ltb_lt in Hlen. by rewrite Hlen.
  - intros [Hempty|[Hnone|(adapter & Hreg & Hlen)]].
    + by rewrite Hempty.
    + rewrite Hnone. by case_match.
    + rewrite Hreg. apply Nat.ltb_ge in Hlen. rewrite Hlen. by case_match.
Qed.

(** ** The registry of managers *)

Section Registry.

Lemma liveManager_Some t w r :
  liveManager t w = Some r ↔
  ptyManagers w !! t = Some r ∧ deadRef r w = false.
Proof.
  unfold liveManager. destruct (ptyManagers w !! t) as [r'|].
  - destruct (deadRef r' w) eqn:Hdead; split.
    + done.
    + intros [[= ->] ?]. congruence.
    + by intros [= ->].
    + by intros [[= ->] _].
  - split; [done|]. by intros [? _].
Qed.

Lemma liveManager_None t w :
  liveManager t w = None ↔
  ptyManagers w !! t = None ∨
  ∃ r, ptyManagers w !! t = Some r ∧ deadRef r w = true.
Proof.
  unfold liveManager. destruct (ptyManagers w !! t) as [r'|].
  - destruct (deadRef r' w) eqn:Hdead; split.
    + intros _. right. eauto.
    + done.
    + done.
    + intros [?|(r & [= ->] & ?)]; [done|congruence].
  - split; [by left|done].
Qed.

Lemma alter_last {A} (f : A → A) (l : list A) x :
  alter f (length l) (l ++ [x]) = l ++ [f x].
Proof. induction l as [|y l IH]; [done|]. cbn. by f_equal. Qed.

(** What a creation does to the session. *)
Lemma getOrCreateManager_create t wfr ok w a :
  liveManager t w = None → registry w !! t = Some a →
  let r := length (store w) in
  let w' := (getOrCreateManager t wfr ok w).2 in
  (getOrCreateManager t wfr ok w).1
    = (if ok then Ok r else Throw SpawnError) ∧
  ptyManagers w' = <[t := r]> (ptyManagers w) ∧
  store w' = store w ++ [spawn wfr ok (newManager (name a))] ∧
  launched w' = launched w ++ [(name a, wfr)] ∧
  registry w' = registry w ∧ activeTool w' = activeTool w ∧
  conversationHistory w' = conversationHistory w ∧ term w' = term w.
Proof.
  intros Hlive Hreg. unfold getOrCreateManager. rewrite Hlive, Hreg.
  cbn zeta. destruct ok; cbn; by rewrite alter_last.
Qed.

Lemma killExisting_live w r :
  liveManager (activeTool w) w = Some r →
  ptyManagers (killExisting w) = delete (activeTool w) (ptyManagers w) ∧
  store (killExisting w) = alter kill r (store w) ∧
  launched (killExisting w) = launched w.
Proof. intros Hlive. unfold killExisting. by rewrite Hlive. Qed.

End Registry.

(** C6: a live manager is reused as it is; without one, a tool that has an
    adapter gets a new manager, registered and launched; and after the
    kill of [sendToTool] the next call launches a new one. *)
Theorem getOrCreateManager_reuses_or_spawns (t : string)
    (waitForReady spawnOk : bool) (w : World) :
  (∀ r, ptyManagers w !! t = Some r → deadRef r w = false →
        getOrCreateManager t waitForReady spawnOk w = (Ok r, w)) ∧
  (∀ adapter,
     registry w !! t = Some adapter →
     ptyManagers w !! t = None ∨
     (∃ r, ptyManagers w !! t = Some r ∧ deadRef r w = true) →
     let fresh := length (store w) in
     let '(res, w') := getOrCreateManager t waitForReady spawnOk w in
     res = (if spawnOk then Ok fresh else Throw SpawnError) ∧
     ptyManagers w' !! t = Some fresh ∧
     store w !! fresh = None ∧
     store w' = store w ++
                [spawn waitForReady spawnOk (newManager (name adapter))] ∧
     launched w' = launched w ++ [(name adapter, waitForReady)]) ∧
  (∀ adapter r,
     registry w !! t = Some adapter → activeTool w = t →
     ptyManagers w !! t = Some r → deadRef r w = false →
     let w1 := killExisting w in
     ptyManagers w1 !! t = None ∧ deadRef r w1 = true ∧
     let '(res, w2) := getOrCreateManager t waitForReady spawnOk w1 in
     res = (if spawnOk then Ok (length (store w)) else Throw SpawnError) ∧
     ptyManagers w2 !! t = Some (length (store w)) ∧
     length (store w) ≠ r ∧
     launched w2 = launched w ++ [(name adapter, waitForReady)]).
Proof.
  split; [|split].
  - intros r Hpm Hdead. unfold getOrCreateManager.
    by rewrite (proj2 (liveManager_Some t w r)).
  - intros adapter Hreg Hnone%liveManager_None. cbn zeta.
    destruct (getOrCreateManager_create t waitForReady spawnOk w adapter)
      as (Hres & Hpm & Hst & Hla & _); try done.
    destruct (getOrCreateManager t waitForReady spawnOk w) as [res w'].
    cbn [fst snd] in *. repeat split; try done.
    + rewrite Hpm. apply lookup_insert_eq.
    + by apply lookup_ge_None_2.
  - intros adapter r Hreg Hact Hpm Hdead. cbn zeta.
    assert (liveManager (activeTool w) w = Some r) as Hlive
      by (rewrite Hact; by apply liveManager_Some).
    destruct (killExisting_live w r Hlive) as (Hpm1 & Hst1 & Hla1).
    assert (is_Some (store w !! r)) as [m Hm].
    { unfold deadRef in Hdead. by destruct (store w !! r). }
    assert (ptyManagers (killExisting w) !! t = None) as Hgone
      by (rewrite Hpm1, Hact; apply lookup_delete_eq).
    split; [done|]. split.
    { unfold deadRef. rewrite Hst1, list_lookup_alter_eq, Hm. done. }
    destruct (getOrCreateManager_create t waitForReady spawnOk
                (killExisting w) adapter)
      as (Hres & Hpm2 & Hst2 & Hla2 & _).
    { apply liveManager_None. by left. }
    { by rewrite (proj1 (registry_killExisting w)). }
    destruct (getOrCreateManager t waitForReady spawnOk (killExisting w))
      as [res w2].
    cbn [fst snd] in *. rewrite Hst1, length_alter in *.
    repeat split; try done.
    + rewrite Hpm2. apply lookup_insert_eq.
    + apply lookup_lt_Some in Hm. lia.
    + by rewrite Hla2, Hla1.
Qed.

(** ** Re-attaching *)

Section Reattach.

Lemma enterInteractiveMode_begin_live ok w r :
  liveManager (activeTool w) w = Some r → attachedRef r w = false →
  enterInteractiveMode_begin ok w
  = (Ok {| pManager := r; pToolName := toolNameOf w;
           isFirstLaunch := false; isReattach := true |},
     stdoutWrite [Animated "Entering Interactive Mode"] (setRl false w)).
Proof.
  intros Hlive Hatt. unfold enterInteractiveMode_begin, getOrCreateManager.
  rewrite Hlive. apply liveManager_Some in Hlive as [Hpm Hdead].
  rewrite Hpm. cbn [from_option]. by rewrite Hatt, Hdead.
Qed.

Lemma ptyData_detached cap r chunk w :
  attachedRef r w = false →
  stdout (term (ptyData cap r chunk w)) = stdout (term w).
Proof. intros Hatt. unfold ptyData. by rewrite Hatt. Qed.

Lemma ptyData_attached cap r chunk w :
  attachedRef r w = true → deadRef r w = false →
  stdout (term (ptyData cap r chunk w)) = stdout (term w) ++ [Echoed chunk].
Proof. intros Hatt Hdead. unfold ptyData. by rewrite Hatt, Hdead. Qed.

Lemma runInteractiveSession_frame r tn w :
  stdout (term (runInteractiveSession r tn w).2) = stdout (term w) ∧
  store (runInteractiveSession r tn w).2 = store w.
Proof.
  open_world w; unfold runInteractiveSession; crush_world.
Qed.

Lemma runInteractiveSession_ok r tn w m :
  store w !! r = Some m → isDead m = false →
  ∃ c, (runInteractiveSession r tn w).1 = Ok c ∧ manager c = r ∧
       detached c = false ∧ cleanedUp c = false ∧ resolved c = false.
Proof.
  intros Hm Hlive. unfold runInteractiveSession, hasPty.
  rewrite Hm. cbn [from_option]. rewrite Hlive. cbn [negb].
  eexists. split; [done|]. done.
Qed.

(** The path of [enterInteractiveMode] when the manager is re-attached
    with something in its buffer. *)
Lemma enterInteractiveMode_resume_reattach p w :
  isReattach p = true → bufferOf (pManager p) w ≠ [] →
  enterInteractiveMode_resume p w
  = runInteractiveSession (pManager p) (pToolName p)
      (onManager (pManager p) attach
         (stdoutWrite [ Wrote NEWLINE; Logged (NReattaching (pToolName p));
                  Wrote CLEAR_SCREEN;
                  Wrote (stripFocus id (bufferOf (pManager p) w));
                  Logged NDetachHint ] w)).
Proof.
  intros Hre Hbuf. unfold enterInteractiveMode_resume. rewrite Hre.
  change (bufferOf (pManager p) (stdoutWrite [Wrote NEWLINE] w))
    with (bufferOf (pManager p) w).
  assert ((0 <? length (bufferOf (pManager p) w))%nat = true) as ->.
  { apply Nat.ltb_lt. destruct (bufferOf (pManager p) w); [done|cbn; lia]. }
  cbn [andb]. f_equal. f_equal.
  destruct w as [? ? ? ? ? ? ? ? []]. unfold stdoutWrite. cbn.
  by rewrite <- !app_assoc.
Qed.

End Reattach.

(** Re-attaching with [/i] to a live manager that has buffered output
    clears the screen and writes what the two passes leave of the buffer,
    in which no character of a report they found is left; the manager is
    attached, and its output shown, only after that. *)
Lemma reattach_replays_buffer (spawnOk : bool) (w : World) (r : nat) :
  liveManager (activeTool w) w = Some r → attachedRef r w = false →
  ∃ p w1,
    enterInteractiveMode_begin spawnOk w = (Ok p, w1) ∧
    pManager p = r ∧ store w1 = store w ∧ launched w1 = launched w ∧
    ∀ w2, bufferOf r w2 ≠ [] →
      let '(res, w3) := enterInteractiveMode_resume p w2 in
      stdout (term w3)
      = stdout (term w2) ++
        [ Wrote NEWLINE; Logged (NReattaching (pToolName p));
          Wrote CLEAR_SCREEN; Wrote (stripFocus id (bufferOf r w2));
          Logged NDetachHint ] ∧
      (∀ pre seq post,
         bufferOf r w2 = pre ++ seq ++ post →
         seq = FOCUS_IN_SEQ ∨ seq = FOCUS_OUT_SEQ →
         let m := stripFocus snd (marked false pre ++ marked true seq ++
                                  marked false post) in
         (snd <$> m) = stripFocus id (bufferOf r w2) ∧
         Forall (λ x, x.1 = false) m) ∧
      (∀ cap chunk, attachedRef r w2 = false →
         stdout (term (ptyData cap r chunk w2)) = stdout (term w2)) ∧
      (deadRef r w2 = false →
       attachedRef r w3 = true ∧ ∃ c, res = Ok c ∧ manager c = r).
Proof.
  intros Hlive Hatt. eexists _, _.
  split; [by apply enterInteractiveMode_begin_live|].
  cbn [pManager pToolName]. repeat split; try done.
  intros w2 Hbuf.
  rewrite enterInteractiveMode_resume_reattach by done.
  cbn [pManager pToolName].
  set (w' := onManager r attach _).
  destruct (runInteractiveSession r (toolNameOf w) w') as [res w3] eqn:Hres.
  pose proof (runInteractiveSession_frame r (toolNameOf w) w') as [Hout Hst].
  rewrite Hres in Hout, Hst. cbn [snd] in Hout, Hst.
  split; [|split; [|split]].
  - rewrite Hout. unfold w'. by open_world w2.
  - intros pre seq post Heq Hseq. cbn zeta. split.
    + by rewrite stripFocus_fmap, !fmap_app, !marked_snd, Heq.
    + apply stripFocus_drops_report; rewrite ?marked_snd;
        first [done | apply marked_fst].
  - intros. by apply ptyData_detached.
  - intros Hdead. unfold deadRef in Hdead.
    destruct (store w2 !! r) as [m|] eqn:Hm; [|done]. cbn in Hdead.
    assert (store w' !! r = Some (attach m)) as Hm'.
    { unfold w'. cbn. by rewrite list_lookup_alter_eq, Hm. }
    assert (isDead (attach m) = false) as Hlive'.
    { unfold attach. rewrite Hdead. done. }
    split.
    + unfold attachedRef. rewrite Hst, Hm'. cbn. unfold attach.
      by rewrite Hdead.
    + destruct (runInteractiveSession_ok r (toolNameOf w) w' _ Hm' Hlive')
        as (c & Hc & Hmc & _).
      rewrite Hres in Hc. cbn in Hc. eauto.
Qed.


Section Frames.
Implicit Types (w : World) (r : nat).

Lemma attachedRef_attachedIn r w : attachedRef r w = attachedIn (store w) r.
Proof. reflexivity. Qed.

Lemma Frame_refl w : Frame w w.
Proof. split; auto. Qed.

Lemma Frame_trans w1 w2 w3 : Frame w1 w2 → Frame w2 w3 → Frame w1 w3.
Proof.
  intros [Hr1 Hm1 Ha1] [Hr2 Hm2 Ha2]. split.
  - congruence.
  - intros t r H. destruct (Hm2 t r H) as [H'|H'].
    + by apply Hm1.
    + right. by rewrite <- Hr1.
  - intros r. by rewrite Ha2, Ha1.
Qed.

(** A frame that needs only the three fields. *)
Lemma Frame_same w w' :
  registry w' = registry w → ptyManagers w' = ptyManagers w →
  store w' = store w → Frame w w'.
Proof. intros Hr Hp Hs. split; [done| |]; rewrite ?Hp, ?Hs; auto. Qed.

Lemma attachedIn_alter (f : Manager → Manager) st r' r :
  (∀ m, attached (f m) = attached m) →
  attachedIn (alter f r' st) r = attachedIn st r.
Proof.
  intros Hf. unfold attachedIn. rewrite list_lookup_alter.
  case_decide; [|done]. subst. destruct (st !! r); cbn; auto.
Qed.

Lemma Frame_onManager (f : Manager → Manager) r w :
  (∀ m, attached (f m) = attached m) → Frame w (onManager r f w).
Proof.
  intros Hf. split; cbn; auto. intros r'. by apply attachedIn_alter.
Qed.

Lemma attached_kill m : attached (kill m) = attached m.
Proof. done. Qed.
Lemma attached_exited m : attached (exited m) = attached m.
Proof. done. Qed.
Lemma attached_write s m : attached (write s m) = attached m.
Proof. unfold write. by case_match. Qed.
Lemma attached_onData cap s m : attached (onData cap s m) = attached m.
Proof. unfold onData. by case_match. Qed.
Lemma attached_spawn a b m : attached (spawn a b m) = attached m.
Proof. done. Qed.

Lemma Frame_stdoutWrite o w : Frame w (stdoutWrite o w).
Proof. by apply Frame_same. Qed.

Lemma Frame_debugTrace data c w : Frame w (debugTrace data c w).
Proof. unfold debugTrace. case_match; [apply Frame_stdoutWrite|apply Frame_refl]. Qed.

Lemma Frame_killExisting w : Frame w (killExisting w).
Proof.
  unfold killExisting. destruct (liveManager (activeTool w) w) as [r|];
    [|apply Frame_refl].
  split; cbn; auto.
  - intros t r' H. left. apply lookup_delete_Some in H. tauto.
  - intros r'. apply attachedIn_alter, attached_kill.
Qed.

Lemma Frame_sendToTool message sent w : Frame w (sendToTool message sent w).
Proof.
  unfold sendToTool. destruct (requestInProgress w); [apply Frame_stdoutWrite|].
  cbn zeta. set (w0 := stdoutWrite _ _).
  eapply (Frame_trans _ (killExisting w0)).
  { eapply Frame_trans; [|apply Frame_killExisting]. by apply Frame_same. }
  destruct (registry (killExisting w0) !! activeTool (killExisting w0));
    [destruct sent as [response|];
     [destruct (0 <? length response)%nat|]|];
    by apply Frame_same.
Qed.

Lemma attachedIn_app_new st m r :
  attached m = false → attachedIn (st ++ [m]) r = attachedIn st r.
Proof.
  intros Hm. unfold attachedIn.
  destruct (decide (r < length st)%nat) as [Hlt|Hge].
  - by rewrite lookup_app_l.
  - rewrite lookup_app_r by lia. rewrite (lookup_ge_None_2 st) by lia.
    by destruct (r - length st)%nat as [|k].
Qed.

Lemma Frame_getOrCreateManager t wfr ok w :
  Frame w (getOrCreateManager t wfr ok w).2.
Proof.
  destruct (liveManager t w) as [r|] eqn:Hlive.
  - unfold getOrCreateManager. rewrite Hlive. apply Frame_refl.
  - destruct (registry w !! t) as [a|] eqn:Hreg.
    + destruct (getOrCreateManager_create t wfr ok w a Hlive Hreg)
        as (_ & Hpm & Hst & _ & Hr & _).
      split; [done| |].
      * intros t' r'. rewrite Hpm. intros H.
        apply lookup_insert_Some in H as [[<- _]|[_ H]]; [right|by left].
        by rewrite Hreg.
      * intros r'. rewrite Hst. by apply attachedIn_app_new.
    + unfold getOrCreateManager. rewrite Hlive, Hreg. apply Frame_refl.
Qed.

Lemma Frame_begin ok w : Frame w (enterInteractiveMode_begin ok w).2.
Proof.
  unfold enterInteractiveMode_begin.
  pose proof (Frame_getOrCreateManager (activeTool w) false ok w) as HF.
  destruct (getOrCreateManager (activeTool w) false ok w) as [[r|e] w1];
    cbn [snd] in *; [|done].
  eapply Frame_trans; [exact HF|]. by apply Frame_same.
Qed.

Lemma Frame_ptyData cap r chunk w : Frame w (ptyData cap r chunk w).
Proof.
  unfold ptyData. eapply Frame_trans;
    [|apply Frame_onManager; intros; apply attached_onData].
  case_match; [apply Frame_stdoutWrite|apply Frame_refl].
Qed.

Lemma Frame_ptyExit r code w : Frame w (ptyExit r code w).
Proof.
  unfold ptyExit. case_match; [apply Frame_refl|].
  eapply Frame_trans; [apply Frame_stdoutWrite|].
  apply Frame_onManager. intros. apply attached_exited.
Qed.

Lemma killAll_fold w :
  let f := λ (t : string) (r : nat) (w : World),
             if negb (deadRef r w)
             then onManager r kill (stdoutWrite [Logged (NStopping t)] w) else w in
  Frame w (map_fold f w (ptyManagers w)).
Proof.
  cbn zeta. generalize (ptyManagers w). intros pm.
  apply (map_fold_weak_ind (λ w' _, Frame w w')); [apply Frame_refl|].
  intros t r m w' _ HF. eapply Frame_trans; [exact HF|].
  case_match; [|apply Frame_refl].
  eapply Frame_trans; [apply Frame_stdoutWrite|].
  apply Frame_onManager. intros. apply attached_kill.
Qed.

Lemma Frame_killAll w : Frame w (killAll w).
Proof.
  unfold killAll. destruct (killAll_fold w) as [Hr _ Ha].
  split; cbn; [done| |done].
  intros t r H. by rewrite lookup_empty in H.
Qed.

End Frames.

Section Invariant.
Context (reg : gmap string Adapter).
Implicit Types (w : World) (s : System).

Lemma Known_Frame w w' : Frame w w' → Known reg w → Known reg w'.
Proof.
  intros [Hr Hm _] [Hreg Hk]. split; [congruence|].
  intros t r H. destruct (Hm t r H) as [H'|H']; [by eapply Hk|].
  by rewrite <- Hreg.
Qed.

Lemma noneAttached_Frame w w' : Frame w w' → noneAttached w → noneAttached w'.
Proof.
  intros [_ _ Ha] Hn r. rewrite attachedRef_attachedIn, Ha. apply Hn.
Qed.

Lemma onlyAttached_Frame r0 w w' :
  Frame w w' → onlyAttached r0 w → onlyAttached r0 w'.
Proof.
  intros [_ _ Ha] Hn r. rewrite attachedRef_attachedIn, Ha. apply Hn.
Qed.

Lemma noneAttached_only r0 w : noneAttached w → onlyAttached r0 w.
Proof. intros Hn r Hr. by rewrite Hn in Hr. Qed.

(** [manager.attach()] followed by [runInteractiveSession]: either the
    session starts, bridging exactly that manager, or there is no
    process to bridge and nothing is attached. *)
Lemma Frame_runInteractiveSession r tn w :
  Frame w (runInteractiveSession r tn w).2.
Proof.
  open_world w; unfold runInteractiveSession; case_match;
    by apply Frame_same.
Qed.

Lemma runInteractiveSession_inv r tn w :
  match (runInteractiveSession r tn w).1 with
  | Ok c => manager c = r ∧ detached c = false ∧ resolved c = false ∧
            cleanedUp c = false
  | Throw _ => from_option hasPty false (store w !! r) = false
  end.
Proof.
  unfold runInteractiveSession.
  destruct (from_option hasPty false (store w !! r)); by cbn.
Qed.

Lemma attach_then_run r tn w :
  Known reg w → noneAttached w →
  match runInteractiveSession r tn (onManager r attach w) with
  | (Ok c, w') =>
      Known reg w' ∧ manager c = r ∧ detached c = false ∧
      resolved c = false ∧ onlyAttached r w'
  | (Throw _, w') => Known reg w' ∧ noneAttached w'
  end.
Proof.
  intros Hk Hn. set (w1 := onManager r attach w).
  assert (Known reg w1) as Hk1 by exact Hk.
  pose proof (Frame_runInteractiveSession r tn w1) as HF.
  pose proof (runInteractiveSession_inv r tn w1) as Hinv.
  destruct (runInteractiveSession r tn w1) as [[c|e] w']; cbn [fst snd] in *.
  - destruct Hinv as (? & ? & ? & _).
    split; [by apply (Known_Frame w1)|]. repeat split; try done.
    apply (onlyAttached_Frame _ w1); [done|].
    intros r' Hr'. unfold w1 in Hr'. rewrite attachedRef_onManager in Hr'.
    case_decide; [done|]. by rewrite Hn in Hr'.
  - split; [by apply (Known_Frame w1)|].
    apply (noneAttached_Frame w1); [done|].
    intros r'. unfold w1. rewrite attachedRef_onManager.
    case_decide; [|apply Hn]. subst r'.
    specialize (Hn r). unfold attachedRef in Hn.
    assert (store w1 !! r = attach <$> store w !! r) as Hst
      by (unfold w1; cbn; apply list_lookup_alter_eq).
    rewrite Hst in Hinv.
    destruct (store w !! r) as [m|]; [|done]. cbn in *.
    unfold hasPty, attach in *. by destruct (isDead m) eqn:Hd.
Qed.

Lemma resume_shape p w :
  ∃ w0, Frame w w0 ∧
        enterInteractiveMode_resume p w
        = runInteractiveSession (pManager p) (pToolName p)
            (onManager (pManager p) attach w0).
Proof.
  unfold enterInteractiveMode_resume.
  destruct (isReattach p && _); [|destruct (isFirstLaunch p)];
    eexists; (split; [|reflexivity]);
    repeat (eapply Frame_trans; [|apply Frame_stdoutWrite]); apply Frame_refl.
Qed.

Lemma performDetach_known c w :
  registry (performDetach c w).2 = registry w ∧
  ptyManagers (performDetach c w).2 = ptyManagers w.
Proof.
  open_world w; open_closure c;
    unfold performDetach, captureResponse, bufferOf; crush_world.
Qed.

Lemma Inv_handle cmd w :
  Known reg w → noneAttached w → Inv reg (handle cmd w).
Proof.
  intros Hk Hn. destruct cmd as [message sent|ok|ok|t|]; cbn [handle].
  - pose proof (Frame_sendToTool message sent w) as HF.
    destruct (Known_Frame _ _ HF Hk). repeat split; try done;
      by apply (noneAttached_Frame w).
  - pose proof (Frame_begin ok w) as HF.
    destruct (enterInteractiveMode_begin ok w) as [[p|e] w1];
      cbn [snd] in HF; destruct (Known_Frame _ _ HF Hk);
      repeat split; try done; by apply (noneAttached_Frame w).
  - unfold enterInteractiveModeWith.
    pose proof (Frame_getOrCreateManager (activeTool w) false ok w) as HF.
    destruct (getOrCreateManager (activeTool w) false ok w) as [[r|e] w1];
      cbn [snd] in HF.
    + set (w2 := stdoutWrite _ (setRl false w1)).
      assert (Frame w w2) as HF2
        by (eapply Frame_trans; [exact HF|by apply Frame_same]).
      pose proof (attach_then_run r (toolNameOf w) w2
                    (Known_Frame _ _ HF2 Hk)
                    (noneAttached_Frame _ _ HF2 Hn)) as Hrun.
      destruct (runInteractiveSession r (toolNameOf w)
                  (onManager r attach w2)) as [[c|e] w3].
      * destruct Hrun as ([? ?] & <- & ? & ? & ?). by repeat split.
      * destruct Hrun as ([? ?] & ?). by repeat split.
    + destruct (Known_Frame _ _ HF Hk). repeat split; try done;
        by apply (noneAttached_Frame w).
  - assert (Frame w (stdoutWrite [Logged (NSwitched t)] (setActiveTool t w))) as HF
      by (by apply Frame_same).
    destruct (Known_Frame _ _ HF Hk). repeat split; try done;
      by apply (noneAttached_Frame w).
  - assert (Frame w (stdoutWrite [Logged NCleared] (setHistory [] (killAll w))))
      as HF.
    { eapply Frame_trans; [apply Frame_killAll|by apply Frame_same]. }
    destruct (Known_Frame _ _ HF Hk). repeat split; try done;
      by apply (noneAttached_Frame w).
Qed.

Lemma Inv_frame s w' :
  Inv reg s → Frame (world s) w' → Inv reg {| world := w'; mode := mode s |}.
Proof.
  intros (Hreg & Hkn & Hmode) HF.
  destruct (Known_Frame _ _ HF (conj Hreg Hkn)) as [? ?].
  repeat split; try done. cbn [mode world].
  destruct (mode s) as [|p|c|];
    try (by apply (noneAttached_Frame (world s))).
  destruct Hmode as (? & ? & ?). repeat split; try done.
  by apply (onlyAttached_Frame _ (world s)).
Qed.

Lemma Inv_step cap s e : Inv reg s → Inv reg (step cap s e).
Proof.
  intros HI. pose proof HI as (Hreg & Hkn & Hmode).
  destruct s as [w m]. cbn [world mode] in *.
  destruct e as [cmd| |now data|r chunk|r code]; cbn [step mode world].
  - destruct m; try done. by apply Inv_handle.
  - destruct m as [|p|c|]; try done.
    destruct (resume_shape p w) as (w0 & HF & ->).
    pose proof (attach_then_run (pManager p) (pToolName p) w0
                  (Known_Frame _ _ HF (conj Hreg Hkn))
                  (noneAttached_Frame _ _ HF Hmode)) as Hrun.
    destruct (runInteractiveSession _ _ _) as [[c|e] w3].
    + destruct Hrun as ([? ?] & <- & ? & ? & ?). by repeat split.
    + destruct Hrun as ([? ?] & ?). by repeat split.
  - destruct m as [|p|c|]; try done.
    destruct Hmode as (Hd & Hres & Honly).
    pose proof (Frame_debugTrace data c w) as HF0.
    destruct (onStdinData_cases now data c w) as [H|[H|(_ & t & H)]];
      rewrite H.
    + rewrite Hres. apply (Inv_frame {| world := w; mode := Interactive c |});
        [done|exact HF0].
    + destruct (performDetach_closure c (debugTrace data c w) Hd)
        as (_ & Hres' & _).
      destruct (performDetach_known c (debugTrace data c w)) as [Hr' Hp'].
      pose proof (performDetach_store c (debugTrace data c w) Hd) as Hst'.
      destruct (performDetach c (debugTrace data c w)) as [c' w'].
      cbn [fst snd] in *. rewrite Hres'.
      destruct (Known_Frame _ _ HF0 (conj Hreg Hkn)) as [Hreg0 Hkn0].
      repeat split; cbn [world mode].
      * congruence.
      * intros t' r'. rewrite Hp'. apply Hkn0.
      * intros r'. unfold attachedRef. rewrite Hst', list_lookup_alter.
        case_decide as Heq.
        -- by destruct (store (debugTrace data c w) !! manager c).
        -- destruct (from_option isUserAttached false
                       (store (debugTrace data c w) !! r')) eqn:Hatt;
             [|done].
           exfalso. apply Heq. symmetry.
           apply (onlyAttached_Frame _ _ _ HF0 Honly). exact Hatt.
    + cbn [resolved setLastEscapeTime]. rewrite Hres.
      assert (Frame w (onManager (manager c)
                         (write (stripInput id (toString data)))
                         (debugTrace data c w))) as HF.
      { eapply Frame_trans; [exact HF0|].
        apply Frame_onManager. intros. apply attached_write. }
      apply (Inv_frame {| world := w;
                          mode := Interactive (setLastEscapeTime t c) |});
        [|exact HF].
      repeat split; try done.
  - apply (Inv_frame {| world := w; mode := m |}); [done|].
    apply Frame_ptyData.
  - apply (Inv_frame {| world := w; mode := m |}); [done|].
    apply Frame_ptyExit.
Qed.

Lemma Inv_initial t tty dbg : Inv reg (initial reg t tty dbg).
Proof.
  repeat split; cbn; try done.
Qed.

Lemma Inv_run cap events : ∀ s, Inv reg s → Inv reg (run cap s events).
Proof.
  induction events as [|e events IH]; intros s HI; [done|].
  cbn. apply IH. by apply Inv_step.
Qed.

End Invariant.

(** C5: whatever the prompt, the terminal and the subprocesses do, at most
    one manager is attached; none is while the prompt has control. *)
Theorem at_most_one_attached (cap : nat) (reg : gmap string Adapter)
    (t : string) (tty dbg : bool) (events : list Event) :
  let s := run cap (initial reg t tty dbg) events in
  (∀ r1 r2, attachedRef r1 (world s) = true →
            attachedRef r2 (world s) = true → r1 = r2) ∧
  (∀ t1 t2 r1 r2,
     ptyManagers (world s) !! t1 = Some r1 →
     ptyManagers (world s) !! t2 = Some r2 →
     attachedRef r1 (world s) = true → attachedRef r2 (world s) = true →
     r1 = r2) ∧
  (mode s = Prompt → ∀ r, attachedRef r (world s) = false) ∧
  (∀ c, mode s = Interactive c →
        detached c = false ∧
        ∀ r, attachedRef r (world s) = true → r = manager c).
Proof.
  cbn zeta.
  destruct (Inv_run reg cap events _ (Inv_initial reg t tty dbg))
    as (_ & _ & Hmode).
  set (s := run cap _ events) in *.
  assert (∀ r1 r2, attachedRef r1 (world s) = true →
            attachedRef r2 (world s) = true → r1 = r2) as Hone.
  { intros r1 r2 H1 H2. destruct (mode s) as [|p|c|];
      try (by rewrite Hmode in H1).
    destruct Hmode as (_ & _ & Honly).
    by rewrite (Honly r1 H1), (Honly r2 H2). }
  repeat split.
  - exact Hone.
  - intros t1 t2 r1 r2 _ _. apply Hone.
  - intros Hp. by rewrite Hp in Hmode.
  - rewrite H in Hmode. tauto.
  - rewrite H in Hmode. tauto.
Qed.

(** C8: a tool without an adapter gets the unknown-tool error, and the
    session is left as it was. *)
Theorem unknown_tool_fails (cap : nat) (reg : gmap string Adapter)
    (t0 : string) (tty dbg : bool) (events : list Event)
    (t : string) (waitForReady spawnOk : bool) :
  reg !! t = None →
  let w := world (run cap (initial reg t0 tty dbg) events) in
  getOrCreateManager t waitForReady spawnOk w = (Throw (UnknownTool t), w).
Proof.
  intros Hnone. cbn zeta.
  destruct (Inv_run reg cap events _ (Inv_initial reg t0 tty dbg))
    as (Hreg & Hkn & _).
  set (w := world _) in *.
  unfold getOrCreateManager.
  assert (liveManager t w = None) as ->.
  { apply liveManager_None.
    destruct (ptyManagers w !! t) as [r|] eqn:Hpm; [|by left].
    destruct (Hkn t r Hpm) as [a Ha]. congruence. }
  by rewrite Hreg, Hnone.
Qed.

(** ** Raw mode

    [rawMode] follows the calls of [setRawMode] the session makes itself:
    on a TTY, [true] when an interactive session begins and [false] in
    its [cleanup].  What readline does with the terminal while it is
    open is not in the sources and not in this flag. *)

Section RawMode.
Implicit Types (w : World) (s : System).

Lemma SameRaw_refl w : SameRaw w w.
Proof. by split. Qed.

Lemma SameRaw_trans w1 w2 w3 : SameRaw w1 w2 → SameRaw w2 w3 → SameRaw w1 w3.
Proof. intros [? ?] [? ?]. split; congruence. Qed.

Lemma SameRaw_term w w' : term w' = term w → SameRaw w w'.
Proof. intros H. unfold SameRaw. by rewrite H. Qed.

Lemma SameRaw_stdoutWrite o w : SameRaw w (stdoutWrite o w).
Proof. by split. Qed.

Lemma SameRaw_onManager r f w : SameRaw w (onManager r f w).
Proof. by split. Qed.

Lemma SameRaw_debugTrace data c w : SameRaw w (debugTrace data c w).
Proof. unfold debugTrace. by case_match. Qed.

Lemma SameRaw_killExisting w : SameRaw w (killExisting w).
Proof. unfold killExisting. by case_match. Qed.

Lemma SameRaw_sendToTool message sent w : SameRaw w (sendToTool message sent w).
Proof.
  unfold sendToTool. destruct (requestInProgress w); [done|].
  cbn zeta. set (w0 := stdoutWrite _ _).
  eapply (SameRaw_trans _ (killExisting w0)).
  { eapply SameRaw_trans; [|apply SameRaw_killExisting]. done. }
  destruct (registry (killExisting w0) !! activeTool (killExisting w0));
    [destruct sent as [response|];
     [destruct (0 <? length response)%nat|]|];
    done.
Qed.

Lemma SameRaw_getOrCreateManager t wfr ok w :
  SameRaw w (getOrCreateManager t wfr ok w).2.
Proof.
  unfold getOrCreateManager. repeat case_match; done.
Qed.

Lemma SameRaw_begin ok w : SameRaw w (enterInteractiveMode_begin ok w).2.
Proof.
  unfold enterInteractiveMode_begin.
  pose proof (SameRaw_getOrCreateManager (activeTool w) false ok w) as HS.
  destruct (getOrCreateManager (activeTool w) false ok w) as [[r|e] w1];
    cbn [snd] in *; [|done].
  eapply SameRaw_trans; [exact HS|done].
Qed.

Lemma SameRaw_ptyData cap r chunk w : SameRaw w (ptyData cap r chunk w).
Proof. unfold ptyData. by case_match. Qed.

Lemma SameRaw_ptyExit r code w : SameRaw w (ptyExit r code w).
Proof. unfold ptyExit. by case_match. Qed.

Lemma SameRaw_killAll w : SameRaw w (killAll w).
Proof.
  unfold killAll. cbn [term setManagers]. generalize (ptyManagers w). intros pm.
  apply (map_fold_weak_ind (λ w' _, SameRaw w w')); [apply SameRaw_refl|].
  intros t r m w' _ HS. eapply SameRaw_trans; [exact HS|]. by case_match.
Qed.

(** [runInteractiveSession] enters raw mode on a TTY when it starts. *)
Lemma runInteractiveSession_raw r tn w :
  match runInteractiveSession r tn w with
  | (Ok c, w') =>
      detached c = false ∧ resolved c = false ∧ cleanedUp c = false ∧
      isTTY (term w') = isTTY (term w) ∧
      rawMode (term w') = (if isTTY (term w) then true else rawMode (term w))
  | (Throw _, w') => SameRaw w w'
  end.
Proof.
  unfold runInteractiveSession.
  destruct (negb (from_option hasPty false (store w !! r))); [by split|].
  by destruct w as [? ? ? ? ? ? ? ? [[] ? ? ? ? ?]].
Qed.

Lemma attach_then_run_raw r tn w0 w :
  SameRaw w0 w → rawMode (term w0) = false →
  RawInv (match runInteractiveSession r tn (onManager r attach w) with
          | (Ok c, w') => {| world := w'; mode := Interactive c |}
          | (Throw _, w') => {| world := w'; mode := Halted |}
          end).
Proof.
  intros [Hraw Htty] H0.
  pose proof (runInteractiveSession_raw r tn (onManager r attach w)) as Hrun.
  destruct (runInteractiveSession r tn (onManager r attach w)) as [[c|e] w'].
  - destruct Hrun as (? & ? & ? & Ht & Hr). unfold RawInv. cbn [mode world].
    repeat split; try done. rewrite Hr, Ht. cbn [term onManager setStore].
    destruct (isTTY (term w)); [done|]. congruence.
  - destruct Hrun as [Hr _]. unfold RawInv. cbn [mode world].
    rewrite Hr. cbn. congruence.
Qed.

Lemma resume_shape_raw p w :
  ∃ w0, SameRaw w w0 ∧
        enterInteractiveMode_resume p w
        = runInteractiveSession (pManager p) (pToolName p)
            (onManager (pManager p) attach w0).
Proof.
  unfold enterInteractiveMode_resume.
  destruct (isReattach p && _); [|destruct (isFirstLaunch p)];
    eexists; (split; [|reflexivity]); done.
Qed.

Lemma RawInv_same s w' :
  RawInv s → SameRaw (world s) w' → RawInv {| world := w'; mode := mode s |}.
Proof.
  unfold RawInv. intros HI [Hr Ht]. cbn [mode world].
  destruct (mode s); rewrite ?Hr, ?Ht; done.
Qed.

Lemma RawInv_handle cmd w :
  rawMode (term w) = false → RawInv (handle cmd w).
Proof.
  intros H0. destruct cmd as [message sent|ok|ok|t|]; cbn [handle].
  - destruct (SameRaw_sendToTool message sent w) as [Hr _].
    unfold RawInv. cbn. congruence.
  - pose proof (SameRaw_begin ok w) as [Hr _].
    destruct (enterInteractiveMode_begin ok w) as [[p|e] w1];
      unfold RawInv; cbn in *; congruence.
  - unfold enterInteractiveModeWith.
    pose proof (SameRaw_getOrCreateManager (activeTool w) false ok w) as HS.
    destruct (getOrCreateManager (activeTool w) false ok w) as [[r|e] w1];
      cbn [snd] in HS.
    + apply (attach_then_run_raw r (toolNameOf w) w); [|done].
      eapply SameRaw_trans; [exact HS|done].
    + destruct HS as [Hr _]. unfold RawInv. cbn. congruence.
  - done.
  - destruct (SameRaw_killAll w) as [Hr _]. unfold RawInv. cbn in *. congruence.
Qed.

Lemma RawInv_step cap s e : RawInv s → RawInv (step cap s e).
Proof.
  intros HI. destruct s as [w m].
  destruct e as [cmd| |now data|r chunk|r code]; cbn [step mode world].
  - destruct m; try done. by apply RawInv_handle.
  - destruct m as [|p|c|]; try done.
    destruct (resume_shape_raw p w) as (w0 & HS & ->).
    by apply (attach_then_run_raw _ _ w).
  - destruct m as [|p|c|]; try done.
    destruct HI as (Hd & Hres & Hcl & Hraw). cbn [world] in Hraw.
    pose proof (SameRaw_debugTrace data c w) as [Hr0 Ht0].
    destruct (onStdinData_cases now data c w) as [H|[H|(_ & t & H)]];
      rewrite H.
    + rewrite Hres. unfold RawInv. cbn [mode world]. by rewrite Hr0, Ht0.
    + destruct (performDetach_closure c (debugTrace data c w) Hd)
        as (_ & Hres' & _).
      destruct (performDetach_term c (debugTrace data c w) Hd Hcl)
        as (Hr' & _).
      destruct (performDetach c (debugTrace data c w)) as [c' w'].
      cbn [fst snd] in *. rewrite Hres'. unfold RawInv. cbn [mode world].
      rewrite Hr', Ht0, Hr0, Hraw. by destruct (isTTY (term w)).
    + cbn [resolved setLastEscapeTime]. rewrite Hres.
      unfold RawInv. cbn [mode world]. cbn. by rewrite Hr0, Ht0.
  - apply (RawInv_same {| world := w; mode := m |}); [done|].
    apply SameRaw_ptyData.
  - apply (RawInv_same {| world := w; mode := m |}); [done|].
    apply SameRaw_ptyExit.
Qed.

Lemma RawInv_run cap events : ∀ s, RawInv s → RawInv (run cap s events).
Proof.
  induction events as [|e events IH]; intros s HI; [done|].
  cbn. apply IH. by apply RawInv_step.
Qed.

(** As far as the session's own calls go, raw mode is off whenever the
    prompt has control, whatever happened before. *)
Lemma raw_mode_off_at_prompt cap reg t tty dbg events :
  let s := run cap (initial reg t tty dbg) events in
  match mode s with
  | Interactive c =>
      cleanedUp c = false ∧ rawMode (term (world s)) = isTTY (term (world s))
  | _ => rawMode (term (world s)) = false
  end.
Proof.
  cbn zeta. pose proof (RawInv_run cap events (initial reg t tty dbg) eq_refl)
    as HI.
  unfold RawInv in HI. destruct (mode _); tauto.
Qed.

End RawMode.

(** * More properties *)

(** ** Ordinary input *)

Section DecodePlain.

Lemma continuation_high cp b :
  cp ≠ 0 → 0x40 <= N.lor (N.shiftl cp 6) (N.land b 0x3F).
Proof.
  intros Hcp. apply N.le_ngt. intros Hlt.
  assert (N.shiftr (N.lor (N.shiftl cp 6) (N.land b 0x3F)) 6 = 0) as H0.
  { rewrite N.shiftr_div_pow2. by apply N.div_small. }
  rewrite N.shiftr_lor, N.shiftr_shiftl_l, N.sub_diag, N.shiftl_0_r in H0
    by done.
  by apply N.lor_eq_0_l in H0.
Qed.

Lemma continuation_tail b lower upper :
  0x90 <= lower → upper <= 0xBF → lower <= b → b <= upper →
  N.land b 0x3F ≠ 0.
Proof.
  intros Hlo Hup Hb1 Hb2.
  assert (b < 256) as Hlt by lia.
  assert (forallb (λ n, negb ((0x90 <=? n) && (n <=? 0xBF)) ||
                        negb (N.land n 0x3F =? 0))
            (N.of_nat <$> seq 0 256) = true) as Hall by (vm_compute; done).
  rewrite forallb_forall in Hall.
  specialize (Hall b). 
  assert (In b (N.of_nat <$> seq 0 256)) as Hin.
  { apply list_elem_of_In, list_elem_of_fmap. exists (N.to_nat b).
    split; [lia|]. apply elem_of_seq. lia. }
  specialize (Hall Hin).
  apply orb_true_iff in Hall as [H|H].
  - apply negb_true_iff, andb_false_iff in H as [H|H].
    + apply N.leb_gt in H. lia.
    + apply N.leb_gt in H. lia.
  - apply negb_true_iff, N.eqb_neq in H. done.
Qed.

Lemma lead_bits b mask lo hi :
  forallb (λ n, negb ((lo <=? n) && (n <=? hi)) || negb (N.land n mask =? 0))
    (N.of_nat <$> seq 0 256) = true →
  hi < 256 → lo <= b → b <= hi → N.land b mask ≠ 0.
Proof.
  intros Hall Hhi Hb1 Hb2. rewrite forallb_forall in Hall.
  assert (In b (N.of_nat <$> seq 0 256)) as Hin.
  { apply list_elem_of_In, list_elem_of_fmap. exists (N.to_nat b).
    split; [lia|]. apply elem_of_seq. lia. }
  specialize (Hall b Hin).
  apply orb_true_iff in Hall as [H|H].
  - apply negb_true_iff, andb_false_iff in H as [H|H];
      apply N.leb_gt in H; lia.
  - by apply negb_true_iff, N.eqb_neq in H.
Qed.

Lemma emit_high (P : N → Prop) cp :
  (∀ u, 0x40 <= u → P u) → 0x40 <= cp → Forall P (emit cp).
Proof.
  intros HP Hcp. unfold emit. case_match.
  - apply Forall_cons_2; [by apply HP|apply Forall_nil_2].
  - apply N.ltb_ge in H.
    repeat (apply Forall_cons_2;
            [apply HP; etrans; [|apply N.le_add_r]; lia|]).
    apply Forall_nil_2.
Qed.

(** Every code unit the decoder produces is an ASCII byte of the input
    or lies at U+0040 or above. *)
Lemma decode_units (P : N → Prop) bs :
  (∀ u, 0x40 <= u → P u) → Forall P bs →
  ∀ needed cp lower upper,
    pendingHigh needed cp lower upper →
    Forall P (decode needed cp lower upper bs).
Proof.
  intros HP. induction 1 as [|b bs Hb Hbs IH]; intros needed cp lower upper HJ.
  - destruct needed; repeat constructor. apply HP. unfold REPLACEMENT. lia.
  - assert (Forall P
      (if b <=? 0x7F then b :: decode 0 0 0x80 0xBF bs
       else if (0xC2 <=? b) && (b <=? 0xDF)
         then decode 1 (N.land b 0x1F) 0x80 0xBF bs
       else if (0xE0 <=? b) && (b <=? 0xEF)
         then decode 2 (N.land b 0xF)
                (if b =? 0xE0 then 0xA0 else 0x80)
                (if b =? 0xED then 0x9F else 0xBF) bs
       else if (0xF0 <=? b) && (b <=? 0xF4)
         then decode 3 (N.land b 0x7)
                (if b =? 0xF0 then 0x90 else 0x80)
                (if b =? 0xF4 then 0x8F else 0xBF) bs
       else REPLACEMENT :: decode 0 0 0x80 0xBF bs)) as Hlead.
    { destruct (b <=? 0x7F) eqn:H1.
      { constructor; [done|]. apply IH. by left. }
      destruct ((0xC2 <=? b) && (b <=? 0xDF)) eqn:H2.
      { apply andb_true_iff in H2 as [Ha Hc].
        apply N.leb_le in Ha, Hc. apply IH. right. split; [done|]. left.
        by apply (lead_bits b 0x1F 0xC2 0xDF). }
      destruct ((0xE0 <=? b) && (b <=? 0xEF)) eqn:H3.
      { apply andb_true_iff in H3 as [Ha Hc].
        apply N.leb_le in Ha, Hc. apply IH. right.
        split; [by destruct (b =? 0xED)|].
        destruct (N.eqb_spec b 0xE0) as [->|Hne]; [right; split; [lia|done]|].
        left. apply (lead_bits b 0xF 0xE1 0xEF); [done|done|lia|done]. }
      destruct ((0xF0 <=? b) && (b <=? 0xF4)) eqn:H4.
      { apply andb_true_iff in H4 as [Ha Hc].
        apply N.leb_le in Ha, Hc. apply IH. right.
        split; [by destruct (b =? 0xF4)|].
        destruct (N.eqb_spec b 0xF0) as [->|Hne]; [right; split; [lia|done]|].
        left. apply (lead_bits b 0x7 0xF1 0xF4); [done|done|lia|done]. }
      constructor; [apply HP; unfold REPLACEMENT; lia|].
      apply IH. by left. }
    cbn [decode]. destruct needed as [|k]; [exact Hlead|].
    destruct HJ as [?|[Hup Hcp]]; [done|].
    destruct ((lower <=? b) && (b <=? upper)) eqn:Hin.
    + apply andb_true_iff in Hin as [Ha Hc]. apply N.leb_le in Ha, Hc.
      destruct k as [|k].
      * destruct Hcp as [Hcp|[? _]]; [|lia].
        apply Forall_app. split.
        -- apply emit_high; [done|]. by apply continuation_high.
        -- apply IH. by left.
      * apply IH. right. split; [done|]. left.
        destruct Hcp as [Hcp|[_ Hlo]].
        -- pose proof (continuation_high cp b Hcp). lia.
        -- intros H0. apply N.lor_eq_0_iff in H0 as [_ H0].
           by apply (continuation_tail b lower upper) in H0.
    + constructor; [apply HP; unfold REPLACEMENT; lia|exact Hlead].
Qed.

Lemma toString_units (P : N → Prop) (data : Buffer) :
  (∀ u, 0x40 <= u → P u) → Forall (λ b, P (Byte.to_N b)) data →
  Forall P (toString data).
Proof.
  intros HP Hd. unfold toString. apply decode_units; [done| |by left].
  by apply Forall_fmap.
Qed.

(** The decoder produces something for every byte sequence but the
    empty one. *)
Lemma decode_nil bs : ∀ needed cp lower upper,
  decode needed cp lower upper bs = [] → bs = [] ∧ needed = 0%nat.
Proof.
  induction bs as [|b bs IH]; intros needed cp lower upper H.
  - by destruct needed.
  - exfalso. cbn [decode] in H.
    destruct needed as [|k]; repeat case_match; try done;
      try (by apply IH in H as [_ ?]);
      try (by apply app_eq_nil in H as [_ H]; apply IH in H as [_ ?]).
    unfold emit in H. by case_match.
Qed.

End DecodePlain.

Section PlainInput.

Lemma startsWith_head {A} (ch : A → N) c l x s :
  startsWith ch (c :: l) (x :: s) = true → ch x = c.
Proof. cbn. intros [H _]%andb_true_iff. by apply N.eqb_eq. Qed.

Lemma includes_head e seq s : includes (e :: seq) s = true → e ∈ s.
Proof.
  induction s as [|x s IH]; [done|].
  cbn [includes]. intros [H|H]%orb_true_iff.
  - apply startsWith_head in H. cbn in H. subst. left.
  - right. by apply IH.
Qed.

(** Text without an escape passes every scan as it is. *)
Lemma scans_plain {A} (ch : A → N) ms : ∀ s,
  Forall (escapeHeaded ch) ms → Forall (λ y, ch y ≠ ESC) s →
  foldl scan s ms = s.
Proof.
  induction ms as [|m ms IH]; intros s Hms Hs; [done|].
  inversion_clear Hms as [|? ? Hm Hms'].
  cbn [foldl]. unfold scan at 2.
  rewrite <- (app_nil_r s) at 1.
  rewrite (removeAll_over_plain ch m Hm) by done.
  cbn [removeAll]. rewrite app_nil_r. by apply IH.
Qed.

Lemma stripInput_plain (s : jsstring) :
  ESC ∉ s → stripInput id s = s.
Proof.
  intros Hs. rewrite stripInput_passes.
  apply (scans_plain id); [apply passes_headed|].
  apply Forall_forall. intros y Hy Heq. cbn in Heq. by subst.
Qed.

Lemma hasDoubleEscape_none bytes :
  ESCAPE ∉ bytes → hasDoubleEscape bytes = false.
Proof.
  induction bytes as [|a t IH]; intros Hn; [done|].
  assert (hasDoubleEscape t = false) as Ht
    by (apply IH; intros H; apply Hn; by right).
  destruct t as [|b t]; [done|].
  change (((a =? ESCAPE) && (b =? ESCAPE)) || hasDoubleEscape (b :: t) = false).
  rewrite Ht.
  destruct (N.eqb_spec a ESCAPE) as [->|]; [|done].
  exfalso. apply Hn. left.
Qed.

Lemma isSingleEscape_none bytes :
  ESCAPE ∉ bytes → isSingleEscape bytes = false.
Proof.
  destruct bytes as [|a [|? ?]]; try done. cbn. intros Hn.
  apply N.eqb_neq. intros ->. apply Hn. left.
Qed.

End PlainInput.

(** X1: a chunk without an escape byte and without a detach key reaches
    the subprocess as the text it encodes, whole and unchanged. *)
Theorem plain_input_is_forwarded (now : Z) (data : Buffer) (c : Closure)
    (w : World) :
  data ≠ [] →
  Forall (λ b, Byte.to_N b ≠ ESC ∧ isDetachKey (Byte.to_N b) = false) data →
  onStdinData now data c w
  = (setLastEscapeTime 0 c,
     onManager (manager c) (write (toString data)) (debugTrace data c w)).
Proof.
  intros Hne Hdata.
  assert (ESC ∉ toString data) as Hesc.
  { intros Hin.
    assert (Forall (λ u, u ≠ ESC) (toString data)) as Hu.
    { apply toString_units.
      - intros u Hu' ->. unfold ESC in Hu'. lia.
      - eapply Forall_impl; [exact Hdata|]. by intros b [? _]. }
    rewrite Forall_forall in Hu. by apply (Hu ESC). }
  assert (ESCAPE ∉ map Byte.to_N data) as Hbytes.
  { intros (b & Hb & Hin)%list_elem_of_fmap.
    rewrite Forall_forall in Hdata. destruct (Hdata b Hin) as [Hb' _].
    apply Hb'. by rewrite <- Hb. }
  unfold onStdinData.
  assert (bool_decide (toString data = FOCUS_IN_SEQ) = false) as ->.
  { apply bool_decide_eq_false. intros Heq. apply Hesc. rewrite Heq. left. }
  assert (bool_decide (toString data = FOCUS_OUT_SEQ) = false) as ->.
  { apply bool_decide_eq_false. intros Heq. apply Hesc. rewrite Heq. left. }
  cbn [orb]. change (stripResponses id (stripFocus id (toString data)))
    with (stripInput id (toString data)).
  rewrite stripInput_plain by done.
  assert ((length (toString data) =? 0)%nat = false) as ->.
  { apply Nat.eqb_neq. intros Hlen. apply nil_length_inv in Hlen.
    apply decode_nil in Hlen as [Hlen _]. apply fmap_nil_inv in Hlen. done. }
  match goal with
  | |- context [existsb ?f CSI_U_DETACH_SEQS] =>
      destruct (existsb f CSI_U_DETACH_SEQS) eqn:Hex
  end.
  { exfalso. apply existsb_exists in Hex as (seq & Hseq & H).
    apply Hesc.
    assert (∃ t, seq = ESC :: t) as [t ->].
    { unfold CSI_U_DETACH_SEQS in Hseq. cbn in Hseq.
      repeat (destruct Hseq as [<-|Hseq]; [by eexists|]). done. }
    apply orb_true_iff in H as [H|H].
    - apply bool_decide_eq_true in H. rewrite H. left.
    - by apply includes_head in H. }
  assert (existsb isDetachKey (map Byte.to_N data) = false) as ->.
  { apply not_true_is_false. intros (k & Hk & H)%existsb_exists.
    apply in_map_iff in Hk as (b & <- & Hb%list_elem_of_In).
    rewrite Forall_forall in Hdata. destruct (Hdata b Hb) as [_ Hb'].
    congruence. }
  rewrite hasDoubleEscape_none, isSingleEscape_none by done.
  by rewrite andb_false_r.
Qed.

(** ** Requests *)

Section Requests.

(** What a request that succeeds leaves in the session. *)
Lemma sendToTool_success message response w a :
  requestInProgress w = false → registry w !! activeTool w = Some a →
  let w' := sendToTool message (Some response) w in
  activeTool w' = activeTool w ∧ registry w' = registry w ∧
  requestInProgress w' = false ∧
  conversationHistory w'
  = enforceHistoryLimit
      (enforceHistoryLimit
         (conversationHistory w ++
          [{| tool := activeTool w; role := user; content := message |}]) ++
       [{| tool := activeTool w; role := assistant; content := response |}]).
Proof.
  intros Hreq Hreg. cbn zeta. unfold sendToTool. rewrite Hreq.
  set (w1 := killExisting _).
  destruct (registry_killExisting
              (stdoutWrite [Animated "thinking"]
                 (record {| tool := activeTool (setRequestInProgress true w);
                            role := user; content := message |}
                    (setRequestInProgress true w)))) as [Hr Ha].
  assert (conversationHistory w1
          = enforceHistoryLimit
              (conversationHistory w ++
               [{| tool := activeTool w; role := user; content := message |}]))
    as Hh.
  { unfold w1. by rewrite conversationHistory_killExisting. }
  fold w1 in Hr, Ha. cbn in Hr, Ha.
  rewrite Hr, Ha, Hreg.
  destruct (0 <? length response)%nat; cbn; rewrite ?Hr, ?Ha, ?Hh; done.
Qed.

Lemma enforceHistoryLimit_snoc h m :
  ∃ h', enforceHistoryLimit (h ++ [m]) = h' ++ [m].
Proof.
  rewrite enforceHistoryLimit_drop, length_app. cbn [length].
  exists (drop (length h + 1 - MAX_HISTORY_SIZE) h).
  rewrite drop_app_le; [done|]. unfold MAX_HISTORY_SIZE. lia.
Qed.

(** The limit is above two: the message and its response stay. *)
Lemma enforceHistoryLimit_snoc2 h u a :
  ∃ h', enforceHistoryLimit (enforceHistoryLimit (h ++ [u]) ++ [a])
        = h' ++ [u; a].
Proof.
  rewrite !enforceHistoryLimit_drop.
  set (k := (length (h ++ [u]) - MAX_HISTORY_SIZE)%nat).
  assert (k ≤ length h)%nat as Hk
    by (unfold k, MAX_HISTORY_SIZE; rewrite length_app; cbn; lia).
  rewrite (drop_app_le h) by done.
  set (h1 := drop k h).
  set (k' := (length ((h1 ++ [u]) ++ [a]) - MAX_HISTORY_SIZE)%nat).
  assert (k' ≤ length h1)%nat as Hk'.
  { unfold k', h1, MAX_HISTORY_SIZE.
    rewrite !length_app, length_drop. cbn. unfold k, MAX_HISTORY_SIZE.
    rewrite length_app. cbn. lia. }
  exists (drop k' h1). rewrite <- app_assoc. cbn [app].
  by rewrite drop_app_le.
Qed.

End Requests.

(** X2: when the request fails (the adapter is missing or [send] throws)
    the user message that was recorded is taken back: below the limit the
    history is what it was, and a full history has lost its oldest
    entry. *)
Theorem failed_send_takes_message_back (message : jsstring)
    (sent : option jsstring) (w : World) :
  requestInProgress w = false →
  sent = None ∨ registry w !! activeTool w = None →
  let h := conversationHistory w in
  let w' := sendToTool message sent w in
  conversationHistory w' = drop (length h + 1 - MAX_HISTORY_SIZE) h ∧
  ((length h < MAX_HISTORY_SIZE)%nat → conversationHistory w' = h) ∧
  requestInProgress w' = false ∧ activeTool w' = activeTool w.
Proof.
  intros Hreq Hfail. cbn zeta.
  assert (conversationHistory (sendToTool message sent w)
          = drop (length (conversationHistory w) + 1 - MAX_HISTORY_SIZE)
              (conversationHistory w)) as Hh.
  { unfold sendToTool. rewrite Hreq.
    set (w1 := killExisting _).
    assert (conversationHistory w1
            = drop (length (conversationHistory w) + 1 - MAX_HISTORY_SIZE)
                (conversationHistory w ++
                 [{| tool := activeTool w; role := user;
                     content := message |}])) as Hw1.
    { unfold w1. rewrite conversationHistory_killExisting. cbn.
      rewrite enforceHistoryLimit_drop, length_app. done. }
    destruct (registry_killExisting
                (stdoutWrite [Animated "thinking"]
                   (record {| tool := activeTool (setRequestInProgress true w);
                              role := user; content := message |}
                      (setRequestInProgress true w)))) as [Hr Ha].
    fold w1 in Hr, Ha. cbn in Hr, Ha.
    assert (∀ o, conversationHistory (pop (stdoutWrite o w1))
            = drop (length (conversationHistory w) + 1 - MAX_HISTORY_SIZE)
                (conversationHistory w)) as Hpop.
    { intros o. cbn. rewrite Hw1.
      rewrite drop_app_le by (unfold MAX_HISTORY_SIZE; lia).
      rewrite length_app. cbn [length].
      rewrite Nat.add_sub, take_app_length. done. }
    cbn [conversationHistory setRequestInProgress].
    destruct (registry w1 !! activeTool w1) eqn:Hreg.
    - destruct Hfail as [->|Hnone]; [apply Hpop|].
      rewrite Hr, Ha in Hreg. congruence.
    - apply Hpop. }
  split; [exact Hh|]. split.
  - intros Hlt. rewrite Hh.
    by replace (length (conversationHistory w) + 1 - MAX_HISTORY_SIZE)%nat
      with 0%nat by lia.
  - unfold sendToTool. rewrite Hreq. cbn [requestInProgress setRequestInProgress
      activeTool].
    split; [done|].
    set (w1 := killExisting _).
    destruct (registry_killExisting
                (stdoutWrite [Animated "thinking"]
                   (record {| tool := activeTool (setRequestInProgress true w);
                              role := user; content := message |}
                      (setRequestInProgress true w)))) as [_ Ha].
    fold w1 in Ha. cbn in Ha.
    destruct (registry w1 !! activeTool w1); [destruct sent|];
      cbn; try done; by case_match.
Qed.

(** ** Who owns the terminal *)

Section Control.
Implicit Types (w : World) (s : System).

Lemma control_stdoutWrite o w : control (stdoutWrite o w) = control w.
Proof. done. Qed.

Lemma control_onManager r f w : control (onManager r f w) = control w.
Proof. done. Qed.

Lemma control_debugTrace data c w : control (debugTrace data c w) = control w.
Proof. unfold debugTrace. by case_match. Qed.

Lemma control_killExisting w : control (killExisting w) = control w.
Proof. unfold killExisting. by case_match. Qed.

Lemma control_sendToTool message sent w :
  control (sendToTool message sent w) = control w.
Proof.
  unfold sendToTool. destruct (requestInProgress w); [done|].
  cbn zeta. set (w0 := stdoutWrite _ _).
  transitivity (control (killExisting w0));
    [|by rewrite control_killExisting].
  destruct (registry (killExisting w0) !! activeTool (killExisting w0));
    [destruct sent as [response|];
     [destruct (0 <? length response)%nat|]|];
    done.
Qed.

Lemma control_getOrCreateManager t wfr ok w :
  control (getOrCreateManager t wfr ok w).2 = control w.
Proof. unfold getOrCreateManager. repeat case_match; done. Qed.

Lemma control_ptyData cap r chunk w : control (ptyData cap r chunk w) = control w.
Proof. unfold ptyData. by case_match. Qed.

Lemma control_ptyExit r code w : control (ptyExit r code w) = control w.
Proof. unfold ptyExit. by case_match. Qed.

Lemma control_killAll w : control (killAll w) = control w.
Proof.
  unfold killAll. change (control (setManagers ∅ ?x)) with (control x).
  generalize (ptyManagers w). intros pm.
  apply (map_fold_weak_ind (λ w' _, control w' = control w)); [done|].
  intros t r m w' _ HS. rewrite <- HS. by case_match.
Qed.

(** [enterInteractiveMode] closes readline before it waits. *)
Lemma control_begin ok w tty raw sl rs rd :
  control w = (tty, raw, sl, rs, rd) →
  match enterInteractiveMode_begin ok w with
  | (Ok _, w') => control w' = (tty, raw, sl, rs, false)
  | (Throw _, w') => control w' = control w
  end.
Proof.
  intros Hc. unfold enterInteractiveMode_begin.
  pose proof (control_getOrCreateManager (activeTool w) false ok w) as HS.
  destruct (getOrCreateManager (activeTool w) false ok w) as [[r|e] w1];
    cbn [snd] in HS; [|done].
  rewrite Hc in HS. unfold control in *. cbn in *. congruence.
Qed.

(** [runInteractiveSession] installs the listeners and enters raw mode on
    a TTY. *)
Lemma control_runInteractiveSession r tn w tty raw sl rs rd :
  control w = (tty, raw, sl, rs, rd) →
  match runInteractiveSession r tn w with
  | (Ok c, w') =>
      detached c = false ∧ resolved c = false ∧ cleanedUp c = false ∧
      control w' = (tty, if tty then true else raw, true, true, rd)
  | (Throw _, w') => True
  end.
Proof.
  intros Hc. unfold runInteractiveSession.
  destruct (negb (from_option hasPty false (store w !! r))); [done|].
  destruct w as [? ? ? ? ? ? ? ? [[] ? ? ? ? ?]];
    unfold control in *; cbn in *; simplify_eq; cbn; done.
Qed.

Lemma TermInv_attach_then_run r tn w tty :
  control w = (tty, false, false, false, false) →
  TermInv tty (match runInteractiveSession r tn (onManager r attach w) with
           | (Ok c, w') => {| world := w'; mode := Interactive c |}
           | (Throw _, w') => {| world := w'; mode := Halted |}
           end).
Proof.
  intros Hc.
  pose proof (control_runInteractiveSession r tn (onManager r attach w)
                tty false false false false) as Hrun.
  rewrite control_onManager in Hrun. specialize (Hrun Hc).
  destruct (runInteractiveSession r tn (onManager r attach w)) as [[c|e] w'];
    [|done].
  destruct Hrun as (? & ? & ? & Hrun). unfold TermInv. cbn [mode world].
  repeat split; try done. rewrite Hrun. by destruct tty.
Qed.

Lemma control_resume p w :
  ∃ w0, control w0 = control w ∧
        enterInteractiveMode_resume p w
        = runInteractiveSession (pManager p) (pToolName p)
            (onManager (pManager p) attach w0).
Proof.
  unfold enterInteractiveMode_resume.
  destruct (isReattach p && _); [|destruct (isFirstLaunch p)];
    eexists; (split; [|reflexivity]); done.
Qed.

Lemma control_with ok w tty :
  control w = (tty, false, false, false, true) →
  TermInv tty (match enterInteractiveModeWith ok w with
           | (Ok c, w') => {| world := w'; mode := Interactive c |}
           | (Throw _, w') => {| world := w'; mode := Halted |}
           end).
Proof.
  intros Hc. unfold enterInteractiveModeWith.
  pose proof (control_getOrCreateManager (activeTool w) false ok w) as HS.
  destruct (getOrCreateManager (activeTool w) false ok w) as [[r|e] w1];
    cbn [snd] in HS; [|done].
  apply (TermInv_attach_then_run r (toolNameOf w) _ tty).
  rewrite Hc in HS. unfold control in *. cbn in *. congruence.
Qed.

Lemma TermInv_handle cmd w tty :
  control w = (tty, false, false, false, true) →
  TermInv tty (handle cmd w).
Proof.
  intros Hc. destruct cmd as [message sent|ok|ok|t|]; cbn [handle].
  - unfold TermInv. cbn [mode world]. by rewrite control_sendToTool.
  - pose proof (control_begin ok w _ _ _ _ _ Hc) as Hb.
    by destruct (enterInteractiveMode_begin ok w) as [[p|e] w1].
  - by apply (control_with ok w tty).
  - done.
  - unfold TermInv. cbn [mode world].
    change (control (stdoutWrite ?o (setHistory ?h ?x))) with (control x).
    by rewrite control_killAll.
Qed.

(** A detach hands the terminal back. *)
Lemma control_performDetach c w tty :
  detached c = false → cleanedUp c = false →
  control w = (tty, tty, true, true, false) →
  control (performDetach c w).2 = (tty, false, false, false, true).
Proof.
  intros Hd Hcl Hc. open_world w; open_closure c;
    unfold performDetach, captureResponse, bufferOf, control in *;
    crush_world; congruence.
Qed.

Lemma TermInv_step tty cap s e : TermInv tty s → TermInv tty (step cap s e).
Proof.
  intros HI. destruct s as [w m].
  destruct e as [cmd| |now data|r chunk|r code]; cbn [step mode world].
  - destruct m; try done. by apply (TermInv_handle cmd w tty).
  - destruct m as [|p|c|]; try done.
    destruct (control_resume p w) as (w0 & HS & ->).
    apply (TermInv_attach_then_run _ _ w0 tty). by rewrite HS.
  - destruct m as [|p|c|]; try done.
    destruct HI as (Hd & Hres & Hcl & Hc). cbn [world] in Hc.
    rewrite <- (control_debugTrace data c w) in Hc.
    destruct (onStdinData_cases now data c w) as [H|[H|(_ & t & H)]];
      rewrite H.
    + rewrite Hres. by unfold TermInv.
    + destruct (performDetach_closure c (debugTrace data c w) Hd)
        as (_ & Hres' & _).
      pose proof (control_performDetach c (debugTrace data c w) tty Hd Hcl Hc)
        as Hc'.
      destruct (performDetach c (debugTrace data c w)) as [c' w'].
      cbn [fst snd] in *. by rewrite Hres'.
    + cbn [resolved setLastEscapeTime]. rewrite Hres.
      unfold TermInv. cbn [mode world]. cbn [detached cleanedUp resolved].
      by rewrite control_onManager.
  - unfold TermInv in *. cbn [mode world] in *.
    by rewrite control_ptyData.
  - unfold TermInv in *. cbn [mode world] in *.
    by rewrite control_ptyExit.
Qed.

Lemma TermInv_run tty cap events : ∀ s,
  TermInv tty s → TermInv tty (run cap s events).
Proof.
  induction events as [|e events IH]; intros s HI; [done|].
  cbn. apply IH. by apply TermInv_step.
Qed.

End Control.

(** X3: whatever happens, the keyboard has one reader at most.  When the
    prompt has control the listeners of the interactive session are
    removed and readline is open; while [enterInteractiveMode] waits for
    its animation readline is closed already and the listeners are not
    installed yet; during an interactive session readline is closed, the
    listeners are installed and [cleanup] has not run. *)
Theorem terminal_has_one_reader (cap : nat) (reg : gmap string Adapter)
    (t : string) (tty dbg : bool) (events : list Event) :
  let s := run cap (initial reg t tty dbg) events in
  let term := term (world s) in
  (mode s = Prompt →
     stdinListening term = false ∧ resizeListening term = false ∧
     rl (world s) = true) ∧
  (∀ p, mode s = Entering p →
     stdinListening term = false ∧ resizeListening term = false ∧
     rl (world s) = false) ∧
  (∀ c, mode s = Interactive c →
     stdinListening term = true ∧ resizeListening term = true ∧
     rl (world s) = false ∧ cleanedUp c = false).
Proof.
  cbn zeta.
  pose proof (TermInv_run tty cap events (initial reg t tty dbg) eq_refl)
    as HI.
  unfold TermInv, control in HI. split; [|split].
  - intros Hm. rewrite Hm in HI. by simplify_eq.
  - intros p Hm. rewrite Hm in HI. by simplify_eq.
  - intros c Hm. rewrite Hm in HI. destruct HI as (_ & _ & ? & HI).
    by simplify_eq.
Qed.

(** ** Subprocesses are not lost *)

Section Leak.
Implicit Types (w : World) (r : nat).

Lemma Keeps_refl w : Keeps w w.
Proof. by split. Qed.

Lemma Keeps_trans w1 w2 w3 : Keeps w1 w2 → Keeps w2 w3 → Keeps w1 w3.
Proof. intros [? ?] [? ?]. split; [congruence|auto]. Qed.

Lemma Keeps_same w w' :
  ptyManagers w' = ptyManagers w → store w' = store w → Keeps w w'.
Proof. intros Hp Hs. split; [done|]. unfold deadRef. by rewrite Hs. Qed.

Lemma NoLeak_Keeps w w' : Keeps w w' → NoLeak w → NoLeak w'.
Proof. intros [Hp Hd] HN r Hr. rewrite Hp. by apply HN, Hd. Qed.

Lemma deadRef_onManager r r' f w :
  deadRef r (onManager r' f w)
  = if decide (r' = r)
    then from_option (λ m, isDead (f m)) true (store w !! r)
    else deadRef r w.
Proof.
  unfold deadRef, onManager. cbn.
  rewrite list_lookup_alter. case_decide; [|done].
  subst. by destruct (store w !! r).
Qed.

(** The methods of a manager do not bring a dead subprocess back. *)
Lemma Keeps_onManager (f : Manager → Manager) r w :
  (∀ m, isDead m = true → isDead (f m) = true) → Keeps w (onManager r f w).
Proof.
  intros Hf. split; [done|]. intros r'. rewrite deadRef_onManager.
  case_decide; [|done]. subst. unfold deadRef.
  destruct (store w !! r') as [m|]; [|done]. cbn.
  destruct (isDead m) eqn:Hm; [|done]. by rewrite Hf.
Qed.

Lemma stays_dead_attach m : isDead m = true → isDead (attach m) = true.
Proof. intros H. unfold attach. by rewrite H. Qed.
Lemma stays_dead_detach m : isDead m = true → isDead (detach m) = true.
Proof. intros H. unfold detach, isDead in *. cbn. by destruct (state m). Qed.
Lemma stays_dead_write s m : isDead m = true → isDead (write s m) = true.
Proof. intros H. unfold write. by rewrite H. Qed.
Lemma stays_dead_onData cap s m : isDead m = true → isDead (onData cap s m) = true.
Proof. intros H. unfold onData. by rewrite H. Qed.
Lemma stays_dead_exited m : isDead m = true → isDead (exited m) = true.
Proof. done. Qed.

Lemma Keeps_stdoutWrite o w : Keeps w (stdoutWrite o w).
Proof. by apply Keeps_same. Qed.

Lemma Keeps_debugTrace data c w : Keeps w (debugTrace data c w).
Proof. unfold debugTrace. case_match; [apply Keeps_stdoutWrite|apply Keeps_refl]. Qed.

Lemma Keeps_ptyData cap r chunk w : Keeps w (ptyData cap r chunk w).
Proof.
  unfold ptyData. eapply Keeps_trans;
    [|apply Keeps_onManager; intros; by apply stays_dead_onData].
  case_match; [apply Keeps_stdoutWrite|apply Keeps_refl].
Qed.

Lemma Keeps_ptyExit r code w : Keeps w (ptyExit r code w).
Proof.
  unfold ptyExit. case_match; [apply Keeps_refl|].
  eapply Keeps_trans; [apply Keeps_stdoutWrite|].
  by apply Keeps_onManager.
Qed.

Lemma performDetach_managers c w :
  ptyManagers (performDetach c w).2 = ptyManagers w.
Proof.
  open_world w; open_closure c; unfold performDetach, captureResponse;
    crush_world.
Qed.

Lemma Keeps_performDetach c w : Keeps w (performDetach c w).2.
Proof.
  destruct (detached c) eqn:Hd.
  - unfold performDetach. rewrite Hd. apply Keeps_refl.
  - eapply Keeps_trans;
      [apply (Keeps_onManager detach (manager c)), stays_dead_detach|].
    apply Keeps_same.
    + by rewrite performDetach_managers.
    + by rewrite performDetach_store.
Qed.

Lemma Keeps_runInteractiveSession r tn w :
  Keeps w (runInteractiveSession r tn w).2.
Proof.
  unfold runInteractiveSession. case_match; cbn [snd]; [apply Keeps_refl|].
  apply Keeps_same; cbn; by case_match.
Qed.

Lemma Keeps_onStdinData now data c w : Keeps w (onStdinData now data c w).2.
Proof.
  destruct (onStdinData_cases now data c w) as [H|[H|(_ & t & H)]];
    rewrite H; cbn [snd].
  - apply Keeps_debugTrace.
  - eapply Keeps_trans; [apply Keeps_debugTrace|apply Keeps_performDetach].
  - eapply Keeps_trans; [apply Keeps_debugTrace|].
    apply Keeps_onManager. intros. by apply stays_dead_write.
Qed.

Lemma Keeps_resume p w : Keeps w (enterInteractiveMode_resume p w).2.
Proof.
  unfold enterInteractiveMode_resume.
  eapply Keeps_trans; [|apply Keeps_runInteractiveSession].
  eapply Keeps_trans;
    [|apply Keeps_onManager; intros; by apply stays_dead_attach].
  destruct (isReattach p && _); [|destruct (isFirstLaunch p)];
    by apply Keeps_same.
Qed.

(** A new manager is stored behind a new reference and takes the place of
    a dead one, or of none, in the map. *)
Lemma NoLeak_getOrCreateManager t wfr ok w :
  NoLeak w → NoLeak (getOrCreateManager t wfr ok w).2.
Proof.
  intros HN.
  destruct (liveManager t w) as [r|] eqn:Hlive.
  { unfold getOrCreateManager. by rewrite Hlive. }
  destruct (registry w !! t) as [a|] eqn:Hreg.
  2:{ unfold getOrCreateManager. by rewrite Hlive, Hreg. }
  destruct (getOrCreateManager_create t wfr ok w a Hlive Hreg)
    as (_ & Hpm & Hst & _).
  intros r Hr. rewrite Hpm.
  destruct (decide (r = length (store w))) as [->|Hne].
  { exists t. by rewrite lookup_insert_eq. }
  assert (deadRef r w = false) as Hr'.
  { unfold deadRef in *. rewrite Hst in Hr.
    destruct (decide (r < length (store w))%nat) as [Hlt|Hge].
    - by rewrite lookup_app_l in Hr.
    - rewrite lookup_app_r in Hr by lia.
      destruct (r - length (store w))%nat as [|k] eqn:Hk; [lia|].
      by destruct k. }
  destruct (HN r Hr') as [t' Ht']. exists t'.
  rewrite lookup_insert_ne; [done|]. intros <-.
  apply liveManager_None in Hlive as [Hnone|(r' & Hsome & Hdead)];
    congruence.
Qed.

Lemma NoLeak_killExisting w : NoLeak w → NoLeak (killExisting w).
Proof.
  intros HN. destruct (liveManager (activeTool w) w) as [r0|] eqn:Hlive.
  2:{ unfold killExisting. by rewrite Hlive. }
  destruct (killExisting_live w r0 Hlive) as (Hpm & Hst & _).
  apply liveManager_Some in Hlive as [Hreg _].
  intros r Hr. rewrite Hpm.
  assert (r ≠ r0 ∧ deadRef r w = false) as [Hne Hr'].
  { unfold deadRef in *. rewrite Hst, list_lookup_alter in Hr.
    case_decide; [subst|done].
    by destruct (store w !! r). }
  destruct (HN r Hr') as [t' Ht']. exists t'.
  rewrite lookup_delete_ne; [done|]. intros <-. congruence.
Qed.

Lemma NoLeak_sendToTool message sent w :
  NoLeak w → NoLeak (sendToTool message sent w).
Proof.
  intros HN. unfold sendToTool.
  destruct (requestInProgress w); [by apply (NoLeak_Keeps w); [apply Keeps_same|]|].
  cbn zeta. set (w0 := stdoutWrite _ _).
  assert (NoLeak (killExisting w0)) as HN1.
  { apply NoLeak_killExisting. by apply (NoLeak_Keeps w); [apply Keeps_same|]. }
  apply (NoLeak_Keeps (killExisting w0)); [|done].
  destruct (registry (killExisting w0) !! activeTool (killExisting w0));
    [destruct sent as [response|];
     [destruct (0 <? length response)%nat|]|];
    by apply Keeps_same.
Qed.

Lemma NoLeak_begin ok w :
  NoLeak w → NoLeak (enterInteractiveMode_begin ok w).2.
Proof.
  intros HN. unfold enterInteractiveMode_begin.
  pose proof (NoLeak_getOrCreateManager (activeTool w) false ok w HN) as H1.
  destruct (getOrCreateManager (activeTool w) false ok w) as [[r|e] w1];
    cbn [snd] in *; [|done].
  by apply (NoLeak_Keeps w1); [apply Keeps_same|].
Qed.

Lemma NoLeak_with ok w :
  NoLeak w → NoLeak (enterInteractiveModeWith ok w).2.
Proof.
  intros HN. unfold enterInteractiveModeWith.
  pose proof (NoLeak_getOrCreateManager (activeTool w) false ok w HN) as H1.
  destruct (getOrCreateManager (activeTool w) false ok w) as [[r|e] w1];
    cbn [snd] in *; [|done].
  eapply NoLeak_Keeps; [|exact H1].
  eapply Keeps_trans; [|apply Keeps_runInteractiveSession].
  eapply Keeps_trans;
    [|apply Keeps_onManager; intros; by apply stays_dead_attach].
  by apply Keeps_same.
Qed.

(** [cleanup] kills whatever the map holds. *)
Lemma killAll_fold_dead w :
  let f := λ (t : string) (r : nat) (w : World),
             if negb (deadRef r w)
             then onManager r kill (stdoutWrite [Logged (NStopping t)] w) else w in
  (∀ t r, ptyManagers w !! t = Some r →
          deadRef r (map_fold f w (ptyManagers w)) = true) ∧
  (∀ r, deadRef r w = true →
        deadRef r (map_fold f w (ptyManagers w)) = true).
Proof.
  cbn zeta. generalize (ptyManagers w). intros pm.
  apply (map_fold_weak_ind
           (λ w' m, (∀ t r, m !! t = Some r → deadRef r w' = true) ∧
                    (∀ r, deadRef r w = true → deadRef r w' = true))).
  { split; [|done]. intros t r H. by rewrite lookup_empty in H. }
  intros t r m w' Hfresh [Hm Hw].
  assert (∀ r', deadRef r' w' = true →
                deadRef r' (if negb (deadRef r w')
                            then onManager r kill
                                   (stdoutWrite [Logged (NStopping t)] w')
                            else w') = true) as Hstay.
  { intros r' Hr'. case_match; [|done].
    rewrite deadRef_onManager. case_decide; [|done]. subst.
    unfold deadRef. cbn. by destruct (store w' !! r'). }
  split; [|by auto].
  intros t' r' H. apply lookup_insert_Some in H as [[<- <-]|[_ H]];
    [|by apply Hstay, (Hm t')].
  destruct (deadRef r w') eqn:Hd; cbn [negb]; [done|].
  rewrite deadRef_onManager. rewrite decide_True by done.
  unfold deadRef. cbn. by destruct (store w' !! r).
Qed.

Lemma killAll_all_dead w : NoLeak w → ∀ r, deadRef r (killAll w) = true.
Proof.
  intros HN r. destruct (killAll_fold_dead w) as [Hm Hw].
  unfold killAll.
  change (deadRef r (setManagers ∅ ?x)) with (deadRef r x).
  destruct (deadRef r w) eqn:Hr; [by apply Hw|].
  destruct (HN r Hr) as [t Ht]. by apply (Hm t).
Qed.

Lemma NoLeak_handle cmd w : NoLeak w → NoLeak (world (handle cmd w)).
Proof.
  intros HN. destruct cmd as [message sent|ok|ok|t|]; cbn [handle].
  - by apply NoLeak_sendToTool.
  - pose proof (NoLeak_begin ok w HN) as H.
    by destruct (enterInteractiveMode_begin ok w) as [[p|e] w1].
  - pose proof (NoLeak_with ok w HN) as H.
    by destruct (enterInteractiveModeWith ok w) as [[c|e] w1].
  - by apply (NoLeak_Keeps w); [apply Keeps_same|].
  - intros r Hr. cbn [world] in Hr.
    change (deadRef r (stdoutWrite ?o (setHistory ?h ?x)))
      with (deadRef r x) in Hr.
    by rewrite killAll_all_dead in Hr.
Qed.

Lemma NoLeak_step cap s e : NoLeak (world s) → NoLeak (world (step cap s e)).
Proof.
  intros HN. destruct s as [w m]. cbn [world] in HN.
  destruct e as [cmd| |now data|r chunk|r code]; cbn [step mode world].
  - destruct m; try done. by apply NoLeak_handle.
  - destruct m as [|p|c|]; try done.
    pose proof (Keeps_resume p w) as HK.
    destruct (enterInteractiveMode_resume p w) as [[c|e] w'];
      by apply (NoLeak_Keeps w).
  - destruct m as [|p|c|]; try done.
    pose proof (Keeps_onStdinData now data c w) as HK.
    destruct (onStdinData now data c w) as [c' w'].
    by apply (NoLeak_Keeps w).
  - by apply (NoLeak_Keeps w); [apply Keeps_ptyData|].
  - by apply (NoLeak_Keeps w); [apply Keeps_ptyExit|].
Qed.

Lemma NoLeak_run cap events : ∀ s,
  NoLeak (world s) → NoLeak (world (run cap s events)).
Proof.
  induction events as [|e events IH]; intros s HN; [done|].
  cbn. apply IH. by apply NoLeak_step.
Qed.

End Leak.

(** X4: no subprocess is lost.  In every state the session can reach, a
    manager whose subprocess is alive is registered in the map under some
    tool; so the [cleanup] of the session (/clear, /quit, Ctrl+C), which
    kills what the map holds, leaves no subprocess alive. *)
Theorem no_subprocess_is_lost (cap : nat) (reg : gmap string Adapter)
    (t : string) (tty dbg : bool) (events : list Event) :
  let w := world (run cap (initial reg t tty dbg) events) in
  (∀ r, deadRef r w = false → ∃ t, ptyManagers w !! t = Some r) ∧
  (∀ r, deadRef r (killAll w) = true) ∧
  ptyManagers (killAll w) = ∅.
Proof.
  cbn zeta.
  assert (NoLeak (world (run cap (initial reg t tty dbg) events))) as HN.
  { apply NoLeak_run. intros r Hr. by destruct r. }
  split; [exact HN|]. split; [by apply killAll_all_dead|done].
Qed.

(** ** The map of managers *)

Section Shape.
Implicit Types (w : World) (r : nat).

Lemma SameShape_refl w : SameShape w w.
Proof. by split. Qed.

Lemma SameShape_trans w1 w2 w3 :
  SameShape w1 w2 → SameShape w2 w3 → SameShape w1 w3.
Proof. intros [? ?] [? ?]. split; congruence. Qed.

Lemma SameShape_same w w' :
  ptyManagers w' = ptyManagers w → store w' = store w → SameShape w w'.
Proof. intros Hp Hs. split; [done|]. by rewrite Hs. Qed.

Lemma SameShape_onManager r f w : SameShape w (onManager r f w).
Proof. split; [done|]. cbn. by rewrite length_alter. Qed.

Lemma WellKept_SameShape w w' : SameShape w w' → WellKept w → WellKept w'.
Proof.
  intros [Hp Hl] [Hv Hi]. split.
  - intros t r. rewrite Hp, Hl. apply Hv.
  - intros t1 t2 r. rewrite Hp. apply Hi.
Qed.

Lemma SameShape_debugTrace data c w : SameShape w (debugTrace data c w).
Proof. unfold debugTrace. case_match; by apply SameShape_same. Qed.

Lemma SameShape_ptyData cap r chunk w : SameShape w (ptyData cap r chunk w).
Proof.
  unfold ptyData. eapply SameShape_trans; [|apply SameShape_onManager].
  case_match; by apply SameShape_same.
Qed.

Lemma SameShape_ptyExit r code w : SameShape w (ptyExit r code w).
Proof.
  unfold ptyExit. case_match; [apply SameShape_refl|].
  eapply SameShape_trans; [|apply SameShape_onManager].
  by apply SameShape_same.
Qed.

Lemma SameShape_performDetach c w : SameShape w (performDetach c w).2.
Proof.
  destruct (detached c) eqn:Hd.
  - unfold performDetach. rewrite Hd. apply SameShape_refl.
  - split.
    + open_world w; open_closure c; unfold performDetach, captureResponse;
        crush_world.
    + rewrite performDetach_store by done. by rewrite length_alter.
Qed.

Lemma SameShape_runInteractiveSession r tn w :
  SameShape w (runInteractiveSession r tn w).2.
Proof.
  unfold runInteractiveSession. case_match; cbn [snd]; [apply SameShape_refl|].
  apply SameShape_same; cbn; by case_match.
Qed.

Lemma SameShape_onStdinData now data c w :
  SameShape w (onStdinData now data c w).2.
Proof.
  destruct (onStdinData_cases now data c w) as [H|[H|(_ & t & H)]];
    rewrite H; cbn [snd].
  - apply SameShape_debugTrace.
  - eapply SameShape_trans;
      [apply SameShape_debugTrace|apply SameShape_performDetach].
  - eapply SameShape_trans;
      [apply SameShape_debugTrace|apply SameShape_onManager].
Qed.

Lemma SameShape_resume p w : SameShape w (enterInteractiveMode_resume p w).2.
Proof.
  unfold enterInteractiveMode_resume.
  eapply SameShape_trans; [|apply SameShape_runInteractiveSession].
  eapply SameShape_trans; [|apply SameShape_onManager].
  destruct (isReattach p && _); [|destruct (isFirstLaunch p)];
    by apply SameShape_same.
Qed.

(** A new manager gets a reference that was not in use. *)
Lemma WellKept_getOrCreateManager t wfr ok w :
  WellKept w → WellKept (getOrCreateManager t wfr ok w).2.
Proof.
  intros [Hv Hi].
  destruct (liveManager t w) as [r|] eqn:Hlive.
  { unfold getOrCreateManager. by rewrite Hlive. }
  destruct (registry w !! t) as [a|] eqn:Hreg.
  2:{ unfold getOrCreateManager. by rewrite Hlive, Hreg. }
  destruct (getOrCreateManager_create t wfr ok w a Hlive Hreg)
    as (_ & Hpm & Hst & _).
  split.
  - intros t' r. rewrite Hpm, Hst, length_app. cbn [length].
    intros [[_ <-]|[_ H]]%lookup_insert_Some; [lia|].
    apply Hv in H. lia.
  - intros t1 t2 r. rewrite Hpm.
    intros [[<- <-]|[Hn1 H1]]%lookup_insert_Some
           [[<- Hr]|[Hn2 H2]]%lookup_insert_Some; try done.
    + apply Hv in H2. lia.
    + apply Hv in H1. lia.
    + by apply (Hi t1 t2 r).
Qed.

Lemma WellKept_killExisting w : WellKept w → WellKept (killExisting w).
Proof.
  intros [Hv Hi]. destruct (liveManager (activeTool w) w) as [r0|] eqn:Hlive.
  2:{ unfold killExisting. by rewrite Hlive. }
  destruct (killExisting_live w r0 Hlive) as (Hpm & Hst & _).
  split.
  - intros t r. rewrite Hpm, Hst, length_alter.
    intros [_ H]%lookup_delete_Some. by apply (Hv t).
  - intros t1 t2 r. rewrite Hpm.
    intros [_ H1]%lookup_delete_Some [_ H2]%lookup_delete_Some.
    by apply (Hi t1 t2 r).
Qed.

Lemma WellKept_sendToTool message sent w :
  WellKept w → WellKept (sendToTool message sent w).
Proof.
  intros HW. unfold sendToTool.
  destruct (requestInProgress w);
    [by apply (WellKept_SameShape w); [apply SameShape_same|]|].
  cbn zeta. set (w0 := stdoutWrite _ _).
  assert (WellKept (killExisting w0)) as HW1.
  { apply WellKept_killExisting.
    by apply (WellKept_SameShape w); [apply SameShape_same|]. }
  apply (WellKept_SameShape (killExisting w0)); [|done].
  destruct (registry (killExisting w0) !! activeTool (killExisting w0));
    [destruct sent as [response|];
     [destruct (0 <? length response)%nat|]|];
    by apply SameShape_same.
Qed.

Lemma WellKept_begin ok w :
  WellKept w → WellKept (enterInteractiveMode_begin ok w).2.
Proof.
  intros HW. unfold enterInteractiveMode_begin.
  pose proof (WellKept_getOrCreateManager (activeTool w) false ok w HW) as H1.
  destruct (getOrCreateManager (activeTool w) false ok w) as [[r|e] w1];
    cbn [snd] in *; [|done].
  by apply (WellKept_SameShape w1); [apply SameShape_same|].
Qed.

Lemma WellKept_with ok w :
  WellKept w → WellKept (enterInteractiveModeWith ok w).2.
Proof.
  intros HW. unfold enterInteractiveModeWith.
  pose proof (WellKept_getOrCreateManager (activeTool w) false ok w HW) as H1.
  destruct (getOrCreateManager (activeTool w) false ok w) as [[r|e] w1];
    cbn [snd] in *; [|done].
  eapply WellKept_SameShape; [|exact H1].
  eapply SameShape_trans; [|apply SameShape_runInteractiveSession].
  eapply SameShape_trans; [|apply SameShape_onManager].
  by apply SameShape_same.
Qed.

Lemma WellKept_step cap s e :
  WellKept (world s) → WellKept (world (step cap s e)).
Proof.
  intros HW. destruct s as [w m]. cbn [world] in HW.
  destruct e as [cmd| |now data|r chunk|r code]; cbn [step mode world].
  - destruct m; try done. destruct cmd as [message sent|ok|ok|t'|];
      cbn [handle].
    + by apply WellKept_sendToTool.
    + pose proof (WellKept_begin ok w HW) as H.
      by destruct (enterInteractiveMode_begin ok w) as [[p|e] w1].
    + pose proof (WellKept_with ok w HW) as H.
      by destruct (enterInteractiveModeWith ok w) as [[c|e] w1].
    + by apply (WellKept_SameShape w); [apply SameShape_same|].
    + split; cbn; intros ? ?; by rewrite ?lookup_empty.
  - destruct m as [|p|c|]; try done.
    pose proof (SameShape_resume p w) as HK.
    destruct (enterInteractiveMode_resume p w) as [[c|e] w'];
      by apply (WellKept_SameShape w).
  - destruct m as [|p|c|]; try done.
    pose proof (SameShape_onStdinData now data c w) as HK.
    destruct (onStdinData now data c w) as [c' w'].
    by apply (WellKept_SameShape w).
  - by apply (WellKept_SameShape w); [apply SameShape_ptyData|].
  - by apply (WellKept_SameShape w); [apply SameShape_ptyExit|].
Qed.

Lemma WellKept_run cap events : ∀ s,
  WellKept (world s) → WellKept (world (run cap s events)).
Proof.
  induction events as [|e events IH]; intros s HW; [done|].
  cbn. apply IH. by apply WellKept_step.
Qed.

End Shape.

(** X19: a request to one tool does not disturb the other.  In every
    state the session can reach, [sendToTool], which kills the manager of
    the active tool, leaves the manager of every other tool in the map
    and does not touch it: its state, its buffer and what was written to
    it are what they were. *)
Theorem send_spares_the_other_tools (cap : nat) (reg : gmap string Adapter)
    (t0 : string) (tty dbg : bool) (events : list Event)
    (message : jsstring) (sent : option jsstring) :
  let w := world (run cap (initial reg t0 tty dbg) events) in
  let w' := sendToTool message sent w in
  ∀ t r, t ≠ activeTool w → ptyManagers w !! t = Some r →
    ptyManagers w' !! t = Some r ∧ store w' !! r = store w !! r.
Proof.
  cbn zeta. intros t r Hne Hreg.
  assert (WellKept (world (run cap (initial reg t0 tty dbg) events)))
    as [_ Hinj].
  { apply WellKept_run. split; cbn; intros ? ?; by rewrite ?lookup_empty. }
  set (w := world _) in *.
  unfold sendToTool. destruct (requestInProgress w); [done|].
  cbn zeta. set (w0 := stdoutWrite _ _).
  assert (ptyManagers (killExisting w0) !! t = Some r ∧
          store (killExisting w0) !! r = store w !! r) as Hkill.
  { destruct (liveManager (activeTool w0) w0) as [r0|] eqn:Hlive.
    - destruct (killExisting_live w0 r0 Hlive) as (Hpm & Hst & _).
      apply liveManager_Some in Hlive as [Hreg0 _].
      rewrite Hpm, Hst. split.
      + by rewrite lookup_delete_ne.
      + rewrite list_lookup_alter_ne; [done|].
        intros ->. apply Hne. by apply (Hinj t (activeTool w) r).
    - unfold killExisting. by rewrite Hlive. }
  destruct (registry (killExisting w0) !! activeTool (killExisting w0));
    [destruct sent as [response|];
     [destruct (0 <? length response)%nat|]|];
    exact Hkill.
Qed.

(** ** The way back to the prompt *)

Section WayBack.
Implicit Types (w : World) (c : Closure).

(** A chunk with a detach key is handled by [performDetach]. *)
Lemma onStdinData_detach_key now (data : Buffer) c w b :
  b ∈ data → isDetachKey (Byte.to_N b) = true →
  onStdinData now data c w = performDetach c (debugTrace data c w).
Proof.
  intros Hin Hkey.
  destruct (detach_key_survives data b Hin Hkey) as [Hstr Hstrip].
  pose proof (isDetachKey_char _ Hkey) as Hchar.
  unfold onStdinData.
  assert (bool_decide (toString data = FOCUS_IN_SEQ) = false) as ->.
  { apply bool_decide_eq_false. intros Heq. rewrite Heq in Hstr.
    unfold FOCUS_IN_SEQ in Hstr.
    rewrite !elem_of_cons, elem_of_nil in Hstr. lia. }
  assert (bool_decide (toString data = FOCUS_OUT_SEQ) = false) as ->.
  { apply bool_decide_eq_false. intros Heq. rewrite Heq in Hstr.
    unfold FOCUS_OUT_SEQ in Hstr.
    rewrite !elem_of_cons, elem_of_nil in Hstr. lia. }
  cbn [orb]. change (stripResponses id (stripFocus id (toString data)))
    with (stripInput id (toString data)).
  destruct (stripInput id (toString data)) as [|x s] eqn:Hs;
    [by apply elem_of_nil in Hstrip|].
  cbn [length Nat.eqb].
  assert (existsb isDetachKey (map Byte.to_N data) = true) as ->.
  { apply existsb_exists. exists (Byte.to_N b). split; [|done].
    apply in_map. by apply list_elem_of_In. }
  by case_match.
Qed.

Lemma deadRef_debugTrace data c w r :
  deadRef r (debugTrace data c w) = deadRef r w.
Proof. unfold deadRef. by rewrite store_debugTrace. Qed.

Lemma isDead_detach m : isDead (detach m) = isDead m.
Proof. unfold detach, isDead. cbn. by destruct (state m). Qed.

Lemma performDetach_alive c w r :
  detached c = false → deadRef r (performDetach c w).2 = deadRef r w.
Proof.
  intros Hd. unfold deadRef. rewrite performDetach_store by done.
  rewrite list_lookup_alter. case_decide; [|done]. subst.
  destruct (store w !! manager c); [|done]. cbn. apply isDead_detach.
Qed.

Lemma performDetach_attached c w r :
  detached c = false → r ≠ manager c →
  attachedRef r (performDetach c w).2 = attachedRef r w.
Proof.
  intros Hd Hr. unfold attachedRef. rewrite performDetach_store by done.
  rewrite list_lookup_alter. by case_decide.
Qed.

End WayBack.

(** X16: the way back to the prompt is always open.  In every state the
    session can reach, a chunk that holds one of the bytes 0x1C to 0x1F
    ends the interactive session: the prompt has control again, no manager
    is attached, nothing was written to a subprocess, and which
    subprocesses are alive has not changed. *)
Theorem detach_key_returns_to_prompt (cap : nat) (reg : gmap string Adapter)
    (t : string) (tty dbg : bool) (events : list Event)
    (now : Z) (data : Buffer) :
  (∃ b, b ∈ data ∧ isDetachKey (Byte.to_N b) = true) →
  let s := run cap (initial reg t tty dbg) events in
  let s' := step cap s (StdinData now data) in
  ∀ c, mode s = Interactive c →
    mode s' = Prompt ∧
    (∀ r, attachedRef r (world s') = false) ∧
    (∀ r, inputOf r (world s') = inputOf r (world s)) ∧
    (∀ r, deadRef r (world s') = deadRef r (world s)).
Proof.
  intros (b & Hin & Hkey). cbn zeta. intros c Hmode.
  pose proof (Inv_run reg cap events _ (Inv_initial reg t tty dbg)) as HI.
  set (s := run cap _ events) in *.
  destruct HI as (_ & _ & HI). rewrite Hmode in HI.
  destruct HI as (Hd & _ & Honly).
  destruct s as [w m]. cbn [mode world] in *. subst m.
  cbn [step mode world].
  rewrite (onStdinData_detach_key now data c w b Hin Hkey).
  destruct (performDetach_closure c (debugTrace data c w) Hd)
    as (_ & Hres & _).
  destruct (performDetach_manager c (debugTrace data c w) Hd) as [Hoff Hinput].
  pose proof (performDetach_alive c (debugTrace data c w)) as Halive.
  pose proof (performDetach_attached c (debugTrace data c w)) as Hatt.
  destruct (performDetach c (debugTrace data c w)) as [c' w'].
  cbn [fst snd mode world] in *. rewrite Hres.
  split; [done|]. split; [|split].
  - intros r. destruct (decide (r = manager c)) as [->|Hne]; [done|].
    rewrite Hatt by done.
    destruct (attachedRef r (debugTrace data c w)) eqn:Hr; [|done].
    exfalso. apply Hne, Honly.
    unfold attachedRef in *. by rewrite store_debugTrace in Hr.
  - intros r. rewrite Hinput. unfold inputOf. by rewrite store_debugTrace.
  - intros r. rewrite Halive by done. apply deadRef_debugTrace.
Qed.

(** ** Colours and layout *)

Section Sgr.

Lemma reSgr_headed : escapeHeaded id (reSgr id).
Proof.
  apply (matchCsi_headed id [0x5b] (isChar 0x6d)).
  - repeat constructor. lia.
  - intros c Hc. unfold isChar in Hc. apply N.eqb_eq in Hc. lia.
Qed.

(** A colour sequence at the head of a string is deleted, and the scan
    goes on behind it. *)
Lemma stripSgr_sgr color rest :
  isSgr color → stripSgr (color ++ rest) = stripSgr rest.
Proof.
  intros (ps & Hps & ->). unfold stripSgr.
  change (CSI ++ ps ++ [0x6d]) with (ESC :: 0x5b :: ps ++ [0x6d]).
  cbn [app]. rewrite <- app_assoc. cbn [app removeAll].
  assert (reSgr id (ESC :: 0x5b :: ps ++ 0x6d :: rest)
          = Some (S (S (S (length ps))))) as ->.
  { unfold reSgr, matchCsi, CSI. cbn [startsWith id].
    rewrite !N.eqb_refl. cbn [andb length drop]. rewrite drop_0.
    by rewrite paramsThen_run. }
  rewrite removeAll_skip. cbn [drop].
  replace (ps ++ 0x6d :: rest) with ((ps ++ [0x6d]) ++ rest)
    by (by rewrite <- app_assoc).
  rewrite drop_app_length'; [done|].
  rewrite length_app. cbn. lia.
Qed.

(** Text without an escape is kept. *)
Lemma stripSgr_plain o rest :
  ESC ∉ o → stripSgr (o ++ rest) = o ++ stripSgr rest.
Proof.
  intros Ho. unfold stripSgr.
  apply (removeAll_over_plain id _ reSgr_headed).
  apply Forall_forall. intros y Hy Heq. cbn in Heq. by subst.
Qed.

Lemma paramsThen_breaks final s x rest :
  breaks x → final x = false →
  paramsThen id final (s ++ x :: rest) = paramsThen id final s.
Proof.
  intros (_ & Hp & _) Hf. induction s as [|y s IH].
  - cbn. by rewrite Hp, Hf.
  - cbn. by rewrite IH.
Qed.

Lemma reSgr_breaks y s x rest :
  breaks x → reSgr id (y :: s ++ x :: rest) = reSgr id (y :: s).
Proof.
  intros Hx. unfold reSgr, matchCsi, CSI.
  destruct s as [|z s]; cbn [app startsWith length drop].
  - destruct Hx as (Hx & _). apply N.eqb_neq in Hx.
    change (id x) with x. rewrite Hx. cbn [andb]. by rewrite !andb_false_r.
  - destruct (_ && _); [|done]. rewrite !drop_0.
    rewrite paramsThen_breaks; [done|done|].
    destruct Hx as (_ & _ & Hx). unfold isChar. by apply N.eqb_neq.
Qed.

(** A character that cannot continue a sequence cuts the string in two
    for the scan. *)
Lemma removeAll_breaks x rest s : ∀ k,
  breaks x → (k ≤ length s)%nat →
  removeAll (reSgr id) k (s ++ x :: rest)
  = removeAll (reSgr id) k s ++ removeAll (reSgr id) 0 (x :: rest).
Proof.
  induction s as [|y s IH]; intros k Hx Hk.
  - cbn in Hk. by replace k with 0%nat by lia.
  - cbn [app]. cbn [removeAll]. destruct k as [|k].
    + rewrite reSgr_breaks by done.
      destruct (reSgr id (y :: s)) as [[|n]|] eqn:Hm.
      * cbn [app]. by rewrite IH by (done || lia).
      * destruct (reSgr_headed _ _ Hm) as (? & ? & k' & ? & _ & ? & ? & _).
        simplify_eq. by apply IH.
      * cbn [app]. by rewrite IH by (done || lia).
    + apply IH; [done|]. cbn in Hk. lia.
Qed.

Lemma stripSgr_breaks s x rest :
  breaks x → stripSgr (s ++ x :: rest) = stripSgr s ++ stripSgr (x :: rest).
Proof. intros Hx. apply removeAll_breaks; [done|lia]. Qed.

Lemma removeAll_length {A} (m : list A → option nat) s : ∀ k,
  (length (removeAll m k s) ≤ length s)%nat.
Proof.
  induction s as [|x s IH]; intros k; [done|].
  cbn [removeAll]. destruct k as [|k].
  - destruct (m (x :: s)) as [[|n]|]; cbn [length];
      try (specialize (IH 0%nat); lia).
    specialize (IH n). lia.
  - specialize (IH k). cbn [length]. lia.
Qed.

Lemma removeAll_none {A} (m : list A → option nat) x s :
  m (x :: s) = None → removeAll m 0 (x :: s) = x :: removeAll m 0 s.
Proof. intros H. cbn [removeAll]. by rewrite H. Qed.

Lemma RESET_sgr : isSgr RESET.
Proof. by exists [0x30]. Qed.

Lemma GRAY_sgr : isSgr GRAY.
Proof. by exists [0x39; 0x30]. Qed.

Lemma rainbowColor_sgr k :
  (0 ≤ k < 6)%Z → isSgr (rainbowColor k).
Proof.
  intros Hk. unfold rainbowColor.
  destruct (Z.ltb_spec k 0) as [|_]; [lia|].
  assert (Z.to_nat k < 6)%nat as Hn by lia.
  destruct (Z.to_nat k) as [|[|[|[|[|[|n]]]]]]; [..|lia]; cbn;
    eexists [_; _]; (split; [|reflexivity]); done.
Qed.

Lemma sgr_head color : isSgr color → ∃ t, color = ESC :: t.
Proof. intros (ps & _ & ->). by eexists. Qed.

End Sgr.

(** X5: the colours of [rainbowText] are invisible to [stripAnsiLength]:
    the text comes back character for character, whatever it contains,
    so the width the layout computes is the length of the text. *)
Theorem rainbowText_strips_to_text (text : jsstring) (offset : Z) :
  (0 ≤ offset)%Z →
  stripSgr (rainbowText text offset) = text ∧
  stripAnsiLength (rainbowText text offset) = length text.
Proof.
  intros Hoff.
  assert (∀ i, (0 ≤ i)%Z →
            (∃ t, rainbowFrom i offset text ++ RESET = ESC :: t) ∧
            stripSgr (rainbowFrom i offset text ++ RESET) = text) as H.
  { induction text as [|x text IH]; intros i Hi.
    - split; [by eexists|]. cbn [rainbowFrom app].
      rewrite <- (app_nil_r RESET). rewrite stripSgr_sgr; [done|].
      apply RESET_sgr.
    - destruct (IH (i + 1)%Z) as [[t Ht] Hs]; [lia|].
      assert (isSgr (rainbowColor
                       (Z.rem (i + offset)
                          (Z.of_nat (length RAINBOW_COLORS))))) as Hc.
      { apply rainbowColor_sgr. change (Z.of_nat _) with 6%Z.
        pose proof (Z.rem_bound_pos (i + offset) 6). lia. }
      cbn [rainbowFrom]. rewrite <- app_assoc. split.
      + destruct (sgr_head _ Hc) as [t' ->]. by eexists.
      + rewrite stripSgr_sgr by done. cbn [app].
        unfold stripSgr. rewrite removeAll_none; [f_equal; exact Hs|].
        rewrite Ht. unfold reSgr, matchCsi.
        assert (startsWith id CSI (x :: ESC :: t) = false) as ->; [|done].
        cbn. by rewrite andb_false_r. }
  destruct (H 0%Z) as [_ Hs]; [lia|].
  unfold stripAnsiLength, rainbowText. by rewrite Hs.
Qed.

Section Box.

Lemma replicate_snoc_cons {A} n (x : A) rest :
  replicate n x ++ x :: rest = x :: replicate n x ++ rest.
Proof. induction n as [|n IH]; [done|]. cbn. by rewrite IH. Qed.

Lemma strRepeat_Some str count :
  (0 ≤ count)%Z →
  strRepeat str count = Some (concat (replicate (Z.to_nat count) str)).
Proof.
  intros H. unfold strRepeat. by destruct (Z.ltb_spec count 0); [lia|].
Qed.

Lemma concat_replicate_length n (l : jsstring) :
  length (concat (replicate n l)) = (n * length l)%nat.
Proof.
  induction n as [|n IH]; [done|]. cbn. rewrite length_app, IH. lia.
Qed.

Lemma concat_replicate_plain n (l : jsstring) :
  ESC ∉ l → ESC ∉ concat (replicate n l).
Proof.
  intros Hl. induction n as [|n IH]; cbn; [by intros ?%elem_of_nil|].
  intros [?|?]%elem_of_app; done.
Qed.

Lemma stripSgr_RESET : stripSgr RESET = [].
Proof. reflexivity. Qed.

Lemma SPACE_breaks : breaks SPACE.
Proof. done. Qed.

(** What is seen of a line of the box. *)
Lemma stripSgr_boxLine width line :
  stripSgr (boxLine width line)
  = [0x2502; SPACE] ++ stripSgr line ++
    replicate (Z.to_nat (Z.max 0
                 (width - 4 - Z.of_nat (stripAnsiLength line)))) SPACE ++
    [SPACE; 0x2502].
Proof.
  unfold boxLine. cbn zeta.
  set (pad := Z.to_nat _).
  rewrite (stripSgr_sgr GRAY) by apply GRAY_sgr.
  rewrite (stripSgr_plain [0x2502]) by (by intros [?|?%elem_of_nil]%elem_of_cons).
  rewrite (stripSgr_sgr RESET) by apply RESET_sgr.
  rewrite (stripSgr_plain [SPACE]) by (by intros [?|?%elem_of_nil]%elem_of_cons).
  change ([SPACE] ++ GRAY ++ [0x2502] ++ RESET)
    with (SPACE :: GRAY ++ [0x2502] ++ RESET).
  rewrite replicate_snoc_cons.
  rewrite stripSgr_breaks by apply SPACE_breaks.
  replace (SPACE :: replicate pad SPACE ++ GRAY ++ [0x2502] ++ RESET)
    with ((replicate pad SPACE ++ [SPACE]) ++ GRAY ++ [0x2502] ++ RESET ++ []).
  2:{ rewrite <- app_assoc. cbn [app]. rewrite replicate_snoc_cons.
      by rewrite app_nil_r. }
  rewrite stripSgr_plain.
  2:{ intros H. apply elem_of_app in H as [H|H].
      - by apply elem_of_replicate in H as [H _].
      - by apply elem_of_cons in H as [H|H%elem_of_nil]. }
  rewrite (stripSgr_sgr GRAY) by apply GRAY_sgr.
  rewrite (stripSgr_plain [0x2502]) by (by intros [?|?%elem_of_nil]%elem_of_cons).
  rewrite (stripSgr_sgr RESET) by apply RESET_sgr.
  cbn [app]. f_equal. f_equal. f_equal.
  rewrite <- app_assoc. done.
Qed.

Lemma stripAnsiLength_boxLine width line :
  Z.of_nat (stripAnsiLength (boxLine width line))
  = Z.max width (Z.of_nat (stripAnsiLength line) + 4).
Proof.
  unfold stripAnsiLength at 1. rewrite stripSgr_boxLine.
  rewrite !length_app, length_replicate. unfold stripAnsiLength.
  cbn [length]. lia.
Qed.

(** What is seen of the top and of the bottom. *)
Lemma stripAnsiLength_boxEdge l r bar :
  l ≠ ESC → r ≠ ESC → ESC ∉ bar →
  stripAnsiLength (GRAY ++ [l] ++ bar ++ [r] ++ RESET)
  = (length bar + 2)%nat.
Proof.
  intros Hl Hr Hbar. unfold stripAnsiLength.
  rewrite (stripSgr_sgr GRAY) by apply GRAY_sgr.
  replace ([l] ++ bar ++ [r] ++ RESET)
    with (([l] ++ bar ++ [r]) ++ RESET ++ [])
    by (by rewrite app_nil_r, <- !app_assoc).
  rewrite stripSgr_plain.
  2:{ intros [?|[?|[?|?%elem_of_nil]%elem_of_cons]%elem_of_app]%elem_of_cons;
        by subst. }
  rewrite (stripSgr_sgr RESET) by apply RESET_sgr.
  rewrite !length_app. cbn. lia.
Qed.

End Box.

(** X6: the box of [drawBox] is straight.  A width below 2 throws; from
    2 on the box has one line for each line of content between its top
    and its bottom, a content line is as wide on the screen as the larger
    of the width and the content plus 4, and so every line of the box is
    exactly as wide as the box when no content is wider than the width
    less 4. *)
Theorem drawBox_lines_are_aligned (content : list jsstring) (width : Z) :
  ((width < 2)%Z → drawBox content width = None) ∧
  ((2 ≤ width)%Z →
   ∃ rows,
     drawBoxLines content width = Some rows ∧
     drawBox content width = Some (join NEWLINE rows) ∧
     length rows = (length content + 2)%nat ∧
     (Forall (λ line, (Z.of_nat (stripAnsiLength line) ≤ width - 4)%Z)
        content →
      Forall (λ row, Z.of_nat (stripAnsiLength row) = width) rows)).
Proof.
  split.
  - intros Hw. unfold drawBox, drawBoxLines, strRepeat.
    by destruct (Z.ltb_spec (width - 2) 0); [|lia].
  - intros Hw. unfold drawBox, drawBoxLines.
    rewrite strRepeat_Some by lia. cbn [mbind option_bind].
    eexists. split; [reflexivity|]. split; [reflexivity|]. split.
    { rewrite !length_app, length_map. cbn. lia. }
    intros Hcontent.
    assert (ESC ∉ concat (replicate (Z.to_nat (width - 2))
                            ([0x2500] : jsstring))) as Hbar.
    { apply concat_replicate_plain.
      by intros [?|?%elem_of_nil]%elem_of_cons. }
    apply Forall_app. split; [|apply Forall_app; split].
    + apply Forall_cons_2; [|apply Forall_nil_2].
      rewrite stripAnsiLength_boxEdge by done.
      rewrite concat_replicate_length. cbn [length]. lia.
    + apply Forall_forall. intros row (line & -> & Hin)%list_elem_of_fmap.
      rewrite stripAnsiLength_boxLine.
      rewrite Forall_forall in Hcontent. specialize (Hcontent _ Hin). lia.
    + apply Forall_cons_2; [|apply Forall_nil_2].
      rewrite stripAnsiLength_boxEdge by done.
      rewrite concat_replicate_length. cbn [length]. lia.
Qed.

(** X7: [fullWidthLine] draws a line across the terminal: with a colour
    sequence for [color] and a [char] without escapes, what is seen of
    the line is [char] as many times as the terminal has columns, 80 when
    the width is unknown or 0. *)
Theorem fullWidthLine_fills_the_width (char color : jsstring)
    (columns : option Z) :
  isSgr color → ESC ∉ char → (∀ c, columns = Some c → (0 ≤ c)%Z) →
  ∃ line,
    fullWidthLine char color columns = Some line ∧
    stripSgr line
    = concat (replicate (Z.to_nat (getTerminalWidth columns)) char) ∧
    stripAnsiLength line
    = (Z.to_nat (getTerminalWidth columns) * length char)%nat ∧
    (getTerminalWidth columns = 80 ↔
     columns = None ∨ columns = Some 0 ∨ columns = Some 80)%Z.
Proof.
  intros Hcolor Hchar Hcols.
  assert (0 ≤ getTerminalWidth columns)%Z as Hw.
  { unfold getTerminalWidth. destruct columns as [c|]; [|lia].
    specialize (Hcols c eq_refl). case_match; lia. }
  unfold fullWidthLine. rewrite strRepeat_Some by done.
  cbn [mbind option_bind].
  set (bar := concat _).
  assert (stripSgr (color ++ bar ++ RESET) = bar) as Hs.
  { rewrite stripSgr_sgr by done.
    rewrite <- (app_nil_r RESET). rewrite stripSgr_plain.
    2:{ by apply concat_replicate_plain. }
    rewrite (stripSgr_sgr RESET) by apply RESET_sgr.
    by rewrite app_nil_r. }
  eexists. split; [reflexivity|]. split; [exact Hs|]. split.
  - unfold stripAnsiLength. rewrite Hs. apply concat_replicate_length.
  - unfold getTerminalWidth. destruct columns as [c|].
    + destruct (Z.eqb_spec c 0) as [->|Hc].
      * split; auto.
      * split; [intros ->; auto|].
        intros [?|[?|?]]; by simplify_eq.
    + split; auto.
Qed.

(** ** The spinner *)

Section SpinnerFacts.
Import Spinner.

Lemma spaced_cons gap a l :
  (∀ b, head l = Some b → (a + gap ≤ b)%Z) → spaced gap l →
  spaced gap (a :: l).
Proof. destruct l as [|b l]; cbn; auto. Qed.

(** What one firing of the interval shows of warnings, and what it
    remembers. *)
Lemma tick_warning now columns sp :
  let elapsed := (now - startTime sp)%Z in
  let fires :=
    (WARNING_THRESHOLD_MS <=? elapsed)%Z &&
    (negb (warningShown sp) ||
     (WARNING_REPEAT_MS <=? elapsed - lastWarningTime sp)%Z) in
  omap warningOf (tick now columns sp).2
    = (if fires then [(elapsed / 1000)%Z] else []) ∧
  startTime (tick now columns sp).1 = startTime sp ∧
  warningShown (tick now columns sp).1
    = (if fires then true else warningShown sp) ∧
  lastWarningTime (tick now columns sp).1
    = (if fires then elapsed else lastWarningTime sp) ∧
  omap frameOf (tick now columns sp).2
    = [((frameIndex sp + 1) mod SPINNER_FRAMES)%nat].
Proof.
  cbn zeta. unfold tick.
  destruct (0 <? length (statusLine sp))%nat;
    destruct (_ && _); cbn; done.
Qed.

(** The warnings of a run are spaced, and the first of them is late
    enough for the state the run starts in. *)
Lemma run_warnings events : ∀ sp,
  let ws := omap warningOf (shows events sp) in
  spaced 30 ws ∧
  ∀ w, head ws = Some w →
    (60 ≤ w)%Z ∧
    (warningShown sp = true → (lastWarningTime sp / 1000 + 30 ≤ w)%Z).
Proof.
  induction events as [|e events IH]; intros sp; cbn zeta; [done|].
  cbn [shows]. destruct e as [now columns|line].
  - cbn [react].
    destruct (tick_warning now columns sp) as (Hout & Hst & Hshown & Hlast & _).
    cbn zeta in *.
    destruct (tick now columns sp) as [sp' out]. cbn [fst snd] in *.
    rewrite omap_app, Hout.
    destruct (IH sp') as [Hsp Hhd].
    set (elapsed := (now - startTime sp)%Z) in *.
    destruct (_ && _) eqn:Hfires.
    + apply andb_true_iff in Hfires as [Hth Hrep].
      apply Z.leb_le in Hth. unfold WARNING_THRESHOLD_MS in Hth.
      cbn [app]. split.
      * apply spaced_cons; [|done]. intros b Hb.
        destruct (Hhd b Hb) as [_ Hb']. rewrite Hlast in Hb'. by apply Hb'.
      * intros w [= <-]. split.
        -- clearbody elapsed.
           pose proof (Z.div_le_lower_bound elapsed 1000 60). lia.
        -- intros Hs. rewrite Hs in Hrep. cbn in Hrep.
           apply Z.leb_le in Hrep. unfold WARNING_REPEAT_MS in Hrep.
           clearbody elapsed.
           replace (lastWarningTime sp / 1000 + 30)%Z
             with ((lastWarningTime sp + 30 * 1000) / 1000)%Z
             by (by rewrite Z.div_add).
           apply Z.div_le_mono; lia.
    + cbn [app]. split; [done|]. intros w Hw.
      destruct (Hhd w Hw) as [H60 Hb]. split; [done|].
      intros Hs. rewrite <- Hlast. apply Hb. by rewrite Hshown.
  - cbn [react app]. destruct (IH {|
      frameIndex := frameIndex sp; startTime := startTime sp;
      warningShown := warningShown sp;
      lastWarningTime := lastWarningTime sp;
      statusLine := line; hasStatusLine := hasStatusLine sp;
      intervalId := intervalId sp |}) as [Hsp Hhd].
    split; [done|]. exact Hhd.
Qed.

Lemma run_frames events : ∀ sp,
  Forall (λ f, (f < SPINNER_FRAMES)%nat) (omap frameOf (shows events sp)).
Proof.
  induction events as [|e events IH]; intros sp; [done|].
  cbn [shows]. destruct e as [now columns|line].
  - cbn [react].
    destruct (tick_warning now columns sp) as (_ & _ & _ & _ & Hf).
    destruct (tick now columns sp) as [sp' out]. cbn [fst snd] in *.
    rewrite omap_app, Hf. cbn [app]. constructor; [|apply IH].
    apply Nat.mod_upper_bound. done.
  - cbn [react app]. apply IH.
Qed.

End SpinnerFacts.

(** X8: the timeout warning of the spinner is shown for the first time
    when at least 60 seconds have passed, and each further warning shows
    at least 30 seconds more than the one before it, whenever the
    interval fires and whatever the clock does; the frame shown is always
    one of the ten. *)
Theorem spinner_warnings_are_spaced (now : Z) (sp : Spinner.t)
    (events : list Spinner.Signal) :
  let shown := Spinner.shows events (Spinner.start now sp).1 in
  let warnings := omap Spinner.warningOf shown in
  Forall (λ w, (60 ≤ w)%Z) (take 1 warnings) ∧
  Spinner.spaced 30 warnings ∧
  Forall (λ f, (f < 10)%nat) (omap Spinner.frameOf shown).
Proof.
  cbn zeta.
  destruct (run_warnings events (Spinner.start now sp).1) as [Hsp Hhd].
  split; [|split; [exact Hsp|apply run_frames]].
  destruct (omap _ _) as [|w ws]; [done|].
  cbn. constructor; [|done]. by destruct (Hhd w eq_refl).
Qed.

(** X9: on a terminal of at least 8 columns the status line under the
    spinner, with its five characters of indent, fits the width: a line
    of more than [termWidth - 5] characters is cut to [termWidth - 8] and
    three dots, a shorter one is shown as it is. *)
Theorem spinner_status_fits (statusLine : jsstring) (termWidth : Z) :
  (8 ≤ termWidth)%Z →
  let shown := Spinner.truncatedStatus statusLine termWidth in
  (Z.of_nat (length shown) ≤ termWidth - 5)%Z ∧
  ((Z.of_nat (length statusLine) ≤ termWidth - 5)%Z → shown = statusLine) ∧
  ((termWidth - 5 < Z.of_nat (length statusLine))%Z →
   shown = take (Z.to_nat (termWidth - 8)) statusLine ++ lit "...").
Proof.
  intros Hw. cbn zeta. unfold Spinner.truncatedStatus, Spinner.sliceTo.
  destruct (Z.ltb_spec (termWidth - 5) (Z.of_nat (length statusLine)))
    as [Hlong|Hshort].
  - destruct (Z.ltb_spec (termWidth - 8) 0) as [|_]; [lia|].
    rewrite Z.min_l by lia.
    split; [|split; [lia|done]].
    rewrite length_app, length_take. cbn [length lit]. 
    change (length (lit "...")) with 3%nat. lia.
  - split; [done|]. split; [done|lia].
Qed.

(** ** Tab completion *)

Section Completer.

Lemma startsWith_prefix (l s : jsstring) :
  startsWith id l s = true ↔ ∃ t, s = l ++ t.
Proof.
  revert s. induction l as [|c l IH]; intros s.
  - split; [by exists s|done].
  - destruct s as [|x s]; [split; [done|by intros [? ?]]|].
    cbn [startsWith]. rewrite andb_true_iff, N.eqb_eq, IH. unfold id. split.
    + intros [-> [t ->]]. by exists t.
    + intros [t [= -> ->]]. eauto.
Qed.

End Completer.

(** X10: completion is offered for commands only, and never comes back
    empty for them.  A line that does not begin with a slash gets no
    candidate.  A line that does gets exactly the commands that begin
    with it, if there is one, and the whole list of commands if there is
    none. *)
Theorem completer_offers_commands (line : jsstring) :
  let candidates := (completer line).1 in
  let fits c := c ∈ COMMANDS ∧ ∃ rest, c = line ++ rest in
  (completer line).2 = line ∧
  (startsWith id [SLASH] line = false → candidates = []) ∧
  (startsWith id [SLASH] line = true →
   candidates ≠ [] ∧
   ((∃ c, fits c) → ∀ c, c ∈ candidates ↔ fits c) ∧
   ((∀ c, ¬ fits c) → candidates = COMMANDS)).
Proof.
  cbn zeta. unfold completer. destruct (startsWith id [SLASH] line) eqn:Hs.
  2:{ done. }
  split; [done|]. split; [done|]. intros _.
  match goal with
  | |- context [List.filter ?f COMMANDS] => set (hits := List.filter f COMMANDS)
  end.
  assert (∀ c, c ∈ hits ↔ c ∈ COMMANDS ∧ ∃ rest, c = line ++ rest) as Hhits.
  { intros c. unfold hits. rewrite !list_elem_of_In, filter_In.
    by rewrite startsWith_prefix. }
  clearbody hits.
  destruct hits as [|h hits']; cbn [length Nat.ltb Nat.leb fst].
  - split; [done|]. split; [|done].
    intros [c Hc]. apply Hhits in Hc. by apply elem_of_nil in Hc.
  - split; [done|]. split; [done|].
    intros Hnone. exfalso. apply (Hnone h), Hhits. left.
Qed.

(** ** Reading a line *)

Section HeadedBy.

Lemma matchLiteral_headedBy h l : headedBy h (matchLiteral id (h :: l)).
Proof.
  intros s n H. unfold matchLiteral in H.
  destruct (startsWith id (h :: l) s) eqn:Hs; [|done].
  destruct s as [|x t]; [done|].
  cbn in Hs. apply andb_true_iff in Hs as [Hx _]. apply N.eqb_eq in Hx.
  exists t. by rewrite <- Hx.
Qed.

Lemma matchCsi_headedBy h intro final :
  headedBy h (matchCsi id (h :: intro) final).
Proof.
  intros s n H. unfold matchCsi in H.
  destruct (startsWith id (h :: intro) s) eqn:Hs; [|done].
  destruct s as [|x t]; [done|].
  cbn in Hs. apply andb_true_iff in Hs as [Hx _]. apply N.eqb_eq in Hx.
  exists t. by rewrite <- Hx.
Qed.

(** No match starts inside text that lacks the first character of the
    matches. *)
Lemma removeAll_over h m o rest :
  headedBy h m → h ∉ o →
  removeAll m 0 (o ++ rest) = o ++ removeAll m 0 rest.
Proof.
  intros Hm. induction o as [|y o IH]; intros Ho; [done|].
  cbn [app removeAll].
  destruct (m (y :: o ++ rest)) as [n|] eqn:Hmatch.
  - destruct (Hm _ _ Hmatch) as [t [= -> _]]. exfalso. apply Ho. left.
  - rewrite IH; [done|]. intros H. apply Ho. by right.
Qed.

Lemma removeAll_same h m s :
  headedBy h m → h ∉ s → removeAll m 0 s = s.
Proof.
  intros Hm Hs. rewrite <- (app_nil_r s) at 1.
  rewrite (removeAll_over h) by done. by rewrite app_nil_r.
Qed.

(** A match at the head of a string is deleted... *)
Lemma removeAll_drop (m : jsstring → option nat) k rest :
  k ≠ [] → m (k ++ rest) = Some (length k) →
  removeAll m 0 (k ++ rest) = removeAll m 0 rest.
Proof.
  intros Hk Hm. destruct k as [|x k]; [done|].
  cbn [app removeAll] in *. rewrite Hm. cbn [length].
  by rewrite removeAll_skip, drop_app_length.
Qed.

(** ... and a piece of text no match starts in is kept. *)
Lemma removeAll_keep h (m : jsstring → option nat) x k rest :
  headedBy h m → m ((x :: k) ++ rest) = None → h ∉ k →
  removeAll m 0 ((x :: k) ++ rest) = (x :: k) ++ removeAll m 0 rest.
Proof.
  intros Hh Hm Hk. cbn [app removeAll] in *. rewrite Hm.
  by rewrite (removeAll_over h).
Qed.

End HeadedBy.

Section Tail.

Lemma paramsC_tail s :
  paramsC s = true → ∃ pre p, s = pre ++ [p; 0x63] ∧ isParam p = true.
Proof.
  induction s as [|x s IH]; [done|].
  cbn [paramsC]. intros [Hx H]%andb_true_iff.
  destruct s as [|y [|z s]]; [done| |].
  - apply N.eqb_eq in H as ->. by exists [], x.
  - destruct (IH H) as (pre & p & Heq & Hp).
    exists (x :: pre), p. by rewrite Heq.
Qed.

Lemma paramsC_head x s : paramsC (x :: s) = true → isParam x = true.
Proof. cbn [paramsC]. by intros [Hx _]%andb_true_iff. Qed.

Lemma paramsC_intro ps :
  ps ≠ [] → forallb isParam ps = true → paramsC (ps ++ [0x63]) = true.
Proof.
  induction ps as [|p ps IH]; [done|]. intros _ Hps.
  cbn in Hps. apply andb_true_iff in Hps as [Hp Hps].
  destruct ps as [|q ps].
  - cbn. by rewrite Hp.
  - specialize (IH ltac:(done) Hps). cbn [app] in *.
    destruct (ps ++ [0x63]) as [|r t] eqn:Hd; [by destruct ps|].
    change (paramsC (p :: q :: r :: t))
      with (isParam p && paramsC (q :: r :: t)).
    by rewrite Hp, IH.
Qed.

Lemma digitsUParamsC_tail s :
  digitsUParamsC s = true →
  ∃ pre p, s = pre ++ [p; 0x63] ∧ isParam p = true.
Proof.
  induction s as [|x s IH]; [done|].
  cbn [digitsUParamsC]. destruct (x =? 0x75).
  - intros (pre & p & -> & Hp)%paramsC_tail. by exists (x :: pre), p.
  - intros [_ H]%andb_true_iff.
    destruct (IH H) as (pre & p & -> & Hp). by exists (x :: pre), p.
Qed.

Lemma digitsUParamsC_head x s :
  digitsUParamsC (x :: s) = true → x = 0x75 ∨ isParam x = true.
Proof.
  cbn [digitsUParamsC]. destruct (N.eqb_spec x 0x75) as [->|]; [by left|].
  intros [Hx _]%andb_true_iff. right. unfold isParam.
  unfold isDigit in Hx. by rewrite Hx.
Qed.

(** Both anchored expressions need a parameter and a [c] at the end of
    the string. *)
Lemma isResponseTail_tail s :
  isResponseTail s = true →
  ∃ pre p, s = pre ++ [p; 0x63] ∧ isParam p = true.
Proof.
  unfold isResponseTail. intros [H|H]%orb_true_iff.
  - by apply paramsC_tail.
  - by apply digitsUParamsC_tail.
Qed.

Lemma stripDaSuffix_same s :
  (∀ pre p, s = pre ++ [p; 0x63] → isParam p = false) →
  stripDaSuffix s = s.
Proof.
  induction s as [|x s IH]; [done|]. intros Hs.
  cbn [stripDaSuffix].
  destruct ((x =? 0x3b) && paramsC s) eqn:Hm.
  - apply andb_true_iff in Hm as [_ Hm].
    apply paramsC_tail in Hm as (pre & p & -> & Hp).
    rewrite (Hs (x :: pre) p) in Hp; done.
  - rewrite IH; [done|]. intros pre p ->. by apply (Hs (x :: pre)).
Qed.

(** The suffix goes, with its semicolon, when no semicolon comes before. *)
Lemma stripDaSuffix_cut cmd ps :
  0x3b ∉ cmd → ps ≠ [] → forallb isParam ps = true →
  stripDaSuffix (cmd ++ 0x3b :: ps ++ [0x63]) = cmd.
Proof.
  intros Hcmd Hne Hps. induction cmd as [|x cmd IH].
  - cbn [app stripDaSuffix]. by rewrite paramsC_intro.
  - cbn [app stripDaSuffix].
    assert ((x =? 0x3b) = false) as ->.
    { apply N.eqb_neq. intros ->. apply Hcmd. left. }
    cbn [andb]. rewrite IH; [done|]. intros H. apply Hcmd. by right.
Qed.

End Tail.

Section Trim.

Lemma trimStart_blank s :
  Forall (λ c, isWhiteSpace c = true) s → trimStart s = [].
Proof. induction 1 as [|x s Hx _ IH]; [done|]. cbn. by rewrite Hx. Qed.

Lemma trim_blank s :
  Forall (λ c, isWhiteSpace c = true) s → trim s = [].
Proof. intros Hs. unfold trim. by rewrite (trimStart_blank s). Qed.

End Trim.

(** Without escape and caret the five expressions find nothing. *)
Lemma cleanLine_plain line :
  ESC ∉ line → 0x5e ∉ line →
  cleanLine line
  = trim (let cleaned := stripDaSuffix line in
          if isResponseTail cleaned then [] else cleaned).
Proof.
  intros Hesc Hcaret. unfold cleanLine.
  rewrite (removeAll_same ESC (matchLiteral id FOCUS_IN_SEQ) line)
    by (done || apply (matchLiteral_headedBy ESC)).
  rewrite (removeAll_same ESC (matchLiteral id FOCUS_OUT_SEQ) line)
    by (done || apply (matchLiteral_headedBy ESC)).
  rewrite (removeAll_same 0x5e (matchLiteral id CARET_FOCUS_IN) line)
    by (done || apply (matchLiteral_headedBy 0x5e)).
  rewrite (removeAll_same 0x5e (matchLiteral id CARET_FOCUS_OUT) line)
    by (done || apply (matchLiteral_headedBy 0x5e)).
  rewrite (removeAll_same ESC (reCsiLetter id) line)
    by (done || apply (matchCsi_headedBy ESC)).
  done.
Qed.

(** X11: an ordinary line is trimmed and nothing else.  If the line has
    no escape and no caret, and does not end in a digit or semicolon
    followed by [c], the input it gives is the line without the white
    space at its two ends. *)
Theorem plain_line_is_only_trimmed (line : jsstring) :
  ESC ∉ line → 0x5e ∉ line →
  (∀ pre p, line = pre ++ [p; 0x63] → isParam p = false) →
  cleanLine line = trim line ∧
  lineHandler line = (if (0 <? length line)%nat &&
                         (length (trim line) =? 0)%nat
                      then None else Some (trim line)).
Proof.
  intros Hesc Hcaret Htail.
  assert (cleanLine line = trim line) as Hclean.
  { rewrite cleanLine_plain by done. cbn zeta.
    rewrite stripDaSuffix_same by done.
    destruct (isResponseTail line) eqn:Hr; [|done].
    apply isResponseTail_tail in Hr as (pre & p & Heq & Hp).
    rewrite (Htail pre p Heq) in Hp. done. }
  split; [done|]. unfold lineHandler. by rewrite Hclean.
Qed.

(** X12: the rest of a device-attributes response behind a command is cut
    off: a command without escape, caret and semicolon that does not
    begin with a digit or [u], followed by a semicolon, parameters and
    [c], gives the command. *)
Theorem response_suffix_is_cut (cmd ps : jsstring) :
  ESC ∉ cmd → 0x5e ∉ cmd → 0x3b ∉ cmd →
  (∀ x, head cmd = Some x → isParam x = false ∧ x ≠ 0x75) →
  ps ≠ [] → forallb isParam ps = true →
  cleanLine (cmd ++ 0x3b :: ps ++ [0x63]) = trim cmd.
Proof.
  intros Hesc Hcaret Hsemi Hhead Hne Hps.
  assert (∀ h, h ∉ cmd → h < 0x30 ∨ 0x3b < h → h ≠ 0x63 →
               h ∉ cmd ++ 0x3b :: ps ++ [0x63]) as Hout.
  { intros h Hh Hrange Hc [H|H]%elem_of_app; [done|].
    apply elem_of_cons in H as [->|H]; [lia|].
    apply elem_of_app in H as [H|H].
    - rewrite forallb_forall in Hps.
      apply list_elem_of_In, Hps, isParam_char in H. lia.
    - by apply elem_of_cons in H as [->|H%elem_of_nil]. }
  rewrite cleanLine_plain by (apply Hout; (done || unfold ESC; lia)).
  cbn zeta. rewrite stripDaSuffix_cut by done.
  destruct (isResponseTail cmd) eqn:Hr; [exfalso|done].
  destruct cmd as [|x cmd]; [done|].
  destruct (Hhead x eq_refl) as [Hx Hu].
  unfold isResponseTail in Hr. apply orb_true_iff in Hr as [Hr|Hr].
  - apply paramsC_head in Hr. congruence.
  - apply digitsUParamsC_head in Hr as [?|?]; congruence.
Qed.

Section Noise.

Lemma not_param c : ¬ (0x30 <= c <= 0x3b) → isParam c = false.
Proof.
  intros H. destruct (isParam c) eqn:Hp; [|done].
  by apply isParam_char in Hp.
Qed.

Lemma isWhiteSpace_range c :
  isWhiteSpace c = true → 0x09 <= c <= 0x0d ∨ c = 0x20 ∨ 0xa0 <= c.
Proof.
  unfold isWhiteSpace. intros H.
  repeat (apply orb_true_iff in H as [H|H]);
    repeat (apply andb_true_iff in H as [? H]);
    repeat match goal with
           | H : (_ <=? _) = true |- _ => apply N.leb_le in H
           | H : (_ =? _) = true |- _ => apply N.eqb_eq in H
           end; lia.
Qed.

Lemma isWhiteSpace_char c :
  isWhiteSpace c = true →
  c ≠ ESC ∧ c ≠ 0x5e ∧ isParam c = false ∧ c ≠ 0x75 ∧ c ≠ 0x63.
Proof.
  intros H%isWhiteSpace_range. unfold ESC.
  repeat split; try lia. apply not_param. lia.
Qed.

Lemma isLetter_range c :
  isLetter c = true → 0x41 <= c <= 0x5a ∨ 0x61 <= c <= 0x7a.
Proof.
  unfold isLetter. intros H.
  repeat (apply orb_true_iff in H as [H|H]);
    repeat (apply andb_true_iff in H as [? H]);
    repeat match goal with
           | H : (_ <=? _) = true |- _ => apply N.leb_le in H
           end; lia.
Qed.

Lemma isLetter_char c :
  isLetter c = true →
  c ≠ ESC ∧ c ≠ 0x5e ∧ isParam c = false ∧ c ≠ 0x5b.
Proof.
  intros H%isLetter_range. unfold ESC.
  repeat split; try lia. apply not_param. lia.
Qed.

Lemma render_cons k : ∃ x t, render k = x :: t.
Proof. destruct k; cbn; eauto. Qed.

Lemma params_not_in h ps :
  forallb isParam ps = true → isParam h = false → h ∉ ps.
Proof.
  intros Hps Hh Hin. rewrite forallb_forall in Hps.
  apply list_elem_of_In, Hps in Hin. congruence.
Qed.

(** One expression deletes the tokens it matches and leaves the others,
    whatever stands around them. *)
Lemma scan_tokens (m : jsstring → option nat) h (gone : Token → bool) ks :
  headedBy h m →
  (∀ k R, tokenOk k → gone k = true →
          m (render k ++ R) = Some (length (render k))) →
  (∀ k R, tokenOk k → gone k = false →
          m (render k ++ R) = None ∧ h ∉ tail (render k)) →
  Forall tokenOk ks →
  removeAll m 0 (renderAll ks)
  = renderAll (List.filter (λ k, negb (gone k)) ks).
Proof.
  intros Hh Hgone Hkept. induction 1 as [|k ks Hk _ IH]; [done|].
  unfold renderAll in *. cbn [fmap list_fmap concat List.filter].
  destruct (gone k) eqn:Hg; cbn [negb].
  - rewrite removeAll_drop; [done| |by apply Hgone].
    by destruct (render_cons k) as (x & t & ->).
  - destruct (Hkept k (concat (render <$> ks)) Hk Hg) as [Hnone Htail].
    destruct (render_cons k) as (x & t & Heq). rewrite Heq in *.
    cbn [fmap list_fmap concat].
    rewrite (removeAll_keep h) by done. by rewrite IH, Heq.
Qed.

Lemma filter_tokenOk (f : Token → bool) ks :
  Forall tokenOk ks → Forall tokenOk (List.filter f ks).
Proof.
  induction 1 as [|k ks Hk _ IH]; [done|]. cbn.
  destruct (f k); [by constructor|done].
Qed.

Lemma reCsiLetter_csi ps f R :
  forallb isParam ps = true → isLetter f = true →
  reCsiLetter id ((CSI ++ ps ++ [f]) ++ R) = Some (length (CSI ++ ps ++ [f])).
Proof.
  intros Hps Hf. unfold reCsiLetter, matchCsi, CSI.
  cbn [app startsWith id]. rewrite !N.eqb_refl. cbn [andb length drop].
  rewrite drop_0, <- app_assoc. cbn [app].
  rewrite paramsThen_run; [|done|done|by apply isLetter_char].
  cbn. rewrite length_app. cbn. f_equal. lia.
Qed.

Lemma literal3_csi a ps f R :
  forallb isParam ps = true → isParam a = false →
  matchLiteral id [ESC; 0x5b; a] ((CSI ++ ps ++ [f]) ++ R)
  = if match ps with [] => f =? a | _ => false end
    then Some 3%nat else None.
Proof.
  intros Hps Ha. unfold matchLiteral, CSI. cbn [app startsWith id length].
  rewrite !N.eqb_refl. cbn [andb].
  destruct ps as [|p ps]; cbn [app].
  - by rewrite andb_true_r.
  - cbn in Hps. apply andb_true_iff in Hps as [Hp _].
    destruct (N.eqb_spec p a) as [->|]; [congruence|done].
Qed.

Lemma csi_tail_free h ps f :
  forallb isParam ps = true → h ≠ 0x5b → isParam h = false → h ≠ f →
  h ∉ tail (CSI ++ ps ++ [f]).
Proof.
  intros Hps Hb Hp Hf. unfold CSI. cbn [app tail].
  intros [->|H]%elem_of_cons; [done|].
  apply elem_of_app in H as [H|H].
  - by apply (params_not_in h ps).
  - by apply elem_of_cons in H as [->|H%elem_of_nil].
Qed.

Lemma headedBy_none h (m : jsstring → option nat) x R :
  headedBy h m → x ≠ h → m (x :: R) = None.
Proof.
  intros Hh Hx. destruct (m (x :: R)) as [n|] eqn:Hm; [|done].
  destruct (Hh _ _ Hm) as [t [= -> _]]. done.
Qed.

(** The two focus reports, [a] being [I] or [O]. *)
Lemma scan_focus a ks :
  a = 0x49 ∨ a = 0x4f → Forall tokenOk ks →
  removeAll (matchLiteral id [ESC; 0x5b; a]) 0 (renderAll ks)
  = renderAll
      (List.filter
         (λ k, negb match k with TCsi [] f => f =? a | _ => false end) ks).
Proof.
  intros Ha. apply (scan_tokens _ ESC).
  - apply matchLiteral_headedBy.
  - intros [c|ps f| |] R Hk Hg; try done.
    destruct ps; [|done]. destruct Hk as [Hps _].
    cbn [render]. rewrite literal3_csi, Hg;
      [done|done|destruct Ha as [-> | ->]; done].
  - intros [c|ps f| |] R Hk Hg; cbn [render].
    + split; [|by intros ?%elem_of_nil].
      apply (headedBy_none ESC); [apply matchLiteral_headedBy|].
      by apply isWhiteSpace_char.
    + destruct Hk as [Hps Hf]. split.
      * rewrite literal3_csi;
          [|done|destruct Ha as [-> | ->]; done].
        by destruct ps; [rewrite Hg|].
      * apply isLetter_char in Hf as (Hf & _).
        apply csi_tail_free; (done || congruence).
    + split; [by apply (headedBy_none ESC); [apply matchLiteral_headedBy|]|].
      cbn. rewrite !elem_of_cons, elem_of_nil. unfold ESC. lia.
    + split; [by apply (headedBy_none ESC); [apply matchLiteral_headedBy|]|].
      cbn. rewrite !elem_of_cons, elem_of_nil. unfold ESC. lia.
Qed.

(** The two echoed focus reports. *)
Lemma scan_caret a (gone : Token → bool) ks :
  (a = 0x49 ∧ gone = isCaretIn) ∨ (a = 0x4f ∧ gone = isCaretOut) →
  Forall tokenOk ks →
  removeAll (matchLiteral id [0x5e; 0x5b; 0x5b; a]) 0 (renderAll ks)
  = renderAll (List.filter (λ k, negb (gone k)) ks).
Proof.
  intros Ha. apply (scan_tokens _ 0x5e).
  - apply matchLiteral_headedBy.
  - intros [c|ps f| |] R Hk Hg;
      destruct Ha as [[-> ->]|[-> ->]]; done.
  - intros [c|ps f| |] R Hk Hg; cbn [render].
    + split; [|by intros ?%elem_of_nil].
      apply (headedBy_none 0x5e); [apply matchLiteral_headedBy|].
      by apply isWhiteSpace_char.
    + destruct Hk as [Hps Hf]. split.
      * by apply (headedBy_none 0x5e); [apply matchLiteral_headedBy|].
      * apply isLetter_char in Hf as (_ & Hf & _).
        apply csi_tail_free; (done || congruence).
    + destruct Ha as [[-> ->]|[-> ->]]; [done|]. split; [done|].
      cbn. rewrite !elem_of_cons, elem_of_nil. lia.
    + destruct Ha as [[-> ->]|[-> ->]]; [|done]. split; [done|].
      cbn. rewrite !elem_of_cons, elem_of_nil. lia.
Qed.

(** Every control sequence that ends in a letter. *)
Lemma scan_csi ks :
  Forall tokenOk ks →
  removeAll (reCsiLetter id) 0 (renderAll ks)
  = renderAll (List.filter (λ k, negb (isCsi k)) ks).
Proof.
  apply (scan_tokens _ ESC).
  - apply matchCsi_headedBy.
  - intros [c|ps f| |] R Hk Hg; try done.
    destruct Hk as [Hps Hf]. by apply reCsiLetter_csi.
  - intros [c|ps f| |] R Hk Hg; cbn [render]; try done.
    + split; [|by intros ?%elem_of_nil].
      apply (headedBy_none ESC); [apply matchCsi_headedBy|].
      by apply isWhiteSpace_char.
    + split; [by apply (headedBy_none ESC); [apply matchCsi_headedBy|]|].
      cbn. rewrite !elem_of_cons, elem_of_nil. unfold ESC. lia.
    + split; [by apply (headedBy_none ESC); [apply matchCsi_headedBy|]|].
      cbn. rewrite !elem_of_cons, elem_of_nil. unfold ESC. lia.
Qed.

Lemma renderAll_blank ks :
  Forall tokenOk ks → Forall (λ k, isBlank k = true) ks →
  Forall (λ c, isWhiteSpace c = true) (renderAll ks).
Proof.
  induction 1 as [|k ks Hk _ IH]; [done|].
  intros [Hb Hks]%Forall_cons_1. unfold renderAll in *.
  cbn [fmap list_fmap concat]. apply Forall_app. split; [|by apply IH].
  destruct k; try done. by constructor.
Qed.

End Noise.

(** X13: a line that holds nothing but what the terminal put there
    (control sequences ending in a letter, such as the focus reports,
    echoed focus reports and blanks) is ignored: the prompt is shown
    again and [readInput] goes on waiting. *)
Theorem terminal_noise_is_ignored (ks : list Token) :
  Forall tokenOk ks → ks ≠ [] →
  cleanLine (renderAll ks) = [] ∧ lineHandler (renderAll ks) = None.
Proof.
  intros Hks Hne.
  assert (cleanLine (renderAll ks) = []) as Hclean.
  { unfold cleanLine.
    change (matchLiteral id FOCUS_IN_SEQ)
      with (matchLiteral id [ESC; 0x5b; 0x49]).
    change (matchLiteral id FOCUS_OUT_SEQ)
      with (matchLiteral id [ESC; 0x5b; 0x4f]).
    change (matchLiteral id CARET_FOCUS_IN)
      with (matchLiteral id [0x5e; 0x5b; 0x5b; 0x49]).
    change (matchLiteral id CARET_FOCUS_OUT)
      with (matchLiteral id [0x5e; 0x5b; 0x5b; 0x4f]).
    rewrite (scan_focus 0x49) by auto.
    set (k1 := List.filter _ ks).
    assert (Forall tokenOk k1) as H1 by by apply filter_tokenOk.
    rewrite (scan_focus 0x4f) by auto.
    set (k2 := List.filter _ k1).
    assert (Forall tokenOk k2) as H2 by by apply filter_tokenOk.
    rewrite (scan_caret 0x49 isCaretIn) by auto.
    set (k3 := List.filter _ k2).
    assert (Forall tokenOk k3) as H3 by by apply filter_tokenOk.
    rewrite (scan_caret 0x4f isCaretOut) by auto.
    set (k4 := List.filter _ k3).
    assert (Forall tokenOk k4) as H4 by by apply filter_tokenOk.
    rewrite scan_csi by done.
    set (k5 := List.filter _ k4).
    assert (Forall tokenOk k5) as H5 by by apply filter_tokenOk.
    assert (Forall (λ k, isBlank k = true) k5) as Hblank.
    { apply Forall_forall. intros k Hk. unfold k5, k4, k3 in Hk.
      rewrite !list_elem_of_In, !filter_In in Hk.
      destruct Hk as [[[_ ?] ?] ?]. by destruct k. }
    pose proof (renderAll_blank k5 H5 Hblank) as Hws.
    assert (∀ pre p, renderAll k5 = pre ++ [p; 0x63] → isParam p = false)
      as Htail.
    { intros pre p Heq. rewrite Heq in Hws.
      apply Forall_app in Hws as [_ Hws].
      apply Forall_cons_1 in Hws as [Hp _].
      by destruct (isWhiteSpace_char _ Hp) as (_ & _ & ? & _). }
    rewrite stripDaSuffix_same by done.
    destruct (isResponseTail (renderAll k5)) eqn:Hr; [done|].
    by apply trim_blank. }
  split; [done|]. unfold lineHandler. rewrite Hclean.
  destruct ks as [|k ks]; [done|].
  unfold renderAll. cbn [fmap list_fmap concat].
  by destruct (render_cons k) as (x & t & ->).
Qed.

(** ** Forwarding a response *)

Section Forward.
Implicit Types (w : World) (h : list Message).

Lemma lastAssistant_none h :
  Forall (λ m, role m = user) h → lastAssistant h = None.
Proof.
  intros Hh. unfold lastAssistant.
  destruct (List.find _ (rev h)) as [m|] eqn:Hf; [|done].
  apply find_some in Hf as [Hin Hm].
  apply in_rev, list_elem_of_In in Hin.
  rewrite Forall_forall in Hh. rewrite (Hh m Hin) in Hm. done.
Qed.

Lemma lastAssistant_snoc h m :
  role m = assistant → lastAssistant (h ++ [m]) = Some m.
Proof.
  intros Hm. unfold lastAssistant. rewrite rev_app_distr. cbn.
  by rewrite Hm.
Qed.

Lemma activeTool_getOrCreateManager t wfr ok w :
  activeTool (getOrCreateManager t wfr ok w).2 = activeTool w.
Proof. unfold getOrCreateManager. repeat case_match; done. Qed.

Lemma activeTool_runInteractiveSession r tn w :
  activeTool (runInteractiveSession r tn w).2 = activeTool w.
Proof. unfold runInteractiveSession. repeat case_match; done. Qed.

Lemma activeTool_with ok w :
  activeTool (enterInteractiveModeWith ok w).2 = activeTool w.
Proof.
  unfold enterInteractiveModeWith.
  pose proof (activeTool_getOrCreateManager (activeTool w) false ok w) as H.
  destruct (getOrCreateManager (activeTool w) false ok w) as [[r|e] w1];
    cbn [snd] in *; [|done].
  by rewrite activeTool_runInteractiveSession.
Qed.

(** What a request that succeeds leaves in the session. *)
Lemma sendToTool_ok message response w a :
  requestInProgress w = false → registry w !! activeTool w = Some a →
  let w' := sendToTool message (Some response) w in
  activeTool w' = activeTool w ∧ registry w' = registry w ∧
  requestInProgress w' = false ∧
  ∃ h', conversationHistory w'
        = h' ++ [{| tool := activeTool w; role := assistant;
                    content := response |}].
Proof.
  intros Hreq Hreg. cbn zeta.
  destruct (sendToTool_success message response w a Hreq Hreg)
    as (? & ? & ? & ->).
  repeat split; try done. apply enforceHistoryLimit_snoc.
Qed.

Lemma activeTool_sendToTool message sent w :
  activeTool (sendToTool message sent w) = activeTool w.
Proof.
  unfold sendToTool. destruct (requestInProgress w); [done|].
  set (w1 := killExisting _).
  destruct (registry_killExisting
              (stdoutWrite [Animated "thinking"]
                 (record {| tool := activeTool (setRequestInProgress true w);
                            role := user; content := message |}
                    (setRequestInProgress true w)))) as [Hr Ha].
  fold w1 in Hr, Ha. cbn in Hr, Ha.
  destruct (registry w1 !! activeTool w1); [destruct sent|];
    cbn; try done; by case_match.
Qed.

(** The target is one of the other tools of the table. *)
Lemma forwardTarget_other sourceTool argsString t msg :
  forwardTarget sourceTool argsString = Some (t, msg) →
  t ≠ sourceTool ∧ t ∈ tcName <$> AVAILABLE_TOOLS.
Proof.
  unfold forwardTarget.
  set (others := List.filter _ _).
  assert (∀ x, x ∈ others → x ≠ sourceTool ∧ x ∈ tcName <$> AVAILABLE_TOOLS)
    as Hothers.
  { intros x Hx. unfold others in Hx.
    rewrite list_elem_of_In, filter_In in Hx. destruct Hx as [Hin Hne].
    apply negb_true_iff, bool_decide_eq_false in Hne.
    by rewrite list_elem_of_In. }
  clearbody others. intros H.
  assert (t ∈ others); [|by apply Hothers].
  destruct (match words argsString with
            | [] => None
            | p :: rest => _
            end) as [[t' msg']|] eqn:Hnamed.
  - simplify_eq. destruct (words argsString) as [|p rest]; [done|].
    apply fmap_Some in Hnamed as (t' & Hf & [= -> ->]).
    apply find_some in Hf as [Hin _]. by apply list_elem_of_In.
  - destruct others as [|x [|y ?]]; simplify_eq. left.
Qed.

(** From one of the two tools the target is the other one, whatever the
    arguments are. *)
Lemma forwardTarget_two sourceTool argsString :
  sourceTool ∈ tcName <$> AVAILABLE_TOOLS →
  ∃ msg, forwardTarget sourceTool argsString
         = Some (otherTool sourceTool, msg).
Proof.
  intros Hsrc.
  assert (List.filter (λ t, negb (bool_decide (t = sourceTool)))
            (tcName <$> AVAILABLE_TOOLS) = [otherTool sourceTool]) as Hothers.
  { cbn in Hsrc. rewrite !elem_of_cons, elem_of_nil in Hsrc.
    destruct Hsrc as [->|[->|[]]]; done. }
  destruct (forwardTarget sourceTool argsString) as [[t msg]|] eqn:Ht.
  - exists msg. apply forwardTarget_other in Ht as Hin.
    unfold forwardTarget in Ht. rewrite Hothers in Ht.
    do 2 f_equal.
    destruct (match words argsString with
              | [] => None
              | p :: rest => _
              end) as [[t' msg']|] eqn:Hnamed.
    + simplify_eq. destruct (words argsString) as [|p rest]; [done|].
      apply fmap_Some in Hnamed as (t' & Hf & [= -> ->]).
      apply find_some in Hf as [Hin' _].
      by destruct Hin' as [<-|[]].
    + by simplify_eq.
  - exfalso. unfold forwardTarget in Ht. rewrite Hothers in Ht.
    by repeat case_match.
Qed.

Lemma otherTool_other t :
  t ∈ tcName <$> AVAILABLE_TOOLS →
  otherTool t ∈ tcName <$> AVAILABLE_TOOLS ∧ otherTool t ≠ t ∧
  otherTool (otherTool t) = t.
Proof.
  cbn. rewrite !elem_of_cons, elem_of_nil.
  intros [->|[->|[]]].
  - change (otherTool "claude") with "gemini"%string.
    split; [by right; left|done].
  - change (otherTool "gemini") with "claude"%string.
    split; [by left|done].
Qed.

(** A forward that is not interactive: the switch, then the request. *)
Lemma handleForward_send argsString ok sent w last t msg :
  lastAssistant (conversationHistory w) = Some last →
  forwardTarget (tool last) argsString = Some (t, msg) →
  ∃ w0 prompt,
    handleForward argsString false ok sent w
    = {| world := sendToTool prompt sent w0; mode := Prompt |} ∧
    activeTool w0 = t ∧ registry w0 = registry w ∧
    requestInProgress w0 = requestInProgress w ∧
    conversationHistory w0 = conversationHistory w.
Proof.
  intros Hlast Htarget. unfold handleForward. rewrite Hlast, Htarget.
  destruct (forwardTarget_other _ _ _ _ Htarget) as [Hne _].
  rewrite bool_decide_eq_false_2 by done.
  cbn zeta. eexists _, _. split; [reflexivity|]. done.
Qed.

End Forward.

(** X14: a response is never forwarded to the tool it came from.  Without
    an assistant message in the history the session is left as it is;
    when the user has to name the target the same; otherwise the active
    tool becomes a tool of the table other than the source, so the refusal
    to forward to the same tool cannot occur. *)
Theorem forward_never_returns_to_sender (argsString : jsstring)
    (interactive spawnOk : bool) (sent : option jsstring) (w : World) :
  let s := handleForward argsString interactive spawnOk sent w in
  (lastAssistant (conversationHistory w) = None →
   s = {| world := consoleLog (lit "No response to forward yet.") w;
          mode := Prompt |}) ∧
  (Forall (λ m, role m = user) (conversationHistory w) →
   lastAssistant (conversationHistory w) = None) ∧
  (∀ last,
     lastAssistant (conversationHistory w) = Some last →
     match forwardTarget (tool last) argsString with
     | None =>
         mode s = Prompt ∧ activeTool (world s) = activeTool w ∧
         conversationHistory (world s) = conversationHistory w ∧
         ptyManagers (world s) = ptyManagers w ∧ store (world s) = store w
     | Some (t, _) =>
         t ≠ tool last ∧ t ∈ tcName <$> AVAILABLE_TOOLS ∧
         activeTool (world s) = t
     end).
Proof.
  cbn zeta. split; [|split].
  - intros Hlast. unfold handleForward. by rewrite Hlast.
  - apply lastAssistant_none.
  - intros last Hlast.
    destruct (forwardTarget (tool last) argsString) as [[t msg]|] eqn:Ht.
    + destruct (forwardTarget_other _ _ _ _ Ht) as [Hne Hin].
      split; [done|]. split; [done|].
      unfold handleForward. rewrite Hlast, Ht.
      rewrite bool_decide_eq_false_2 by done. cbn zeta.
      destruct interactive.
      * match goal with
        | |- context [enterInteractiveModeWith spawnOk ?w0] =>
            pose proof (activeTool_with spawnOk w0) as Ha;
            destruct (enterInteractiveModeWith spawnOk w0) as [[c|e] w1]
        end; exact Ha.
      * cbn [world]. by rewrite activeTool_sendToTool.
    + unfold handleForward. by rewrite Hlast, Ht.
Qed.

(** X15: forwarding goes to and fro between the two tools.  When the last
    response is from one of them, a forward (whatever its arguments) makes
    the other one active and, if the request succeeds, leaves its response
    as the last assistant message; so the next forward takes that
    response back to the first tool. *)
Theorem forward_goes_to_and_fro (args1 args2 response1 response2 : jsstring)
    (ok1 ok2 : bool) (w : World) (last : Message) (a1 a2 : Adapter) :
  lastAssistant (conversationHistory w) = Some last →
  tool last ∈ tcName <$> AVAILABLE_TOOLS →
  requestInProgress w = false →
  registry w !! otherTool (tool last) = Some a1 →
  registry w !! tool last = Some a2 →
  let s1 := handleForward args1 false ok1 (Some response1) w in
  let s2 := handleForward args2 false ok2 (Some response2) (world s1) in
  mode s1 = Prompt ∧
  activeTool (world s1) = otherTool (tool last) ∧
  lastAssistant (conversationHistory (world s1))
    = Some {| tool := otherTool (tool last); role := assistant;
              content := response1 |} ∧
  mode s2 = Prompt ∧
  activeTool (world s2) = tool last ∧
  lastAssistant (conversationHistory (world s2))
    = Some {| tool := tool last; role := assistant; content := response2 |}.
Proof.
  intros Hlast Hsrc Hreq Hreg1 Hreg2. cbn zeta.
  destruct (otherTool_other _ Hsrc) as (Hother & _ & Hback).
  destruct (forwardTarget_two (tool last) args1 Hsrc) as [msg1 Ht1].
  destruct (handleForward_send args1 ok1 (Some response1) w last _ _
              Hlast Ht1) as (w0 & p1 & -> & Ha0 & Hr0 & Hq0 & _).
  cbn [mode world].
  destruct (sendToTool_ok p1 response1 w0 a1) as (Ha1 & Hr1 & Hq1 & h1 & Hh1);
    [congruence|by rewrite Hr0, Ha0|].
  rewrite Ha0 in Ha1, Hh1.
  assert (lastAssistant (conversationHistory
                           (sendToTool p1 (Some response1) w0))
          = Some {| tool := otherTool (tool last); role := assistant;
                    content := response1 |}) as Hlast1.
  { rewrite Hh1. by apply lastAssistant_snoc. }
  split; [done|]. split; [done|]. split; [done|].
  destruct (forwardTarget_two (otherTool (tool last)) args2 Hother)
    as [msg2 Ht2].
  rewrite Hback in Ht2.
  destruct (handleForward_send args2 ok2 (Some response2) _ _ _ _
              Hlast1 Ht2) as (w2 & p2 & -> & Ha2 & Hr2 & Hq2 & _).
  cbn [mode world].
  destruct (sendToTool_ok p2 response2 w2 a2) as (Ha3 & _ & _ & h3 & Hh3);
    [congruence|by rewrite Hr2, Hr1, Hr0, Ha2|].
  rewrite Ha2 in Ha3, Hh3.
  split; [done|]. split; [done|].
  rewrite Hh3. by apply lastAssistant_snoc.
Qed.

(** ** Words *)

Section Words.
Implicit Types (s cur p : jsstring) (ps : list jsstring).

Lemma splitWs_word p : ∀ cur inRun rest,
  p ≠ [] → Forall (λ c, isWhiteSpace c = false) p →
  splitWs cur inRun (p ++ rest) = splitWs (cur ++ p) false rest.
Proof.
  induction p as [|x p IH]; intros cur inRun rest Hne Hp; [done|].
  apply Forall_cons_1 in Hp as [Hx Hp].
  cbn [app splitWs]. rewrite Hx.
  destruct p as [|y p].
  - done.
  - rewrite IH by done. by rewrite <- app_assoc.
Qed.

Lemma join_cons2 sep p q ps :
  join sep (p :: q :: ps) = p ++ sep ++ join sep (q :: ps).
Proof. done. Qed.

(** Splitting what was joined with blanks gives the words back. *)
Lemma splitWs_join ps : ∀ inRun,
  ps ≠ [] → Forall isWord ps →
  splitWs [] inRun (join [SPACE] ps) = ps.
Proof.
  induction ps as [|p ps IH]; intros inRun Hne Hps; [done|].
  apply Forall_cons_1 in Hps as [[Hp1 Hp2] Hps].
  destruct ps as [|q ps].
  - cbn [join]. rewrite <- (app_nil_r p) at 1.
    by rewrite splitWs_word.
  - rewrite join_cons2. rewrite splitWs_word by done.
    cbn [app splitWs]. change (isWhiteSpace SPACE) with true. cbn match.
    by rewrite IH.
Qed.

Lemma trimStart_same s :
  (∀ x, head s = Some x → isWhiteSpace x = false) → trimStart s = s.
Proof. destruct s as [|x s]; [done|]. intros H. cbn. by rewrite H. Qed.

Lemma trim_same s :
  (∀ x, head s = Some x → isWhiteSpace x = false) →
  (∀ x, last s = Some x → isWhiteSpace x = false) →
  trim s = s.
Proof.
  intros Hh Hl. unfold trim. rewrite (trimStart_same s) by done.
  rewrite trimStart_same; [by rewrite reverse_involutive|].
  intros x Hx. apply Hl. by rewrite <- head_reverse.
Qed.

Lemma join_ends ps :
  ps ≠ [] → Forall isWord ps →
  (∀ x, head (join [SPACE] ps) = Some x → isWhiteSpace x = false) ∧
  (∀ x, last (join [SPACE] ps) = Some x → isWhiteSpace x = false).
Proof.
  induction ps as [|p ps IH]; intros Hne Hps; [done|].
  apply Forall_cons_1 in Hps as [[Hp1 Hp2] Hps].
  destruct ps as [|q ps].
  - cbn [join]. split; intros x Hx.
    + destruct p as [|y p]; [done|]. cbn in Hx. simplify_eq.
      by apply Forall_cons_1 in Hp2 as [? _].
    + rewrite Forall_forall in Hp2. apply Hp2.
      by apply last_Some_elem_of.
  - rewrite join_cons2. destruct (IH ltac:(done) Hps) as [_ Hlast].
    split; intros x Hx.
    + destruct p as [|y p]; [done|]. cbn in Hx. simplify_eq.
      by apply Forall_cons_1 in Hp2 as [? _].
    + apply Hlast. rewrite app_assoc in Hx.
      destruct (join [SPACE] (q :: ps)) as [|z zs] eqn:Hj.
      { exfalso. cbn in Hj. destruct ps; [|by destruct q].
        apply Forall_cons_1 in Hps as [[? _] _]. done. }
      by rewrite last_app_cons in Hx.
Qed.

(** [words] undoes [join]. *)
Lemma words_join ps :
  Forall isWord ps → words (join [SPACE] ps) = ps.
Proof.
  intros Hps. unfold words. destruct ps as [|p ps]; [done|].
  destruct (join_ends (p :: ps)) as [Hh Hl]; [done..|].
  rewrite trim_same by done. rewrite splitWs_join by done.
  apply forallb_filter_id. clear Hh Hl.
  apply forallb_forall. intros q Hq%list_elem_of_In.
  rewrite Forall_forall in Hps. destruct (Hps q Hq) as [Hne _].
  destruct q; [done|]. done.
Qed.

(** The pieces of a split hold no white space. *)
Lemma splitWs_pieces s : ∀ cur inRun,
  Forall (λ c, isWhiteSpace c = false) cur →
  Forall (Forall (λ c, isWhiteSpace c = false)) (splitWs cur inRun s).
Proof.
  induction s as [|x s IH]; intros cur inRun Hcur.
  - by repeat constructor.
  - cbn [splitWs]. destruct (isWhiteSpace x) eqn:Hx.
    + destruct inRun; [by apply IH|]. constructor; [done|by apply IH].
    + apply IH. apply Forall_app. split; [done|]. by repeat constructor.
Qed.

(** When the string does not end in white space, only the first piece
    can be empty. *)
Lemma splitWs_nonempty s : ∀ cur inRun,
  (∀ x, last s = Some x → isWhiteSpace x = false) →
  (s = [] → cur ≠ []) →
  Forall (λ p, p ≠ []) (tail (splitWs cur inRun s)) ∧
  ((cur ≠ [] ∨ inRun = true) → Forall (λ p, p ≠ []) (splitWs cur inRun s)).
Proof.
  induction s as [|x s IH]; intros cur inRun Hlast Hcur.
  - cbn. split; [done|]. intros _. constructor; [by apply Hcur|done].
  - assert (∀ y, last s = Some y → isWhiteSpace y = false) as Hlast'.
    { intros y Hy. apply Hlast. destruct s; [done|]. done. }
    cbn [splitWs]. destruct (isWhiteSpace x) eqn:Hx.
    + assert (s ≠ []) as Hs.
      { intros ->. specialize (Hlast x eq_refl). congruence. }
      assert (Forall (λ p, p ≠ []) (splitWs [] true s)) as Hall.
      { apply IH; [done|done|by right]. }
      destruct inRun.
      * split; [|done].
        destruct (splitWs [] true s); [done|].
        by apply Forall_cons_1 in Hall as [_ ?].
      * split; [done|].
        intros [Hc|?]; [|done]. by constructor.
    + assert (cur ++ [x] ≠ []) as Hne by (by destruct cur).
      destruct (IH (cur ++ [x]) false Hlast' ltac:(done)) as [H1 H2].
      split; [done|]. intros _. apply H2. by left.
Qed.

(** The arguments of a command are words, when the command does not end
    in white space. *)
Lemma splitWs_args cmd :
  (∀ x, last cmd = Some x → isWhiteSpace x = false) →
  Forall isWord (tail (splitWs [] false cmd)).
Proof.
  intros Hlast.
  pose proof (splitWs_pieces cmd [] false ltac:(done)) as Hp.
  destruct cmd as [|x cmd]; [by cbn|].
  destruct (splitWs_nonempty (x :: cmd) [] false Hlast ltac:(done))
    as [Hne _].
  destruct (splitWs [] false (x :: cmd)) as [|p ps]; [done|].
  cbn [tail] in *. apply Forall_cons_1 in Hp as [_ Hp].
  apply Forall_forall. intros q Hq. rewrite Forall_forall in Hne, Hp.
  split; auto.
Qed.

Lemma filter_isWord (f : jsstring → bool) ps :
  Forall isWord ps → Forall isWord (List.filter f ps).
Proof.
  induction 1 as [|k ks Hk _ IH]; [done|]. cbn.
  destruct (f k); [by constructor|done].
Qed.

End Words.

(** X18: a forward gets the words that were typed.  The command is split
    at white space, the flag [-i] is taken out and the rest is joined
    with blanks; [handleForward] splits it again and finds the same
    words.  For a command that does not end in white space, as the prompt
    passes it: [/forward] and [/fwd] hand on the words behind the command
    without the flag, and are interactive exactly if the flag was among
    them; [/forwardi] and [/fwdi] hand on all of them, and are
    interactive; no other command is a forward. *)
Theorem forward_gets_the_typed_words (cmd : jsstring) :
  (∀ x, last cmd = Some x → isWhiteSpace x = false) →
  let command := toLowerCase (hd [] (splitWs [] false cmd)) in
  let typed := tail (splitWs [] false cmd) in
  (command = lit "forward" ∨ command = lit "fwd" →
   ∃ argsString,
     metaCommand cmd = MForward argsString (existsb isFlagI typed) ∧
     words argsString = List.filter (λ a, negb (isFlagI a)) typed) ∧
  (command = lit "forwardi" ∨ command = lit "fwdi" →
   ∃ argsString,
     metaCommand cmd = MForward argsString true ∧
     words argsString = typed) ∧
  (∀ argsString interactive,
     metaCommand cmd = MForward argsString interactive →
     command = lit "forward" ∨ command = lit "fwd" ∨
     command = lit "forwardi" ∨ command = lit "fwdi").
Proof.
  intros Hlast. cbn zeta.
  pose proof (splitWs_args cmd Hlast) as Hargs.
  split; [|split].
  - intros Hc. eexists. split.
    + unfold metaCommand. cbn zeta.
      destruct Hc as [-> | ->]; reflexivity.
    + apply words_join. by apply filter_isWord.
  - intros Hc. eexists. split.
    + unfold metaCommand. cbn zeta.
      destruct Hc as [-> | ->]; reflexivity.
    + by apply words_join.
  - intros argsString interactive. unfold metaCommand. cbn zeta.
    repeat match goal with
    | |- context [existsb (λ n, bool_decide (?c = lit n)) ?l] =>
        destruct (existsb (λ n, bool_decide (c = lit n)) l) eqn:?; try done
    end.
    + intros _.
      match goal with
      | H : existsb _ ["forward"; "fwd"]%string = true |- _ =>
          cbn [existsb] in H; rewrite orb_false_r in H;
          apply orb_true_iff in H as [H%bool_decide_eq_true|H%bool_decide_eq_true]
      end; auto.
    + intros _.
      match goal with
      | H : existsb _ ["forwardi"; "fwdi"]%string = true |- _ =>
          cbn [existsb] in H; rewrite orb_false_r in H;
          apply orb_true_iff in H as [H%bool_decide_eq_true|H%bool_decide_eq_true]
      end; auto.
Qed.

(** ** The anchored expressions of the line handler, as languages *)

Section Anchored.

(** [[\d;]+c$] from the start of [s]: one parameter or more, then [c],
    then the end. *)
Lemma paramsC_iff s :
  paramsC s = true ↔
  ∃ ps, ps ≠ [] ∧ forallb isParam ps = true ∧ s = ps ++ [0x63].
Proof.
  split.
  - induction s as [|x s IH]; [done|].
    cbn [paramsC]. intros [Hx H]%andb_true_iff.
    destruct s as [|y [|z s]]; [done| |].
    + apply N.eqb_eq in H as ->. exists [x]. cbn. by rewrite Hx.
    + destruct (IH H) as (ps & _ & Hps & Heq).
      exists (x :: ps). split; [done|]. split.
      * cbn. by rewrite Hx, Hps.
      * by rewrite Heq.
  - intros (ps & Hne & Hps & ->). by apply paramsC_intro.
Qed.

Lemma isDigit_isParam x : isDigit x = true → isParam x = true.
Proof. unfold isParam, isDigit. by intros ->. Qed.

Lemma isDigit_not_u x : isDigit x = true → (x =? 0x75) = false.
Proof.
  unfold isDigit. intros [_ H]%andb_true_iff. apply N.leb_le in H.
  apply N.eqb_neq. lia.
Qed.

(** [\d*u[\d;]+c$] from the start of [s]. *)
Lemma digitsUParamsC_iff s :
  digitsUParamsC s = true ↔
  ∃ ds ps, forallb isDigit ds = true ∧ ps ≠ [] ∧
           forallb isParam ps = true ∧ s = ds ++ 0x75 :: ps ++ [0x63].
Proof.
  split.
  - induction s as [|x s IH]; [done|].
    cbn [digitsUParamsC]. destruct (N.eqb_spec x 0x75) as [->|Hx].
    + intros (ps & Hne & Hps & ->)%paramsC_iff. by exists [], ps.
    + intros [Hd H]%andb_true_iff.
      destruct (IH H) as (ds & ps & Hds & Hne & Hps & ->).
      exists (x :: ds), ps. split; [|done]. cbn. by rewrite Hd, Hds.
  - intros (ds & ps & Hds & Hne & Hps & ->).
    induction ds as [|d ds IH].
    + cbn [app digitsUParamsC]. rewrite N.eqb_refl. by apply paramsC_intro.
    + cbn in Hds. apply andb_true_iff in Hds as [Hd Hds].
      cbn [app digitsUParamsC]. rewrite (isDigit_not_u d Hd), Hd.
      by apply IH.
Qed.

(** [/^\d*u?[\d;]+c$/] holds of the whole of [s]. *)
Lemma isResponseTail_iff s :
  isResponseTail s = true ↔
  ∃ ds us ps, forallb isDigit ds = true ∧ (us = [] ∨ us = [0x75]) ∧
              ps ≠ [] ∧ forallb isParam ps = true ∧
              s = ds ++ us ++ ps ++ [0x63].
Proof.
  unfold isResponseTail. rewrite orb_true_iff, paramsC_iff, digitsUParamsC_iff.
  split.
  - intros [(ps & Hne & Hps & ->)|(ds & ps & Hds & Hne & Hps & ->)].
    + exists [], [], ps. split; [done|]. split; [by left|done].
    + exists ds, [0x75], ps. split; [done|]. split; [by right|done].
  - intros (ds & us & ps & Hds & [->| ->] & Hne & Hps & ->).
    + left. exists (ds ++ ps). split; [by destruct ds, ps|]. split.
      * rewrite forallb_app, Hps, andb_true_r.
        apply forallb_forall. intros x Hx. apply isDigit_isParam.
        by apply (proj1 (forallb_forall _ _) Hds).
      * by rewrite <- app_assoc.
    + right. by exists ds, ps.
Qed.

End Anchored.

Section Swallowed.

Lemma stripDaSuffix_no_semicolon s : 0x3b ∉ s → stripDaSuffix s = s.
Proof.
  induction s as [|x s IH]; [done|]. intros Hs.
  apply not_elem_of_cons in Hs as [Hx Hs]. cbn [stripDaSuffix].
  apply N.eqb_neq in Hx. rewrite N.eqb_sym in Hx. rewrite Hx. cbn [andb].
  by rewrite IH.
Qed.

Lemma isDigit_char x : isDigit x = true → 0x30 ≤ x ≤ 0x39.
Proof.
  unfold isDigit. intros [H1 H2]%andb_true_iff.
  apply N.leb_le in H1, H2. lia.
Qed.

Lemma digits_without ds h :
  forallb isDigit ds = true → h < 0x30 ∨ 0x39 < h → h ∉ ds.
Proof.
  intros Hds Hh Hin. rewrite forallb_forall in Hds.
  apply list_elem_of_In, Hds, isDigit_char in Hin. lia.
Qed.

End Swallowed.

(** X21: a typed line that looks like the end of a terminal response is
    swallowed.  A line of digits, an optional [u], one digit or more and a
    final [c] (as [2c], [15c] or [1u2c]) is cleaned to the empty string,
    and the line handler ignores it: the prompt is shown again and nothing
    is passed on. *)
Theorem response_like_line_is_dropped (ds us ps : jsstring) :
  forallb isDigit ds = true → us = [] ∨ us = [0x75] →
  ps ≠ [] → forallb isDigit ps = true →
  cleanLine (ds ++ us ++ ps ++ [0x63]) = [] ∧
  lineHandler (ds ++ us ++ ps ++ [0x63]) = None.
Proof.
  intros Hds Hus Hne Hps.
  set (line := ds ++ us ++ ps ++ [0x63]).
  assert (∀ h, (h < 0x30 ∨ 0x39 < h) → h ≠ 0x75 → h ≠ 0x63 → h ∉ line)
    as Hout.
  { intros h Hh Hu Hc. unfold line. rewrite !not_elem_of_app.
    split; [by apply digits_without|]. split.
    - destruct Hus as [->| ->]; [apply not_elem_of_nil|].
      apply not_elem_of_cons. split; [done|apply not_elem_of_nil].
    - split; [by apply digits_without|].
      apply not_elem_of_cons. split; [done|apply not_elem_of_nil]. }
  assert (isResponseTail line = true) as Htail.
  { apply isResponseTail_iff. exists ds, us, ps.
    split; [done|]. split; [done|]. split; [done|]. split; [|done].
    apply forallb_forall. intros x Hx. apply isDigit_isParam.
    by apply (proj1 (forallb_forall _ _) Hps). }
  assert (cleanLine line = []) as Hclean.
  { rewrite cleanLine_plain by (apply Hout; (done || unfold ESC; lia)).
    cbn zeta.
    rewrite stripDaSuffix_no_semicolon by (apply Hout; (done || lia)).
    by rewrite Htail. }
  split; [done|]. unfold lineHandler. rewrite Hclean.
  assert ((0 <? length line)%nat = true) as ->; [|done].
  apply Nat.ltb_lt. unfold line. rewrite !length_app. cbn. lia.
Qed.

(** ** The manager of the session *)

Section HeldManager.
Implicit Types (w : World) (c : Closure) (r : nat) (s : System).

Lemma SameTools_refl w : SameTools w w.
Proof. by repeat split. Qed.

Lemma SameTools_trans w1 w2 w3 :
  SameTools w1 w2 → SameTools w2 w3 → SameTools w1 w3.
Proof. intros (? & ? & ?) (? & ? & ?). repeat split; congruence. Qed.

Lemma SameTools_onManager r f w : SameTools w (onManager r f w).
Proof. by repeat split. Qed.

Lemma SameTools_stdoutWrite o w : SameTools w (stdoutWrite o w).
Proof. by repeat split. Qed.

Lemma SameTools_debugTrace data c w : SameTools w (debugTrace data c w).
Proof. unfold debugTrace. case_match; by repeat split. Qed.

Lemma SameTools_ptyData cap r chunk w : SameTools w (ptyData cap r chunk w).
Proof.
  unfold ptyData. eapply SameTools_trans; [|apply SameTools_onManager].
  case_match; by repeat split.
Qed.

Lemma SameTools_ptyExit r code w : SameTools w (ptyExit r code w).
Proof.
  unfold ptyExit. case_match; [apply SameTools_refl|]. by repeat split.
Qed.

Lemma SameTools_performDetach c w : SameTools w (performDetach c w).2.
Proof.
  repeat split;
    open_world w; open_closure c; unfold performDetach, captureResponse;
    crush_world.
Qed.

Lemma SameTools_runInteractiveSession r tn w :
  SameTools w (runInteractiveSession r tn w).2.
Proof.
  unfold runInteractiveSession. case_match; cbn [snd]; [apply SameTools_refl|].
  repeat split; cbn; by case_match.
Qed.

Lemma SameTools_onStdinData now data c w :
  SameTools w (onStdinData now data c w).2.
Proof.
  destruct (onStdinData_cases now data c w) as [H|[H|(_ & t & H)]];
    rewrite H; cbn [snd].
  - apply SameTools_debugTrace.
  - eapply SameTools_trans;
      [apply SameTools_debugTrace|apply SameTools_performDetach].
  - eapply SameTools_trans;
      [apply SameTools_debugTrace|apply SameTools_onManager].
Qed.

Lemma SameTools_resume p w : SameTools w (enterInteractiveMode_resume p w).2.
Proof.
  unfold enterInteractiveMode_resume.
  eapply SameTools_trans; [|apply SameTools_runInteractiveSession].
  eapply SameTools_trans; [|apply SameTools_onManager].
  destruct (isReattach p && _); [|destruct (isFirstLaunch p)];
    by repeat split.
Qed.

(** The closure keeps its manager. *)
Lemma onStdinData_manager now data c w :
  manager (onStdinData now data c w).1 = manager c.
Proof.
  destruct (onStdinData_cases now data c w) as [H|[H|(_ & t & H)]];
    rewrite H; cbn [fst]; [done| |done].
  destruct (detached c) eqn:Hd.
  - unfold performDetach. by rewrite Hd.
  - by apply performDetach_closure.
Qed.

Lemma runInteractiveSession_manager r tn w c w' :
  runInteractiveSession r tn w = (Ok c, w') → manager c = r.
Proof.
  unfold runInteractiveSession. case_match; [done|]. by intros [= <- _].
Qed.

(** The manager [getOrCreateManager] gives is the one of the map. *)
Lemma getOrCreateManager_held t wfr ok w r w' :
  getOrCreateManager t wfr ok w = (Ok r, w') →
  ptyManagers w' !! t = Some r ∧ activeTool w' = activeTool w.
Proof.
  unfold getOrCreateManager.
  destruct (liveManager t w) as [r0|] eqn:Hlive.
  - intros [= <- <-]. by apply liveManager_Some in Hlive as [? _].
  - destruct (registry w !! t) as [a|]; [|done].
    destruct ok; [|done]. intros [= <- <-]. split; [|done].
    cbn. apply lookup_insert_eq.
Qed.

Lemma Held_handle cmd w : Held (handle cmd w).
Proof.
  destruct cmd as [message sent|ok|ok|t|]; cbn [handle]; try exact I.
  - unfold enterInteractiveMode_begin.
    destruct (getOrCreateManager (activeTool w) false ok w) as [[r|e] w1]
      eqn:Hg; [|exact I].
    apply getOrCreateManager_held in Hg as [Hr Ha].
    unfold Held. cbn. by rewrite Ha.
  - unfold enterInteractiveModeWith.
    destruct (getOrCreateManager (activeTool w) false ok w) as [[r|e] w1]
      eqn:Hg; [|exact I].
    apply getOrCreateManager_held in Hg as [Hr Ha].
    match goal with
    | |- context [runInteractiveSession ?a ?b ?x] =>
        pose proof (SameTools_runInteractiveSession a b x) as (Ht & Hm & _);
        destruct (runInteractiveSession a b x) as [[c|e] w2] eqn:Hrun
    end; [|exact I].
    apply runInteractiveSession_manager in Hrun as Hc.
    cbn [snd] in Ht, Hm. unfold Held. cbn [mode world].
    rewrite Hm, Ht, Hc. cbn. by rewrite Ha.
Qed.

Lemma Held_step cap s e : Held s → Held (step cap s e).
Proof.
  intros HH. destruct s as [w m]. destruct e as [cmd| |now data|r chunk|r code].
  - destruct m; try exact HH. apply Held_handle.
  - destruct m as [|p|c|]; try exact HH. cbn [step mode world].
    pose proof (SameTools_resume p w) as (Ht & Hm & _).
    destruct (enterInteractiveMode_resume p w) as [[c|e] w'] eqn:Hres;
      [|exact I].
    cbn [snd] in Ht, Hm. unfold Held in *. cbn [mode world] in *.
    rewrite Hm, Ht, HH. f_equal. symmetry.
    unfold enterInteractiveMode_resume in Hres.
    by apply runInteractiveSession_manager in Hres.
  - destruct m as [|p|c|]; try exact HH. cbn [step mode world].
    pose proof (SameTools_onStdinData now data c w) as (Ht & Hm & _).
    pose proof (onStdinData_manager now data c w) as Hc.
    destruct (onStdinData now data c w) as [c' w'].
    cbn [fst snd] in *. unfold Held in *. cbn [mode world] in *.
    destruct (resolved c'); [exact I|]. by rewrite Hm, Ht, Hc.
  - cbn [step mode world].
    pose proof (SameTools_ptyData cap r chunk w) as (Ht & Hm & _).
    unfold Held in *. cbn [mode world] in *.
    destruct m; try exact I; by rewrite Hm, Ht.
  - cbn [step mode world].
    pose proof (SameTools_ptyExit r code w) as (Ht & Hm & _).
    unfold Held in *. cbn [mode world] in *.
    destruct m; try exact I; by rewrite Hm, Ht.
Qed.

Lemma Held_run cap events : ∀ s, Held s → Held (run cap s events).
Proof.
  induction events as [|e events IH]; intros s HH; [done|].
  apply IH. by apply Held_step.
Qed.

Lemma SameManagers_refl w : SameManagers w w.
Proof. by intros r. Qed.

Lemma SameManagers_trans w1 w2 w3 :
  SameManagers w1 w2 → SameManagers w2 w3 → SameManagers w1 w3.
Proof.
  intros H1 H2 r. destruct (H1 r) as (? & ? & ?), (H2 r) as (? & ? & ?).
  repeat split; congruence.
Qed.

(** Output leaves a manager as it is, up to its buffer. *)
Lemma SameManagers_ptyData cap r chunk w :
  SameManagers w (ptyData cap r chunk w).
Proof.
  intros r'. unfold ptyData, deadRef, attachedRef, inputOf.
  assert (∀ m, isDead (onData cap chunk m) = isDead m ∧
               isUserAttached (onData cap chunk m) = isUserAttached m ∧
               ptyInput (onData cap chunk m) = ptyInput m) as Hm.
  { intros m. unfold onData. by destruct (isDead m) eqn:Hd. }
  match goal with
  | |- context [store (onManager r ?f ?x)] =>
      assert (store (onManager r f x) = alter f r (store w)) as ->
        by (cbn; by case_match)
  end.
  rewrite list_lookup_alter. case_decide as Hr; [|done]. subst r'.
  destruct (store w !! r) as [m|]; [|done]. cbn. apply Hm.
Qed.

(** While the prompt waits, output changes nothing the session reads of
    the managers. *)
Lemma quiet_printed cap outs : ∀ s,
  mode s = Prompt →
  let s' := run cap s (printed outs) in
  mode s' = Prompt ∧ SameTools (world s) (world s') ∧
  SameManagers (world s) (world s') ∧ SameShape (world s) (world s').
Proof.
  induction outs as [|[r chunk] outs IH]; intros s Hmode; cbn zeta.
  - split; [done|].
    split; [apply SameTools_refl|].
    split; [apply SameManagers_refl|apply SameShape_refl].
  - cbn [printed map run fold_left].
    destruct (IH (step cap s (PtyData r chunk))) as (Hm & Ht & Hs & Hsh).
    { destruct s as [w m]. cbn in *. by subst. }
    split; [exact Hm|]. destruct s as [w m]. cbn [mode world] in *.
    subst m. cbn [step mode world] in *. split; [|split].
    + eapply SameTools_trans; [apply SameTools_ptyData|exact Ht].
    + eapply SameManagers_trans; [apply SameManagers_ptyData|exact Hs].
    + eapply SameShape_trans; [apply SameShape_ptyData|exact Hsh].
Qed.

(** What [performDetach] leaves of the managers. *)
Lemma performDetach_others c w r :
  detached c = false →
  deadRef r (performDetach c w).2 = deadRef r w ∧
  inputOf r (performDetach c w).2 = inputOf r w.
Proof.
  intros Hd. split; [by apply performDetach_alive|].
  by apply performDetach_manager.
Qed.

Lemma resume_store p w :
  store (enterInteractiveMode_resume p w).2
  = alter attach (pManager p) (store w).
Proof.
  unfold enterInteractiveMode_resume.
  match goal with
  | |- context [runInteractiveSession ?a ?b ?x] =>
      destruct (runInteractiveSession_frame a b x) as [_ ->]
  end.
  destruct (isReattach p && _); [|destruct (isFirstLaunch p)]; done.
Qed.

Lemma attach_live m :
  isDead m = false →
  isDead (attach m) = false ∧ isUserAttached (attach m) = true ∧
  ptyInput (attach m) = ptyInput m.
Proof. intros Hd. unfold attach. by rewrite Hd. Qed.

Lemma attach_dead m : isDead (attach m) = isDead m.
Proof. unfold attach. by destruct (isDead m) eqn:Hd. Qed.

Lemma attach_input m : ptyInput (attach m) = ptyInput m.
Proof. unfold attach. by destruct (isDead m). Qed.

End HeldManager.

(** X20: detaching keeps the subprocess, and [/i] finds it again.  In
    every state the session can reach, if the subprocess of the
    interactive session is alive, then a detach key, whatever the
    subprocesses print afterwards, the command [/i] and the end of its
    animation lead to an interactive session on the same manager, which is
    attached again; no subprocess was launched, no manager was made, and
    none died. *)
Theorem reattach_finds_the_subprocess (cap : nat) (reg : gmap string Adapter)
    (t : string) (tty dbg : bool) (events : list Event)
    (now : Z) (data : Buffer) (outs : list (nat * jsstring)) (ok : bool) :
  (∃ b, b ∈ data ∧ isDetachKey (Byte.to_N b) = true) →
  let s := run cap (initial reg t tty dbg) events in
  let s' := run cap s (StdinData now data :: printed outs
                       ++ [Line (CmdInteractive ok); AnimationDone]) in
  ∀ c, mode s = Interactive c → deadRef (manager c) (world s) = false →
    (∃ c', mode s' = Interactive c' ∧ manager c' = manager c) ∧
    attachedRef (manager c) (world s') = true ∧
    launched (world s') = launched (world s) ∧
    length (store (world s')) = length (store (world s)) ∧
    (∀ r, deadRef r (world s') = deadRef r (world s)).
Proof.
  intros (b & Hin & Hkey). cbn zeta. intros c Hmode Halive.
  pose proof (Inv_run reg cap events _ (Inv_initial reg t tty dbg)) as HI.
  pose proof (Held_run cap events (initial reg t tty dbg) I) as HH.
  set (s := run cap _ events) in *.
  destruct HI as (_ & _ & HI). rewrite Hmode in HI.
  destruct HI as (Hd & _ & Honly).
  unfold Held in HH. rewrite Hmode in HH.
  destruct s as [w m]. cbn [mode world] in *. subst m.
  assert (∀ s e l l', run cap s (e :: l ++ l')
                      = run cap (run cap (step cap s e) l) l') as ->.
  { intros. unfold run. cbn [fold_left]. apply fold_left_app. }
  (* the detach key *)
  set (w0 := debugTrace data c w).
  assert (step cap {| world := w; mode := Interactive c |} (StdinData now data)
          = {| world := (performDetach c w0).2; mode := Prompt |}) as ->.
  { cbn [step mode world].
    rewrite (onStdinData_detach_key now data c w b Hin Hkey). fold w0.
    destruct (performDetach_closure c w0 Hd) as (_ & Hres & _).
    destruct (performDetach c w0) as [c1 w1]. cbn [fst snd] in *.
    by rewrite Hres. }
  destruct (performDetach_manager c w0 Hd) as [Hoff _].
  pose proof (λ r, performDetach_others c w0 r Hd) as Hothers.
  pose proof (performDetach_attached c w0) as Hatt.
  pose proof (SameTools_performDetach c w0) as (Ht1 & Hm1 & Hl1).
  pose proof (SameShape_performDetach c w0) as [_ Hlen1].
  pose proof (SameTools_debugTrace data c w) as (Ht0 & Hm0 & Hl0).
  pose proof (SameShape_debugTrace data c w) as [_ Hlen0].
  fold w0 in Ht0, Hm0, Hl0, Hlen0.
  set (w1 := (performDetach c w0).2) in *.
  assert (∀ r, attachedRef r w1 = false) as Hnone.
  { intros r. destruct (decide (r = manager c)) as [->|Hne]; [done|].
    rewrite Hatt by done.
    destruct (attachedRef r w0) eqn:Hr; [|done].
    exfalso. apply Hne, Honly.
    unfold attachedRef, w0 in *. by rewrite store_debugTrace in Hr. }
  assert (∀ r, deadRef r w1 = deadRef r w ∧ inputOf r w1 = inputOf r w)
    as Hsame1.
  { intros r. destruct (Hothers r) as [-> ->]. unfold w0.
    rewrite deadRef_debugTrace. unfold inputOf.
    by rewrite store_debugTrace. }
  clear Hothers Hatt Hoff. clearbody w1.
  (* what the subprocesses print *)
  pose proof (quiet_printed cap outs {| world := w1; mode := Prompt |} eq_refl)
    as (Hmode2 & (Ht2 & Hm2 & Hl2) & Hs2 & [_ Hlen2]).
  destruct (run cap {| world := w1; mode := Prompt |} (printed outs))
    as [w2 m2]. cbn [mode world] in *. subst m2.
  (* the command *)
  assert (liveManager (activeTool w2) w2 = Some (manager c)) as Hlive.
  { apply liveManager_Some. split.
    - rewrite Hm2, Ht2, Hm1, Ht1, Hm0, Ht0. exact HH.
    - destruct (Hs2 (manager c)) as (-> & _ & _).
      destruct (Hsame1 (manager c)) as [-> _]. exact Halive. }
  assert (attachedRef (manager c) w2 = false) as Hoff2.
  { destruct (Hs2 (manager c)) as (_ & -> & _). apply Hnone. }
  change (run cap ?x [?a; ?b]) with (step cap (step cap x a) b).
  set (p := {| pManager := manager c; pToolName := toolNameOf w2;
               isFirstLaunch := false; isReattach := true |}).
  set (w3 := stdoutWrite [Animated "Entering Interactive Mode"]
               (setRl false w2)).
  assert (step cap {| world := w2; mode := Prompt |} (Line (CmdInteractive ok))
          = {| world := w3; mode := Entering p |}) as ->.
  { cbn [step mode world handle].
    by rewrite (enterInteractiveMode_begin_live ok w2 _ Hlive Hoff2). }
  (* the end of the animation *)
  cbn [step mode world].
  pose proof (resume_store p w3) as Hstore.
  pose proof (SameTools_resume p w3) as (_ & _ & Hl4).
  assert (store w3 = store w2) as Hst3 by done.
  assert (launched w3 = launched w2) as Hl3 by done.
  assert (∃ m, store w2 !! manager c = Some m ∧ isDead m = false)
    as (m & Hlook & Hmlive).
  { apply liveManager_Some in Hlive as [_ Hdead]. unfold deadRef in Hdead.
    destruct (store w2 !! manager c) as [m|]; [|done]. by exists m. }
  destruct (attach_live m Hmlive) as (Hal & Hat & _).
  unfold enterInteractiveMode_resume in *.
  match goal with
  | |- context [runInteractiveSession ?a ?b ?x] =>
      destruct (runInteractiveSession_ok a b x (attach m)) as
        (c4 & Hrun & Hc4 & _);
      [|exact Hal|
       destruct (runInteractiveSession a b x) as [r4 w4] eqn:Hrun4]
  end.
  { match goal with
    | |- store (onManager _ _ ?x) !! _ = _ =>
        assert (store x = store w2) as Hx
          by (destruct (isReattach p && _); [|destruct (isFirstLaunch p)];
              done)
    end.
    change (store (onManager ?r ?f ?x)) with (alter f r (store x)).
    rewrite Hx. change (pManager p) with (manager c).
    by rewrite list_lookup_alter_eq, Hlook. }
  cbn [fst snd] in *. subst r4. cbn [mode world].
  rewrite Hst3 in Hstore. change (pManager p) with (manager c) in *.
  split; [by exists c4|].
  assert (∀ r, store w4 !! r
               = if decide (r = manager c) then attach <$> store w2 !! r
                 else store w2 !! r) as Hget.
  { intros r. rewrite Hstore, list_lookup_alter.
    repeat case_decide; by subst. }
  split; [|split; [|split]].
  - unfold attachedRef. rewrite Hget, decide_True, Hlook by done. exact Hat.
  - rewrite Hl4, Hl3, Hl2, Hl1. exact Hl0.
  - rewrite Hstore, length_alter, Hlen2, Hlen1. exact Hlen0.
  - intros r. destruct (Hsame1 r) as [<- _]. destruct (Hs2 r) as (<- & _ & _).
    unfold deadRef. rewrite Hget. case_decide; [|done].
    destruct (store w2 !! r); [|done]. cbn. apply attach_dead.
Qed.

(** ** The replay of a buffer *)

Section Replay.

Lemma piecesText_cons p ps : piecesText (p :: ps) = pieceText p ++ piecesText ps.
Proof. reflexivity. Qed.

Lemma pieceOk_filter (f : Piece → bool) ps :
  Forall pieceOk ps → Forall pieceOk (List.filter f ps).
Proof.
  induction 1 as [|p ps Hp _ IH]; [done|]. cbn.
  destruct (f p); [by constructor|done].
Qed.

(** One pass over a piece: the report the pass looks for is deleted,
    every other piece is kept whole, and the pass goes on behind it. *)
Lemma removeAll_piece (L : N) (gone : Piece → bool) p rest :
  (L = 0x49 ∧ gone = isPFocusIn) ∨ (L = 0x4f ∧ gone = isPFocusOut) →
  pieceOk p →
  removeAll (matchLiteral id [ESC; 0x5b; L]) 0 (pieceText p ++ rest)
  = (if gone p then [] else pieceText p)
    ++ removeAll (matchLiteral id [ESC; 0x5b; L]) 0 rest.
Proof.
  intros HL Hp.
  pose proof (matchLiteral_headedBy ESC [0x5b; L]) as Hm.
  assert (∀ x y s,
            removeAll (matchLiteral id [ESC; 0x5b; L]) 0 (x :: y :: s)
            = (if (x =? ESC) && (y =? 0x5b) && startsWith id [L] s
               then removeAll (matchLiteral id [ESC; 0x5b; L]) 2 (y :: s)
               else x :: removeAll (matchLiteral id [ESC; 0x5b; L]) 0
                           (y :: s))) as Hstep.
  { intros x y s. cbn [removeAll]. unfold matchLiteral at 1.
    change (startsWith id [ESC; 0x5b; L] (x :: y :: s))
      with ((x =? ESC) && ((y =? 0x5b) && startsWith id [L] s)).
    rewrite andb_assoc.
    destruct ((x =? ESC) && (y =? 0x5b) && startsWith id [L] s);
      [cbn [length]|]; reflexivity. }
  destruct p as [s| | |body]; cbn [pieceText].
  - assert (gone (PText s) = false) as ->
      by (by destruct HL as [[_ ->]|[_ ->]]).
    by apply (removeAll_over ESC).
  - change FOCUS_IN_SEQ with [ESC; 0x5b; 0x49]. cbn [app].
    destruct HL as [[-> ->]|[-> ->]]; rewrite Hstep;
      cbn [isPFocusIn isPFocusOut app].
    + change ((ESC =? ESC) && (0x5b =? 0x5b)
              && startsWith id [0x49] (0x49 :: rest)) with true.
      reflexivity.
    + change ((ESC =? ESC) && (0x5b =? 0x5b)
              && startsWith id [0x4f] (0x49 :: rest)) with false.
      reflexivity.
  - change FOCUS_OUT_SEQ with [ESC; 0x5b; 0x4f]. cbn [app].
    destruct HL as [[-> ->]|[-> ->]]; rewrite Hstep;
      cbn [isPFocusIn isPFocusOut app].
    + change ((ESC =? ESC) && (0x5b =? 0x5b)
              && startsWith id [0x49] (0x4f :: rest)) with false.
      reflexivity.
    + change ((ESC =? ESC) && (0x5b =? 0x5b)
              && startsWith id [0x4f] (0x4f :: rest)) with true.
      reflexivity.
  - assert (gone (PEscape body) = false) as ->
      by (by destruct HL as [[_ ->]|[_ ->]]).
    destruct Hp as (Hesc & c & t & -> & Hc). cbn [app].
    rewrite Hstep.
    assert ((c =? 0x5b) && startsWith id [L] (t ++ rest) = false) as Hnone.
    { destruct Hc as [Hc|(d & t' & -> & HI & HO)].
      - apply N.eqb_neq in Hc. by rewrite Hc.
      - cbn [app startsWith id]. rewrite andb_true_r.
        apply andb_false_iff. right. apply N.eqb_neq.
        by destruct HL as [[-> _]|[-> _]]. }
    rewrite <- andb_assoc, Hnone, andb_false_r.
    f_equal. by apply (removeAll_over ESC _ (c :: t)).
Qed.

Lemma removeAll_pieces (L : N) (gone : Piece → bool) ps :
  (L = 0x49 ∧ gone = isPFocusIn) ∨ (L = 0x4f ∧ gone = isPFocusOut) →
  Forall pieceOk ps →
  removeAll (matchLiteral id [ESC; 0x5b; L]) 0 (piecesText ps)
  = piecesText (List.filter (λ p, negb (gone p)) ps).
Proof.
  intros HL. induction 1 as [|p ps Hp _ IH]; [done|].
  rewrite piecesText_cons, (removeAll_piece L gone) by done.
  rewrite IH. cbn [List.filter]. by destruct (gone p).
Qed.

(** The two passes delete the focus reports, and nothing else. *)
Lemma stripFocus_pieces ps :
  Forall pieceOk ps →
  stripFocus id (piecesText ps)
  = piecesText (List.filter (λ p, negb (isFocusPiece p)) ps).
Proof.
  intros Hps. unfold stripFocus.
  change (matchLiteral id FOCUS_IN_SEQ)
    with (matchLiteral id [ESC; 0x5b; 0x49]).
  change (matchLiteral id FOCUS_OUT_SEQ)
    with (matchLiteral id [ESC; 0x5b; 0x4f]).
  rewrite (removeAll_pieces 0x49 isPFocusIn) by auto.
  rewrite (removeAll_pieces 0x4f isPFocusOut)
    by (auto using pieceOk_filter).
  f_equal. clear Hps. induction ps as [|p ps IH]; [done|].
  cbn [List.filter]. destruct p; cbn; by rewrite ?IH.
Qed.

End Replay.

(** X22: the replay of an ordinary buffer is the buffer without its focus
    reports.  When the output kept for a manager is made of text, focus
    reports and other escape sequences, none of them cut short by the
    next escape, re-attaching writes to the terminal, after the clear
    screen, every piece but the focus reports, whole and in order. *)
Theorem replay_is_buffer_without_reports (p : Pending) (w : World)
    (ps : list Piece) :
  isReattach p = true →
  bufferOf (pManager p) w = piecesText ps → piecesText ps ≠ [] →
  Forall pieceOk ps →
  stdout (term (enterInteractiveMode_resume p w).2)
  = stdout (term w) ++
    [ Wrote NEWLINE; Logged (NReattaching (pToolName p));
      Wrote CLEAR_SCREEN;
      Wrote (piecesText (List.filter (λ q, negb (isFocusPiece q)) ps));
      Logged NDetachHint ].
Proof.
  intros Hre Hbuf Hne Hps.
  rewrite enterInteractiveMode_resume_reattach by (by rewrite ?Hbuf).
  match goal with
  | |- context [runInteractiveSession ?a ?b ?x] =>
      destruct (runInteractiveSession_frame a b x) as [-> _]
  end.
  rewrite Hbuf, stripFocus_pieces by done.
  by destruct w as [? ? ? ? ? ? ? ? []].
Qed.

(** * The theorems at concrete sessions *)

Example attached_session_detached :
  mode detachedSystem = Prompt ∧
  liveManager "claude" (world detachedSystem) = Some 0%nat ∧
  attachedRef 0 (world detachedSystem) = false ∧
  bufferOf 0 (world detachedSystem) = alphabet.
Proof. vm_compute. repeat split. Qed.

Lemma detach_key_detaches_witness :
  detached attachedClosure = false ∧ cleanedUp attachedClosure = false ∧
  (∃ b, b ∈ ctrlBracketChunk ∧ isDetachKey (Byte.to_N b) = true) ∧
  Detaches attachedClosure attachedWorld
    (onStdinData 0 ctrlBracketChunk attachedClosure attachedWorld) ∧
  TerminalRestored attachedWorld
    (onStdinData 0 ctrlBracketChunk attachedClosure attachedWorld).2.
Proof.
  assert (detached attachedClosure = false) as Hd by (vm_compute; reflexivity).
  assert (cleanedUp attachedClosure = false) as Hc by (vm_compute; reflexivity).
  assert (∃ b, b ∈ ctrlBracketChunk ∧ isDetachKey (Byte.to_N b) = true) as Hb.
  { exists Byte.x1d. split; [right; left|reflexivity]. }
  split; [exact Hd|]. split; [exact Hc|]. split; [exact Hb|].
  exact (proj2 (detach_key_detaches 0 ctrlBracketChunk attachedClosure
                  attachedWorld Hd Hc Hb)).
Defined.

Lemma reports_in_chunk_not_forwarded_witness :
  detached attachedClosure = false ∧
  Report (Byte.to_N <$> daResponse) ∧
  let m := stripInput snd (marked false (toString daPre) ++
                           marked true (Byte.to_N <$> daResponse) ++
                           marked false (toString daPost)) in
  (snd <$> m) = stripInput id (toString (daPre ++ daResponse ++ daPost)) ∧
  Forall (λ x, x.1 = false) m.
Proof.
  assert (detached attachedClosure = false) as Hd by (vm_compute; reflexivity).
  assert (Report (Byte.to_N <$> daResponse)) as HR
    by exact (report_query [0x31; 0x3b; 0x32] 0x63 eq_refl eq_refl).
  split; [exact Hd|]. split; [exact HR|].
  pose proof (reports_in_chunk_not_forwarded 0 (daPre ++ daResponse ++ daPost)
                attachedClosure attachedWorld Hd) as H.
  destruct (onStdinData 0 (daPre ++ daResponse ++ daPost) attachedClosure
              attachedWorld) as [c' w'].
  destruct H as (_ & H & _). exact (H daPre daResponse daPost eq_refl HR).
Defined.

Lemma double_escape_detaches_witness :
  detached attachedClosure = false ∧
  hasDoubleEscape (Byte.to_N <$> [Byte.x1b; Byte.x1b]) = true ∧
  stripInput id (toString [Byte.x1b; Byte.x1b]) ≠ [] ∧
  Detaches attachedClosure attachedWorld
    (onStdinData 0 [Byte.x1b; Byte.x1b] attachedClosure attachedWorld) ∧
  (let s1 := step 4096 {| world := attachedWorld;
                          mode := Interactive attachedClosure |}
               (StdinData 1000 escapeChunk) in
   let s2 := run 4096 s1 (stdinEvents [(1100%Z, focusOutChunk)]) in
   let s3 := step 4096 s2 (StdinData 1200 escapeChunk) in
   mode s1 = Interactive (setLastEscapeTime 1000 attachedClosure) ∧
   Forall (λ chunk : Z * Buffer, stripInput id (toString chunk.2) = [])
     [(1100%Z, focusOutChunk)] ∧
   (1200 - 1000 < 500)%Z ∧
   mode s3 = Prompt).
Proof.
  assert (detached attachedClosure = false) as Hd by (vm_compute; reflexivity).
  destruct (double_escape_detaches attachedClosure attachedWorld Hd)
    as (Hdouble & _ & Htwo).
  assert (stripInput id (toString [Byte.x1b; Byte.x1b]) ≠ []) as Hne
    by (vm_compute; discriminate).
  split; [exact Hd|]. split; [reflexivity|]. split; [exact Hne|].
  split; [exact (proj2 (Hdouble 0%Z [Byte.x1b; Byte.x1b] eq_refl Hne))|].
  assert (mode (step 4096 {| world := attachedWorld;
                             mode := Interactive attachedClosure |}
                  (StdinData 1000 escapeChunk))
          = Interactive (setLastEscapeTime 1000 attachedClosure)) as H1
    by (vm_compute; reflexivity).
  assert (Forall (λ chunk : Z * Buffer, stripInput id (toString chunk.2) = [])
            [(1100%Z, focusOutChunk)]) as H2.
  { apply Forall_cons_2; [vm_compute; reflexivity|apply Forall_nil_2]. }
  assert (1200 - 1000 < 500)%Z as H3 by reflexivity.
  pose proof (Htwo 4096%nat 1000%Z [(1100%Z, focusOutChunk)] 1200%Z
                (setLastEscapeTime 1000 attachedClosure) H1 H2)
    as (_ & _ & _ & Hquick & _).
  split; [exact H1|]. split; [exact H2|]. split; [exact H3|].
  exact (proj1 (Hquick H3)).
Defined.

Lemma at_most_one_attached_witness :
  mode detachedSystem = Prompt ∧
  ∀ r, attachedRef r (world detachedSystem) = false.
Proof.
  assert (mode detachedSystem = Prompt) as Hp by (vm_compute; reflexivity).
  split; [exact Hp|].
  pose proof (at_most_one_attached 4096 {[ "claude"%string := demoAdapter ]}
                "claude" true false
                [Line (CmdInteractive true); AnimationDone;
                 PtyData 0 alphabet; StdinData 0 ctrlBracketChunk]) as H.
  cbn zeta in H. destruct H as (_ & _ & H & _). exact (H Hp).
Defined.

Lemma getOrCreateManager_reuses_or_spawns_witness :
  ptyManagers attachedWorld !! "claude"%string = Some 0%nat ∧
  deadRef 0 attachedWorld = false ∧
  getOrCreateManager "claude" true true attachedWorld = (Ok 0%nat, attachedWorld) ∧
  registry attachedWorld !! "claude"%string = Some demoAdapter ∧
  activeTool attachedWorld = "claude"%string ∧
  ptyManagers (killExisting attachedWorld) !! "claude"%string = None ∧
  deadRef 0 (killExisting attachedWorld) = true.
Proof.
  assert (registry attachedWorld !! "claude"%string = Some demoAdapter) as Hreg
    by (vm_compute; reflexivity).
  assert (activeTool attachedWorld = "claude"%string) as Hact
    by (vm_compute; reflexivity).
  assert (ptyManagers attachedWorld !! "claude"%string = Some 0%nat) as Hpm
    by (vm_compute; reflexivity).
  assert (deadRef 0 attachedWorld = false) as Hlive by (vm_compute; reflexivity).
  destruct (getOrCreateManager_reuses_or_spawns "claude" true true attachedWorld)
    as (Hreuse & _ & Hkill).
  destruct (Hkill demoAdapter 0%nat Hreg Hact Hpm Hlive) as (Hgone & Hdead & _).
  split; [exact Hpm|]. split; [exact Hlive|].
  split; [exact (Hreuse 0%nat Hpm Hlive)|].
  split; [exact Hreg|]. split; [exact Hact|]. split; [exact Hgone|exact Hdead].
Defined.


Lemma unknown_tool_fails_witness :
  ({[ "claude"%string := demoAdapter ]} : gmap string Adapter) !! "codex"%string
    = None ∧
  getOrCreateManager "codex" true true attachedWorld
  = (Throw (UnknownTool "codex"), attachedWorld).
Proof.
  assert (({[ "claude"%string := demoAdapter ]} : gmap string Adapter)
            !! "codex"%string = None) as Hnone by (vm_compute; reflexivity).
  split; [exact Hnone|].
  exact (unknown_tool_fails 4096 {[ "claude"%string := demoAdapter ]} "claude"
           true false [Line (CmdInteractive true); AnimationDone]
           "codex" true true Hnone).
Defined.

Lemma history_bounded_witness :
  requestInProgress fullWorld = false ∧
  registry fullWorld !! activeTool fullWorld = Some demoAdapter ∧
  conversationHistory fullWorld
  = oldestMessage :: secondMessage :: replicate 998 laterMessage ∧
  conversationHistory (sendToTool greeting (Some answer) fullWorld)
  = replicate 998 laterMessage ++
    [ {| tool := "claude"; role := user; content := greeting |};
      {| tool := "claude"; role := assistant; content := answer |} ].
Proof.
  assert (requestInProgress fullWorld = false) as Hreq by reflexivity.
  assert (registry fullWorld !! activeTool fullWorld = Some demoAdapter)
    as Hreg by (vm_compute; reflexivity).
  split; [exact Hreq|]. split; [exact Hreg|]. split; [reflexivity|].
  destruct (proj1 (proj2 (history_bounded fullWorld)) greeting (Some answer)
              Hreq) as (_ & Hok & _).
  rewrite (Hok demoAdapter answer Hreg eq_refl).
  vm_compute. reflexivity.
Defined.

Lemma detach_records_meaningful_output_witness :
  detached attachedClosure = false ∧
  bufferOf (manager attachedClosure) (world busySystem) ≠ [] ∧
  registry (world busySystem) !! activeTool (world busySystem)
    = Some demoAdapter ∧
  (20 < length (cleanResponse demoAdapter
                  (bufferOf (manager attachedClosure) (world busySystem))))%nat ∧
  conversationHistory (performDetach attachedClosure (world busySystem)).2
  = enforceHistoryLimit
      (conversationHistory (world busySystem) ++
       [{| tool := activeTool (world busySystem); role := assistant;
           content := cleanResponse demoAdapter
                        (bufferOf (manager attachedClosure)
                           (world busySystem)) |}]).
Proof.
  assert (detached attachedClosure = false) as Hd by (vm_compute; reflexivity).
  assert (bufferOf (manager attachedClosure) (world busySystem) ≠ []) as Hbuf
    by (vm_compute; discriminate).
  assert (registry (world busySystem) !! activeTool (world busySystem)
          = Some demoAdapter) as Hreg by (vm_compute; reflexivity).
  assert (20 < length (cleanResponse demoAdapter
                         (bufferOf (manager attachedClosure)
                            (world busySystem))))%nat as Hlen
    by (vm_compute; lia).
  split; [exact Hd|]. split; [exact Hbuf|]. split; [exact Hreg|].
  split; [exact Hlen|].
  exact (proj1 (detach_records_meaningful_output attachedClosure
                  (world busySystem) Hd) demoAdapter Hbuf Hreg Hlen).
Defined.

(** * The further theorems at concrete inputs *)

Lemma plain_input_is_forwarded_witness :
  hiChunk ≠ [] ∧
  Forall (λ b, Byte.to_N b ≠ ESC ∧ isDetachKey (Byte.to_N b) = false)
    hiChunk ∧
  onStdinData 0 hiChunk attachedClosure attachedWorld
  = (setLastEscapeTime 0 attachedClosure,
     onManager (manager attachedClosure) (write (toString hiChunk))
       (debugTrace hiChunk attachedClosure attachedWorld)).
Proof.
  assert (hiChunk ≠ []) as H1 by discriminate.
  assert (Forall (λ b, Byte.to_N b ≠ ESC ∧
                       isDetachKey (Byte.to_N b) = false) hiChunk) as H2.
  { repeat (apply Forall_cons_2; [split; [discriminate|reflexivity]|]).
    apply Forall_nil_2. }
  split; [exact H1|]. split; [exact H2|].
  exact (plain_input_is_forwarded 0 hiChunk attachedClosure attachedWorld
           H1 H2).
Defined.

Lemma failed_send_takes_message_back_witness :
  requestInProgress answeredWorld = false ∧
  conversationHistory (sendToTool greeting None answeredWorld)
  = conversationHistory answeredWorld.
Proof.
  assert (requestInProgress answeredWorld = false) as H1
    by (vm_compute; reflexivity).
  split; [exact H1|].
  destruct (failed_send_takes_message_back greeting None answeredWorld H1
              (or_introl eq_refl)) as (_ & H & _).
  apply H. vm_compute. lia.
Defined.

Lemma rainbowText_strips_to_text_witness :
  (0 ≤ 2)%Z ∧ stripAnsiLength (rainbowText cyaCommand 2) = 4%nat.
Proof.
  assert (0 ≤ 2)%Z as H by lia.
  split; [exact H|].
  exact (proj2 (rainbowText_strips_to_text cyaCommand 2 H)).
Defined.

Lemma fullWidthLine_fills_the_width_witness :
  isSgr DIM ∧ (ESC ∉ doubleBar) ∧
  ∃ line, fullWidthLine doubleBar DIM (Some 120%Z) = Some line ∧
          stripAnsiLength line = 120%nat.
Proof.
  assert (isSgr DIM) as H1 by (by exists [0x32]).
  assert (ESC ∉ doubleBar) as H2.
  { intros H. apply elem_of_cons in H as [H|H]; [discriminate|].
    by apply elem_of_nil in H. }
  assert (∀ c, Some 120%Z = Some c → (0 ≤ c)%Z) as H3
    by (intros c [= <-]; lia).
  split; [exact H1|]. split; [exact H2|].
  destruct (fullWidthLine_fills_the_width doubleBar DIM (Some 120%Z)
              H1 H2 H3) as (line & Hl & _ & Hlen & _).
  exists line. split; [exact Hl|]. exact Hlen.
Defined.

Lemma spinner_status_fits_witness :
  (8 ≤ 20)%Z ∧
  (Z.of_nat (length (Spinner.truncatedStatus statusText 20)) ≤ 20 - 5)%Z.
Proof.
  assert (8 ≤ 20)%Z as H by lia.
  split; [exact H|].
  exact (proj1 (spinner_status_fits statusText 20 H)).
Defined.

Lemma plain_line_is_only_trimmed_witness :
  (ESC ∉ typedLine) ∧ (0x5e ∉ typedLine) ∧
  cleanLine typedLine = trim typedLine.
Proof.
  assert (ESC ∉ typedLine) as H1.
  { unfold typedLine. rewrite !elem_of_cons, elem_of_nil.
    intros H. repeat (destruct H as [H|H]; [discriminate|]). done. }
  assert (0x5e ∉ typedLine) as H2.
  { unfold typedLine. rewrite !elem_of_cons, elem_of_nil.
    intros H. repeat (destruct H as [H|H]; [discriminate|]). done. }
  assert (∀ pre p, typedLine = pre ++ [p; 0x63] → isParam p = false) as H3.
  { intros pre p H. apply (f_equal reverse) in H.
    rewrite reverse_app in H. by vm_compute in H. }
  split; [exact H1|]. split; [exact H2|].
  exact (proj1 (plain_line_is_only_trimmed typedLine H1 H2 H3)).
Defined.

Lemma response_suffix_is_cut_witness :
  (ESC ∉ cyaCommand) ∧ (0x5e ∉ cyaCommand) ∧ (0x3b ∉ cyaCommand) ∧
  forallb isParam daParams = true ∧
  cleanLine (cyaCommand ++ 0x3b :: daParams ++ [0x63]) = cyaCommand.
Proof.
  assert (∀ h, h ≠ 0x2f → h ≠ 0x63 → h ≠ 0x79 → h ≠ 0x61 → h ∉ cyaCommand)
    as Hnot.
  { intros h Ha Hb Hc Hd. unfold cyaCommand.
    rewrite !elem_of_cons, elem_of_nil.
    intros H. repeat (destruct H as [H|H]; [congruence|]). done. }
  assert (ESC ∉ cyaCommand) as H1 by (by apply Hnot).
  assert (0x5e ∉ cyaCommand) as H2 by (by apply Hnot).
  assert (0x3b ∉ cyaCommand) as H3 by (by apply Hnot).
  assert (∀ x, head cyaCommand = Some x → isParam x = false ∧ x ≠ 0x75)
    as H4 by (by intros x [= <-]).
  assert (daParams ≠ []) as H5 by discriminate.
  assert (forallb isParam daParams = true) as H6 by reflexivity.
  split; [exact H1|]. split; [exact H2|]. split; [exact H3|].
  split; [exact H6|].
  exact (response_suffix_is_cut cyaCommand daParams H1 H2 H3 H4 H5 H6).
Defined.

Lemma terminal_noise_is_ignored_witness :
  Forall tokenOk noiseLine ∧ lineHandler (renderAll noiseLine) = None.
Proof.
  assert (Forall tokenOk noiseLine) as H1.
  { repeat (apply Forall_cons_2; [by cbn|]). apply Forall_nil_2. }
  assert (noiseLine ≠ []) as H2 by discriminate.
  split; [exact H1|].
  exact (proj2 (terminal_noise_is_ignored noiseLine H1 H2)).
Defined.

Lemma forward_goes_to_and_fro_witness :
  lastAssistant (conversationHistory answeredWorld) = Some answeredMessage ∧
  let s1 := handleForward [] false true (Some greeting) answeredWorld in
  let s2 := handleForward [] false true (Some answer) (world s1) in
  activeTool (world s1) = "gemini"%string ∧
  activeTool (world s2) = "claude"%string.
Proof.
  assert (lastAssistant (conversationHistory answeredWorld)
          = Some answeredMessage) as H1 by (vm_compute; reflexivity).
  assert (tool answeredMessage ∈ tcName <$> AVAILABLE_TOOLS) as H2 by left.
  assert (requestInProgress answeredWorld = false) as H3
    by (vm_compute; reflexivity).
  assert (registry answeredWorld !! otherTool (tool answeredMessage)
          = Some geminiAdapter) as H4 by (vm_compute; reflexivity).
  assert (registry answeredWorld !! tool answeredMessage = Some demoAdapter)
    as H5 by (vm_compute; reflexivity).
  split; [exact H1|].
  destruct (forward_goes_to_and_fro [] [] greeting answer true true
              answeredWorld answeredMessage geminiAdapter demoAdapter
              H1 H2 H3 H4 H5) as (_ & Ha & _ & _ & Hb & _).
  split; [exact Ha|exact Hb].
Defined.

Lemma detach_key_returns_to_prompt_witness :
  (∃ b, b ∈ ctrlBracketChunk ∧ isDetachKey (Byte.to_N b) = true) ∧
  mode attachedSystem = Interactive attachedClosure ∧
  mode (step 4096 attachedSystem (StdinData 0 ctrlBracketChunk)) = Prompt.
Proof.
  assert (∃ b, b ∈ ctrlBracketChunk ∧ isDetachKey (Byte.to_N b) = true) as H1.
  { exists Byte.x1d. split; [right; left|reflexivity]. }
  assert (mode attachedSystem = Interactive attachedClosure) as H2
    by (vm_compute; reflexivity).
  split; [exact H1|]. split; [exact H2|].
  exact (proj1 (detach_key_returns_to_prompt 4096
                  {[ "claude"%string := demoAdapter ]} "claude" true false
                  [Line (CmdInteractive true); AnimationDone]
                  0 ctrlBracketChunk H1 attachedClosure H2)).
Defined.

Lemma send_spares_the_other_tools_witness :
  let w := world (run 4096 (initial bothAdapters "claude" true false)
                    switchedEvents) in
  "claude"%string ≠ activeTool w ∧
  ptyManagers w !! "claude"%string = Some 0%nat ∧
  ptyManagers (sendToTool greeting (Some answer) w) !! "claude"%string
  = Some 0%nat ∧
  deadRef 0 (sendToTool greeting (Some answer) w) = false.
Proof.
  cbn zeta.
  set (w := world (run 4096 (initial bothAdapters "claude" true false)
                     switchedEvents)).
  assert ("claude"%string ≠ activeTool w) as H1 by (vm_compute; discriminate).
  assert (ptyManagers w !! "claude"%string = Some 0%nat) as H2
    by (vm_compute; reflexivity).
  split; [exact H1|]. split; [exact H2|].
  destruct (send_spares_the_other_tools 4096 bothAdapters "claude" true false
              switchedEvents greeting (Some answer) "claude"%string 0%nat
              H1 H2) as [Ha Hb].
  split; [exact Ha|].
  unfold deadRef. fold w in Hb. rewrite Hb. vm_compute. reflexivity.
Defined.

Lemma forward_gets_the_typed_words_witness :
  (∀ x, last forwardCommand = Some x → isWhiteSpace x = false) ∧
  toLowerCase (hd [] (splitWs [] false forwardCommand)) = lit "forward" ∧
  ∃ argsString,
    metaCommand forwardCommand = MForward argsString true ∧
    words argsString = [lit "gemini"; lit "please"; lit "check"].
Proof.
  assert (∀ x, last forwardCommand = Some x → isWhiteSpace x = false) as H1
    by (by intros x [= <-]).
  assert (toLowerCase (hd [] (splitWs [] false forwardCommand))
          = lit "forward") as H2 by (vm_compute; reflexivity).
  split; [exact H1|]. split; [exact H2|].
  destruct (proj1 (forward_gets_the_typed_words forwardCommand H1)
              (or_introl H2)) as (argsString & Hm & Hw).
  exists argsString. split.
  - rewrite Hm. vm_compute. reflexivity.
  - rewrite Hw. vm_compute. reflexivity.
Defined.

Lemma reattach_finds_the_subprocess_witness :
  (∃ b, b ∈ ctrlBracketChunk ∧ isDetachKey (Byte.to_N b) = true) ∧
  mode attachedSystem = Interactive attachedClosure ∧
  deadRef (manager attachedClosure) attachedWorld = false ∧
  attachedRef (manager attachedClosure)
    (world (run 4096 attachedSystem
              (StdinData 0 ctrlBracketChunk :: printed [(0%nat, alphabet)]
               ++ [Line (CmdInteractive false); AnimationDone]))) = true.
Proof.
  assert (∃ b, b ∈ ctrlBracketChunk ∧ isDetachKey (Byte.to_N b) = true) as H1.
  { exists Byte.x1d. split; [right; left|reflexivity]. }
  assert (mode attachedSystem = Interactive attachedClosure) as H2
    by (vm_compute; reflexivity).
  assert (deadRef (manager attachedClosure) attachedWorld = false) as H3
    by (vm_compute; reflexivity).
  split; [exact H1|]. split; [exact H2|]. split; [exact H3|].
  exact (proj1 (proj2 (reattach_finds_the_subprocess 4096
                  {[ "claude"%string := demoAdapter ]} "claude" true false
                  [Line (CmdInteractive true); AnimationDone]
                  0 ctrlBracketChunk [(0%nat, alphabet)] false
                  H1 attachedClosure H2 H3))).
Defined.

Lemma response_like_line_is_dropped_witness :
  forallb isDigit [] = true ∧ forallb isDigit (lit "15") = true ∧
  lineHandler (lit "15c") = None.
Proof.
  assert (forallb isDigit [] = true) as H1 by reflexivity.
  assert (forallb isDigit (lit "15") = true) as H2 by (vm_compute; reflexivity).
  split; [exact H1|]. split; [exact H2|].
  exact (proj2 (response_like_line_is_dropped [] [] (lit "15") H1
                  (or_introl eq_refl) ltac:(vm_compute; discriminate) H2)).
Defined.

Lemma replay_is_buffer_without_reports_witness :
  let w := world (run 4096 attachedSystem
                    [ PtyData 0 (piecesText colouredPieces);
                      StdinData 0 ctrlBracketChunk ]) in
  let p := {| pManager := 0; pToolName := "Claude Code";
              isFirstLaunch := false; isReattach := true |} in
  bufferOf 0 w = piecesText colouredPieces ∧
  Forall pieceOk colouredPieces ∧
  stdout (term (enterInteractiveMode_resume p w).2)
  = stdout (term w) ++
    [ Wrote NEWLINE; Logged (NReattaching "Claude Code");
      Wrote CLEAR_SCREEN; Wrote (lit "he" ++ ESC :: lit "[31m" ++ lit "llo");
      Logged NDetachHint ].
Proof.
  cbn zeta.
  set (w := world (run 4096 attachedSystem
                     [ PtyData 0 (piecesText colouredPieces);
                       StdinData 0 ctrlBracketChunk ])).
  set (p := {| pManager := 0%nat; pToolName := "Claude Code";
               isFirstLaunch := false; isReattach := true |}).
  assert (bufferOf 0 w = piecesText colouredPieces) as H1
    by (vm_compute; reflexivity).
  assert (Forall pieceOk colouredPieces) as H2.
  { unfold colouredPieces.
    repeat (apply Forall_cons_2; [|]); try apply Forall_nil_2; cbn;
      try exact I.
    - vm_compute. intros H. repeat (apply elem_of_cons in H as [H|H];
        [discriminate H|]). by apply elem_of_nil in H.
    - split.
      + vm_compute. intros H. repeat (apply elem_of_cons in H as [H|H];
          [discriminate H|]). by apply elem_of_nil in H.
      + eexists _, _. split; [reflexivity|]. right.
        eexists _, _. split; [reflexivity|]. split; vm_compute; discriminate.
    - vm_compute. intros H. repeat (apply elem_of_cons in H as [H|H];
        [discriminate H|]). by apply elem_of_nil in H. }
  split; [exact H1|]. split; [exact H2|].
  exact (replay_is_buffer_without_reports p w colouredPieces eq_refl H1
           ltac:(vm_compute; discriminate) H2).
Defined.
